(** * journal_check: the guideline-retrieval pipeline, as a shallow embedding

    The Python sources embedded here are
    - [03_scrape_guidelines.py]   (tier 1: plain HTTP, creates the ledger),
    - [03b_browser_scrape.py]     (browser agent re-scrape),
    - [03c_direct_scrape.py]      (Playwright re-scrape),
    - [03c_follow_guideline_links.py] (link-follow augmenter),
    - [03d_fix_elsevier.py], [03e_fix_karger.py], [03f_fix_remaining.py]
                                  (one-off re-scrapes of single journals),
    - [04_analyze_guidelines.py]  (quote validation, review flags, the
                                  analysis run),
    - [02_discover_urls.py]       (ISSN variants and homepage discovery).

    What lies outside the sources is a parameter: the HTML parser, URL
    arithmetic, the network, the browser and the browser agent, the regular
    expression search for links, the string matcher and the language model.
    Each network-like parameter takes the number of the call, so that two
    calls for one URL may differ.

    Python [str] values are modelled by [string]; only code points below 128
    are given a character class (the tables Python uses above 127 for [\w],
    [\s] and [str.lower] are not part of the sources). *)

From Stdlib Require Import String Ascii List Arith Lia Bool QArith Qround Lqa.
From stdpp Require Import base option list strings gmap.

Local Open Scope nat_scope.

(** ** Python string primitives *)

Module PyStr.

Definition code (c : ascii) : nat := nat_of_ascii c.

Definition is_ascii_char (c : ascii) : bool := code c <? 128.

Definition is_upper (c : ascii) : bool := (65 <=? code c) && (code c <=? 90).
Definition is_lower (c : ascii) : bool := (97 <=? code c) && (code c <=? 122).
Definition is_digit (c : ascii) : bool := (48 <=? code c) && (code c <=? 57).

(** [\w] on a [str] pattern, below 128: letters, digits and the underscore. *)
Definition is_word (c : ascii) : bool :=
  is_upper c || is_lower c || is_digit c || (code c =? 95).

(** [\s] on a [str] pattern and [str.isspace], below 128: TAB, LF, VT, FF, CR,
    the four separators FS, GS, RS, US, and the space. *)
Definition is_space (c : ascii) : bool :=
  ((9 <=? code c) && (code c <=? 13)) || ((28 <=? code c) && (code c <=? 32)).

Definition hyphen : ascii := ascii_of_nat 45.
Definition newline : ascii := ascii_of_nat 10.

Definition is_hyphen (c : ascii) : bool := code c =? 45.
Definition is_newline (c : ascii) : bool := code c =? 10.

Definition lower_char (c : ascii) : ascii :=
  if is_upper c then ascii_of_nat (code c + 32) else c.

(** [s.lower()] *)
Fixpoint lower (s : string) : string :=
  match s with
  | EmptyString => EmptyString
  | String c r => String (lower_char c) (lower r)
  end.

(** Every character of [s] satisfies [p]. *)
Fixpoint all_chars (p : ascii -> bool) (s : string) : bool :=
  match s with
  | EmptyString => true
  | String c r => p c && all_chars p r
  end.

Definition is_ascii (s : string) : bool := all_chars is_ascii_char s.

(** Keep the characters satisfying [p]: [re.sub("[^...]", "", s)] for a
    one-character class. *)
Fixpoint keep (p : ascii -> bool) (s : string) : string :=
  match s with
  | EmptyString => EmptyString
  | String c r => if p c then String c (keep p r) else keep p r
  end.

(** [s.lstrip(chars)] for the class [p]. *)
Fixpoint lstrip (p : ascii -> bool) (s : string) : string :=
  match s with
  | EmptyString => EmptyString
  | String c r => if p c then lstrip p r else s
  end.

(** [s.rstrip(chars)] for the class [p]. *)
Fixpoint rstrip (p : ascii -> bool) (s : string) : string :=
  match s with
  | EmptyString => EmptyString
  | String c r =>
      match rstrip p r with
      | EmptyString => if p c then EmptyString else String c EmptyString
      | r' => String c r'
      end
  end.

(** [s.strip(chars)] *)
Definition strip (p : ascii -> bool) (s : string) : string := rstrip p (lstrip p s).

(** [s[:n]] *)
Fixpoint take (n : nat) (s : string) : string :=
  match n, s with
  | S n', String c r => String c (take n' r)
  | _, _ => EmptyString
  end.

(** [s.startswith(p)] *)
Fixpoint startswith (p s : string) : bool :=
  match p, s with
  | EmptyString, _ => true
  | String a p', String b s' => Ascii.eqb a b && startswith p' s'
  | String _ _, EmptyString => false
  end.

(** [p in s] *)
Fixpoint contains (p s : string) : bool :=
  startswith p s ||
  match s with
  | EmptyString => false
  | String _ r => contains p r
  end.

(** [sep.join(parts)] *)
Fixpoint join (sep : string) (parts : list string) : string :=
  match parts with
  | [] => EmptyString
  | [x] => x
  | x :: rest => x +:+ sep +:+ join sep rest
  end.

(** [bool(s)] for a [str]: the empty string is falsy. *)
Definition truthy (s : string) : bool :=
  match s with EmptyString => false | _ => true end.

End PyStr.

(** ** Slugs ([slugify], identical in the three scraper scripts) *)

Module Slug.
Import PyStr.

(** [re.sub(r"[^\w\s-]", "", text)] *)
Definition drop_symbols (s : string) : string :=
  keep (fun c => is_word c || is_space c || is_hyphen c) s.

Definition is_sep (c : ascii) : bool := is_hyphen c || is_space c.

(** [re.sub(r"[-\s]+", "-", text)]: every maximal run of hyphens and
    whitespace becomes one hyphen.  [in_run] tells that the previous
    character belonged to the run being replaced. *)
Fixpoint hyphenate (in_run : bool) (s : string) : string :=
  match s with
  | EmptyString => EmptyString
  | String c r =>
      if is_sep c
      then (if in_run then hyphenate true r else String hyphen (hyphenate true r))
      else String c (hyphenate false r)
  end.

Definition slugify (text : string) : string :=
  let text := lower text in
  let text := drop_symbols text in
  let text := hyphenate false text in
  take 50 (strip is_hyphen text).

(** The alphabet the specification names, [a-z0-9-]. *)
Definition spec_char (c : ascii) : bool := is_lower c || is_digit c || is_hyphen c.

(** The alphabet the code keeps for ASCII input, [a-z0-9_-]. *)
Definition slug_char (c : ascii) : bool := spec_char c || (code c =? 95).

Example slugify_title :
  slugify "Advances in Methods and Practices in Psychological Science"
  = "advances-in-methods-and-practices-in-psychological".
Proof. reflexivity. Qed.

Example slugify_punct : slugify "  Health & Psychology -- Review! " = "health-psychology-review".
Proof. reflexivity. Qed.

(** *** Character facts, by enumeration of the 256 characters *)

Ltac each_char c := destruct c as [[] [] [] [] [] [] [] []]; vm_compute; try reflexivity; try discriminate; auto.

Lemma slug_char_not_upper (c : ascii) : slug_char c = true -> lower_char c = c.
Proof. each_char c. Qed.

Lemma slug_char_hyphen : slug_char hyphen = true.
Proof. reflexivity. Qed.

Lemma lower_char_ascii (c : ascii) : is_ascii_char c = true -> is_ascii_char (lower_char c) = true.
Proof. each_char c. Qed.

(** *** [all_chars] through the string operations *)

Lemma all_chars_keep (p q : ascii -> bool) (s : string) :
  all_chars p s = true -> all_chars (fun c => p c && q c) (keep q s) = true.
Proof.
  induction s as [|c r IH]; simpl; [reflexivity|].
  rewrite andb_true_iff. intros [Hc Hr].
  destruct (q c) eqn:Hq; simpl; [rewrite Hc, Hq; simpl|]; apply IH, Hr.
Qed.

Lemma all_chars_lstrip (p q : ascii -> bool) (s : string) :
  all_chars p s = true -> all_chars p (lstrip q s) = true.
Proof.
  induction s as [|c r IH]; simpl; [reflexivity|].
  intros H. destruct (q c); [|exact H].
  apply andb_true_iff in H. apply IH, H.
Qed.

Lemma all_chars_rstrip (p q : ascii -> bool) (s : string) :
  all_chars p s = true -> all_chars p (rstrip q s) = true.
Proof.
  induction s as [|c r IH]; simpl; [reflexivity|].
  rewrite andb_true_iff. intros [Hc Hr]. specialize (IH Hr).
  destruct (rstrip q r) as [|c' r'].
  - destruct (q c); simpl; [reflexivity | now rewrite Hc].
  - change (all_chars p (String c (String c' r'))) with (p c && all_chars p (String c' r')).
    now rewrite Hc, IH.
Qed.

Lemma all_chars_take (p : ascii -> bool) (n : nat) (s : string) :
  all_chars p s = true -> all_chars p (take n s) = true.
Proof.
  revert s. induction n as [|n IH]; intros [|c r]; simpl; try reflexivity.
  rewrite !andb_true_iff. intros [Hc Hr]. split; [exact Hc | apply IH, Hr].
Qed.

Lemma all_chars_hyphenate (p q : ascii -> bool) (b : bool) (s : string) :
  (forall c, p c = true -> is_sep c = false -> q c = true) ->
  q hyphen = true ->
  all_chars p s = true -> all_chars q (hyphenate b s) = true.
Proof.
  intros Hpq Hh. revert b. induction s as [|c r IH]; intros b; simpl; [reflexivity|].
  rewrite andb_true_iff. intros [Hc Hr].
  destruct (is_sep c) eqn:Hs.
  - destruct b; simpl; [|rewrite Hh; simpl]; apply IH, Hr.
  - simpl. rewrite (Hpq c Hc Hs). simpl. apply IH, Hr.
Qed.

Lemma all_chars_lower (s : string) :
  is_ascii s = true ->
  all_chars (fun c => is_ascii_char c && (Ascii.eqb (lower_char c) c)) (lower s) = true.
Proof.
  unfold is_ascii. induction s as [|c r IH]; simpl; [reflexivity|].
  rewrite andb_true_iff. intros [Hc Hr]. rewrite (IH Hr), andb_true_r.
  rewrite lower_char_ascii by exact Hc. simpl.
  clear -Hc. revert Hc. each_char c.
Qed.

Lemma lower_fixed (s : string) :
  all_chars slug_char s = true -> lower s = s.
Proof.
  induction s as [|c r IH]; simpl; [reflexivity|].
  rewrite andb_true_iff. intros [Hc Hr].
  now rewrite (slug_char_not_upper c Hc), (IH Hr).
Qed.

Lemma take_length (n : nat) (s : string) : String.length (take n s) <= n.
Proof.
  revert s. induction n as [|n IH]; intros [|c r]; simpl; try lia.
  specialize (IH r). lia.
Qed.

Lemma slug_alphabet_char (c : ascii) :
  (is_ascii_char c && Ascii.eqb (lower_char c) c
   && (is_word c || is_space c || is_hyphen c)) = true ->
  is_sep c = false -> slug_char c = true.
Proof. each_char c. Qed.

Lemma slugify_alphabet (name : string) :
  is_ascii name = true -> all_chars slug_char (slugify name) = true.
Proof.
  intros Hascii. unfold slugify, strip, drop_symbols.
  apply all_chars_take, all_chars_rstrip, all_chars_lstrip.
  eapply all_chars_hyphenate;
    [ | exact slug_char_hyphen | apply all_chars_keep, all_chars_lower, Hascii ].
  intros c Hc Hs. simpl in Hc. now apply slug_alphabet_char.
Qed.




End Slug.

(** ** Content extractor ([extract_text]) *)

Module Extract.
Import PyStr.

(** The document tree BeautifulSoup builds.  [Text] is a [NavigableString];
    [Comment] stands for the string kinds [get_text] leaves out. *)
#[local] Unset Elimination Schemes.
Inductive node : Type :=
  | Text (s : string)
  | Comment (s : string)
  | Element (name : string) (attrs : list (string * string)) (children : list node).
#[local] Set Elimination Schemes.

(** The tag list of [extract_text] in [03_scrape_guidelines.py] (and in the
    link-follow and fix scripts). *)
Definition STRIP_TAGS : list string :=
  ["script"; "style"; "nav"; "footer"; "header"; "aside"].

(** The tag list of [extract_text] in [03c_direct_scrape.py]. *)
Definition STRIP_TAGS_DIRECT : list string :=
  ["script"; "style"; "nav"; "footer"; "header"; "aside"; "noscript"].

Definition named_in (tags : list string) (name : string) : bool :=
  existsb (String.eqb name) tags.

(** [for tag in soup(tags): tag.decompose()]: every element named in [tags],
    at any depth, is removed together with its subtree. *)
Fixpoint decompose (tags : list string) (n : node) : list node :=
  match n with
  | Element name attrs kids =>
      if named_in tags name then []
      else [Element name attrs (List.flat_map (decompose tags) kids)]
  | other => [other]
  end.

Definition decompose_all (tags : list string) (soup : list node) : list node :=
  List.flat_map (decompose tags) soup.

(** The strings [get_text] walks over, in document order. *)
Fixpoint all_strings (n : node) : list string :=
  match n with
  | Text s => [s]
  | Comment _ => []
  | Element _ _ kids => List.flat_map all_strings kids
  end.

(** [soup.get_text(separator="\n", strip=True)] *)
Definition get_text (soup : list node) : string :=
  join (String newline EmptyString)
    (List.filter truthy (List.map (strip is_space) (List.flat_map all_strings soup))).

(** [re.sub(r"\n{3,}", "\n\n", text)]; [seen] counts the newlines of the
    current run already read. *)
Fixpoint squeeze (seen : nat) (s : string) : string :=
  match s with
  | EmptyString => EmptyString
  | String c r =>
      if is_newline c
      then (if seen <? 2 then String c (squeeze (S seen) r) else squeeze (S seen) r)
      else String c (squeeze 0 r)
  end.

(** The body of [extract_text] after parsing. *)
Definition text_of_soup (tags : list string) (soup : list node) : string :=
  squeeze 0 (get_text (decompose_all tags soup)).

(** The strings outside every element named in [tags]: what the
    specification calls the remaining visible text. *)
Fixpoint visible (tags : list string) (n : node) : list string :=
  match n with
  | Text s => [s]
  | Comment _ => []
  | Element name _ kids =>
      if named_in tags name then [] else List.flat_map (visible tags) kids
  end.

(** No element of the tree is named in [tags]. *)
Fixpoint clean (tags : list string) (n : node) : bool :=
  match n with
  | Element name _ kids => negb (named_in tags name) && forallb (clean tags) kids
  | _ => true
  end.

Definition nl3 : string := String newline (String newline (String newline EmptyString)).

Section WithParser.
(** [BeautifulSoup(html, "lxml")]: the parser is a library, not part of
    the sources. *)
Variable parse : string -> list node.

(** [extract_text] of [03_scrape_guidelines.py]. *)
Definition extract_text (html : string) : string :=
  text_of_soup STRIP_TAGS (parse html).

(** [extract_text] of [03c_direct_scrape.py]. *)
Definition extract_text_direct (html : string) : string :=
  text_of_soup STRIP_TAGS_DIRECT (parse html).
End WithParser.

(** *** Notions used in the statements *)

(** With [seen] newlines just before [s], no run of newlines reaches three. *)
Fixpoint runs_ok (seen : nat) (s : string) : bool :=
  match s with
  | EmptyString => true
  | String c r => if is_newline c then (seen <? 2) && runs_ok (S seen) r else runs_ok 0 r
  end.

(** [n] newlines put before [s]. *)
Fixpoint newlines (n : nat) (s : string) : string :=
  match n with
  | 0 => s
  | S n' => String newline (newlines n' s)
  end.

(** A page whose body holds a no-script fallback block and one paragraph. *)
Definition noscript_page : list node :=
  [Element "html" [] [Element "body" []
     [Element "noscript" [] [Text "Please enable JavaScript"];
      Element "script" [] [Text "render()"];
      Element "p" [] [Text " Aims and scope "]]]].

Example squeeze_runs :
  squeeze 0 (String "a" (String newline (String newline (String newline (String newline
            (String "b" (String newline (String newline (String "c" EmptyString)))))))))
  = String "a" (String newline (String newline (String "b" (String newline (String newline
            (String "c" EmptyString)))))).
Proof. reflexivity. Qed.

(** *** Induction over document trees *)

Lemma node_nested_ind (P : node -> Prop) :
  (forall s, P (Text s)) ->
  (forall s, P (Comment s)) ->
  (forall name attrs kids, Forall P kids -> P (Element name attrs kids)) ->
  forall n, P n.
Proof.
  intros HT HC HE.
  fix IH 1. intros [s|s|name attrs kids]; [apply HT | apply HC |].
  apply HE. induction kids as [|k kids IHk]; constructor; [apply IH | exact IHk].
Qed.

Lemma flat_map_ext_Forall {A B : Type} (f g : A -> list B) (l : list A) :
  Forall (fun x => f x = g x) l -> List.flat_map f l = List.flat_map g l.
Proof. induction 1 as [|x l Hx _ IH]; simpl; [reflexivity | now rewrite Hx, IH]. Qed.

Lemma flat_map_flat_map {A B C : Type} (f : A -> list B) (g : B -> list C) (l : list A) :
  List.flat_map g (List.flat_map f l) = List.flat_map (fun x => List.flat_map g (f x)) l.
Proof.
  induction l as [|x l IH]; simpl; [reflexivity|].
  now rewrite List.flat_map_app, IH.
Qed.

(** Removing the elements and then collecting strings gives exactly the
    strings outside the removed elements. *)
Lemma strings_after_decompose (tags : list string) (n : node) :
  List.flat_map all_strings (decompose tags n) = visible tags n.
Proof.
  induction n as [s|s|name attrs kids IH] using node_nested_ind; simpl; try reflexivity.
  destruct (named_in tags name); simpl; [reflexivity|].
  rewrite List.app_nil_r, flat_map_flat_map.
  now apply flat_map_ext_Forall.
Qed.

Lemma strings_after_decompose_all (tags : list string) (soup : list node) :
  List.flat_map all_strings (decompose_all tags soup) = List.flat_map (visible tags) soup.
Proof.
  unfold decompose_all. rewrite flat_map_flat_map.
  apply flat_map_ext_Forall, Forall_forall. intros n _. apply strings_after_decompose.
Qed.

Lemma decompose_clean (tags : list string) (n : node) :
  forallb (clean tags) (decompose tags n) = true.
Proof.
  induction n as [s|s|name attrs kids IH] using node_nested_ind; simpl; try reflexivity.
  destruct (named_in tags name) eqn:Hn; simpl; [reflexivity|].
  rewrite Hn, andb_true_r. simpl.
  induction IH as [|k kids Hk _ IHk]; simpl; [reflexivity|].
  now rewrite forallb_app, Hk, IHk.
Qed.

(** After the loop of [decompose] calls no element named in [tags] is left,
    at any depth. *)
Lemma decompose_all_clean (tags : list string) (soup : list node) :
  forallb (clean tags) (decompose_all tags soup) = true.
Proof.
  unfold decompose_all. induction soup as [|n soup IH]; simpl; [reflexivity|].
  now rewrite forallb_app, decompose_clean, IH.
Qed.

(** *** Newline squeezing *)

Lemma is_newline_eqb (c : ascii) : Ascii.eqb newline c = is_newline c.
Proof. destruct c as [[] [] [] [] [] [] [] []]; reflexivity. Qed.

Lemma startswith_nl3 (s : string) :
  startswith nl3 s =
  match s with
  | String a (String b (String c _)) => is_newline a && is_newline b && is_newline c
  | _ => false
  end.
Proof.
  destruct s as [|a [|b [|c r]]]; unfold nl3; cbn [startswith];
    rewrite ?is_newline_eqb, ?andb_false_r, ?andb_true_r, ?andb_assoc; reflexivity.
Qed.

Lemma runs_ok_startswith (k : nat) (s : string) :
  runs_ok k s = true -> startswith nl3 s = false.
Proof.
  rewrite startswith_nl3. destruct s as [|a [|b [|c r]]]; try reflexivity.
  simpl. destruct (is_newline a), (is_newline b), (is_newline c); try reflexivity.
  simpl. destruct k as [|[|k]]; simpl; intros H; try discriminate.
Qed.

Lemma runs_ok_no_triple (k : nat) (s : string) :
  runs_ok k s = true -> contains nl3 s = false.
Proof.
  revert k. induction s as [|c r IH]; intros k H; [reflexivity|].
  change (contains nl3 (String c r)) with (startswith nl3 (String c r) || contains nl3 r).
  rewrite (runs_ok_startswith k _ H). simpl in H |- *.
  destruct (is_newline c).
  - apply andb_true_iff in H. apply (IH (S k)), H.
  - apply (IH 0), H.
Qed.

Lemma squeeze_runs_ok (k : nat) (s : string) :
  runs_ok (Nat.min k 2) (squeeze k s) = true.
Proof.
  revert k. induction s as [|c r IH]; intros k; simpl; [reflexivity|].
  destruct (is_newline c) eqn:Hc.
  - destruct (k <? 2) eqn:Hk.
    + apply Nat.ltb_lt in Hk. simpl. rewrite Hc.
      replace (Nat.min k 2) with k by lia.
      specialize (IH (S k)). replace (Nat.min (S k) 2) with (S k) in IH by lia.
      rewrite IH, andb_true_r. apply Nat.ltb_lt. lia.
    + apply Nat.ltb_ge in Hk. specialize (IH (S k)).
      replace (Nat.min (S k) 2) with 2 in IH by lia.
      now replace (Nat.min k 2) with 2 by lia.
  - simpl. rewrite Hc. apply (IH 0).
Qed.

(** The result of the squeeze holds no three newlines in a row. *)
Lemma squeeze_no_triple (s : string) : contains nl3 (squeeze 0 s) = false.
Proof. apply (runs_ok_no_triple 0), (squeeze_runs_ok 0). Qed.

(** Where no run reaches three newlines nothing changes: runs of one and two
    newlines stay as they are. *)
Lemma squeeze_fixed (k : nat) (s : string) :
  runs_ok k s = true -> squeeze k s = s.
Proof.
  revert k. induction s as [|c r IH]; intros k; simpl; [reflexivity|].
  destruct (is_newline c).
  - rewrite andb_true_iff. intros [Hk Hr]. rewrite Hk. now rewrite (IH _ Hr).
  - intros Hr. now rewrite (IH _ Hr).
Qed.

(** Only newlines are ever dropped. *)
Lemma squeeze_keeps_text (k : nat) (s : string) :
  keep (fun c => negb (is_newline c)) (squeeze k s) = keep (fun c => negb (is_newline c)) s.
Proof.
  revert k. induction s as [|c r IH]; intros k; simpl; [reflexivity|].
  destruct (is_newline c) eqn:Hc; simpl.
  - destruct (k <? 2); simpl; rewrite ?Hc; simpl; apply IH.
  - rewrite Hc. simpl. now rewrite IH.
Qed.

Lemma squeeze_long_run (n k : nat) (s : string) :
  2 <= k -> squeeze k (newlines n s) = squeeze (n + k) s.
Proof.
  revert k. induction n as [|n IH]; intros k Hk; simpl; [reflexivity|].
  assert ((k <? 2) = false) as -> by (apply Nat.ltb_ge; lia).
  rewrite IH by lia. f_equal. lia.
Qed.

Lemma squeeze_run_to_two (n : nat) (c : ascii) (s : string) :
  is_newline c = false ->
  squeeze 0 (newlines (n + 3) (String c s)) = newlines 2 (String c (squeeze 0 s)).
Proof.
  intros Hc. replace (n + 3) with (S (S (S n))) by lia. simpl.
  rewrite squeeze_long_run by lia. simpl. now rewrite Hc.
Qed.

(** *** The contract of [extract_text] *)

Lemma blank_strings_give_nothing (l : list string) :
  Forall (fun s => strip is_space s = EmptyString) l ->
  List.filter truthy (List.map (strip is_space) l) = [].
Proof. induction 1 as [|x l Hx _ IH]; simpl; [reflexivity | now rewrite Hx]. Qed.

Lemma text_of_soup_visible (tags : list string) (soup : list node) :
  text_of_soup tags soup =
  squeeze 0 (join (String newline EmptyString)
    (List.filter truthy (List.map (strip is_space) (List.flat_map (visible tags) soup)))).
Proof. unfold text_of_soup, get_text. now rewrite strings_after_decompose_all. Qed.

Lemma text_of_soup_blank (tags : list string) (soup : list node) :
  Forall (fun s => strip is_space s = EmptyString) (List.flat_map (visible tags) soup) ->
  text_of_soup tags soup = EmptyString.
Proof.
  intros H. rewrite text_of_soup_visible, blank_strings_give_nothing by exact H.
  reflexivity.
Qed.




End Extract.

(** ** The retrieval ledger ([scraping_log.json]) and the text artifacts *)

Module Ledger.

(** One record of the ledger, with the keys tier 1 writes and the key the
    link-follow stage adds. *)
Record entry : Type := Entry {
  journal_name : string;
  slug : string;
  homepage_url : option string;
  guidelines_url : option string;
  status : string;
  method : option string;
  text_length : nat;
  error : option string;
  additional_links_fetched : option nat
}.

Definition set_guidelines_url (v : option string) (e : entry) : entry :=
  Entry (journal_name e) (slug e) (homepage_url e) v (status e) (method e)
        (text_length e) (error e) (additional_links_fetched e).
Definition set_status (v : string) (e : entry) : entry :=
  Entry (journal_name e) (slug e) (homepage_url e) (guidelines_url e) v (method e)
        (text_length e) (error e) (additional_links_fetched e).
Definition set_method (v : option string) (e : entry) : entry :=
  Entry (journal_name e) (slug e) (homepage_url e) (guidelines_url e) (status e) v
        (text_length e) (error e) (additional_links_fetched e).
Definition set_text_length (v : nat) (e : entry) : entry :=
  Entry (journal_name e) (slug e) (homepage_url e) (guidelines_url e) (status e) (method e)
        v (error e) (additional_links_fetched e).
Definition set_error (v : option string) (e : entry) : entry :=
  Entry (journal_name e) (slug e) (homepage_url e) (guidelines_url e) (status e) (method e)
        (text_length e) v (additional_links_fetched e).
Definition set_additional_links_fetched (v : option nat) (e : entry) : entry :=
  Entry (journal_name e) (slug e) (homepage_url e) (guidelines_url e) (status e) (method e)
        (text_length e) (error e) v.

(** The two directories the stages write, each a map from slug to content:
    [HTML_DIR / f"{slug}.html"] and [TEXT_DIR / f"{slug}.txt"].  A file holds
    the str that was written: [read_text] gives back what [write_text] stored
    (UTF-8 both ways, no carriage returns to translate). *)
Record files : Type := Files {
  html_dir : gmap string string;
  text_dir : gmap string string
}.

Definition write_html (slug html : string) (fs : files) : files :=
  Files (<[slug := html]> (html_dir fs)) (text_dir fs).
Definition write_text (slug text : string) (fs : files) : files :=
  Files (html_dir fs) (<[slug := text]> (text_dir fs)).

Definition is_success (e : entry) : bool := String.eqb (status e) "success".

(** A Python [dict] keyed by slug: insertion ordered, a repeated key
    overwrites the value where the key first stood. *)
Fixpoint dict_set (k : string) (v : entry) (d : list (string * entry)) : list (string * entry) :=
  match d with
  | [] => [(k, v)]
  | (k', v') :: rest =>
      if String.eqb k k' then (k, v) :: rest else (k', v') :: dict_set k v rest
  end.

(** [if k in d: d[k][...] = ...]: the record under [k] is updated where it
    stands; nothing happens when [k] is absent. *)
Fixpoint dict_alter (f : entry -> entry) (k : string) (d : list (string * entry))
  : list (string * entry) :=
  match d with
  | [] => []
  | (k', v) :: rest =>
      if String.eqb k k' then (k', f v) :: rest else (k', v) :: dict_alter f k rest
  end.

(** [list(d.values())] *)
Definition values (d : list (string * entry)) : list entry := d.*2.

(** [{r["slug"]: r for r in scrape_log}] *)
Definition log_by_slug (scrape_log : list entry) : list (string * entry) :=
  List.fold_left (fun d r => dict_set (slug r) r d) scrape_log [].

(** Artifact consistency of a ledger against the text directory. *)
Definition consistent (fs : files) (ledger : list entry) : Prop :=
  forall e, e ∈ ledger -> status e = "success" ->
    exists text, text_dir fs !! slug e = Some text /\ text_length e = String.length text.

Fixpoint distinct (l : list string) : bool :=
  match l with
  | [] => true
  | x :: rest => negb (existsb (String.eqb x) rest) && distinct rest
  end.

End Ledger.

(** ** Tier 1: plain HTTP ([03_scrape_guidelines.py]) *)

Module Tier1.
Import PyStr Extract Ledger.

Definition GUIDELINES_PATHS : list string :=
  ["/for-authors"; "/authors"; "/author-guidelines"; "/submission-guidelines";
   "/instructions-for-authors"; "/instructions-authors"; "/submit";
   "/about/submissions"; "/about/author-guidelines"].

Definition GUIDELINES_KEYWORDS : list string :=
  ["author guidelines"; "submission guidelines"; "instructions for authors";
   "guide for authors"; "author instructions"; "how to submit";
   "manuscript preparation"].

(** What [client.get] hands back: a response, or [httpx.HTTPError] raised. *)
Record response : Type := Response { status_code : nat; text : string }.

Inductive fetched : Type :=
  | Got (resp : response)
  | HTTPError.

(** One row of [journals_with_urls.csv]: the title and the homepage cell. *)
Record row : Type := Row { title : string; row_homepage_url : option string }.

(** [not homepage_url] *)
Definition no_homepage (u : option string) : bool :=
  match u with
  | Some u => negb (truthy u)
  | None => true
  end.

Definition attr (key : string) (attrs : list (string * string)) : option string :=
  match List.find (fun kv => String.eqb key (fst kv)) attrs with
  | Some kv => Some (snd kv)
  | None => None
  end.

(** [soup.find_all("a", href=True)] in document order, each link with its
    [href] and its [get_text()]. *)
Fixpoint anchors (n : node) : list (string * string) :=
  match n with
  | Element name attrs kids =>
      (if String.eqb name "a"
       then match attr "href" attrs with
            | Some href => [(href, String.concat "" (List.flat_map all_strings kids))]
            | None => []
            end
       else [])
      ++ List.flat_map anchors kids
  | _ => []
  end.

Definition has_keyword (text_lower : string) : bool :=
  existsb (fun kw => contains kw text_lower) GUIDELINES_KEYWORDS.

Definition has_guideline_path (href : string) : bool :=
  existsb (fun path => contains path (lower href)) GUIDELINES_PATHS.

Section WithWorld.
(** [BeautifulSoup(html, "lxml")] *)
Variable parse : string -> list node.
(** [urllib.parse.urljoin] *)
Variable urljoin : string -> string -> string.
(** [f"{parsed.scheme}://{parsed.netloc}"] of [urlparse(url)] *)
Variable origin : string -> string.
(** The network: the outcome of the [n]-th request of the run, for its URL. *)
Variable get : nat -> string -> fetched.

Definition find_guidelines_link (html base_url : string) : option string :=
  match List.find (fun link => has_keyword (lower (snd link)) || has_guideline_path (fst link))
                  (List.flat_map anchors (parse html)) with
  | Some link => Some (urljoin base_url (fst link))
  | None => None
  end.

(** The loop over [GUIDELINES_PATHS].  [resp] is the Python variable of that
    name, [log] the requests made so far.  The result is the tuple returned
    from inside the loop if any, with the final [resp] and [log]. *)
Fixpoint try_paths (base : string) (paths : list string) (resp : response)
    (log : list string) : option (string * string * string) * response * list string :=
  match paths with
  | [] => (None, resp, log)
  | path :: rest =>
      let try_url := base +:+ path in
      match get (List.length log) try_url with
      | HTTPError => try_paths base rest resp (log ++ [try_url])
      | Got resp' =>
          if (status_code resp' =? 200) && has_keyword (lower (text resp'))
          then (Some (text resp', extract_text parse (text resp'), try_url),
                resp', log ++ [try_url])
          else try_paths base rest resp' (log ++ [try_url])
      end
  end.

(** From "Try common paths directly" to the fallback [return]. *)
Definition paths_then_fallback (homepage_url : string) (resp : response)
    (log : list string) : option (string * string * string) * list string :=
  match try_paths (origin homepage_url) GUIDELINES_PATHS resp log with
  | (Some found, _, log') => (Some found, log')
  | (None, resp', log') =>
      (Some (text resp', extract_text parse (text resp'), homepage_url), log')
  end.

(** [scrape_journal_http]: the returned tuple (or [None]) and the request
    log extended by the requests of this call. *)
Definition scrape_journal_http (log : list string) (homepage_url journal_name : string)
    : option (string * string * string) * list string :=
  match get (List.length log) homepage_url with
  | HTTPError => (None, log ++ [homepage_url])
  | Got resp =>
      let log := log ++ [homepage_url] in
      if status_code resp =? 403 then (None, log)
      else if negb (status_code resp =? 200) then (None, log)
      else
        match find_guidelines_link (text resp) homepage_url with
        | Some guidelines_url =>
            if truthy guidelines_url then
              match get (List.length log) guidelines_url with
              | HTTPError => (None, log ++ [guidelines_url])
              | Got resp =>
                  let log := log ++ [guidelines_url] in
                  if status_code resp =? 200
                  then (Some (text resp, extract_text parse (text resp), guidelines_url), log)
                  else paths_then_fallback homepage_url resp log
              end
            else paths_then_fallback homepage_url resp log
        | None => paths_then_fallback homepage_url resp log
        end
  end.

(** The [result] dict as first built in the loop of [scrape_journals]. *)
Definition pending_result (r : row) : entry :=
  Entry (title r) (Slug.slugify (title r)) (row_homepage_url r)
        None "pending" None 0 None None.

(** One iteration of the loop of [scrape_journals]. *)
Definition scrape_row (r : row) (fs : files) (log : list string)
    : entry * files * list string :=
  let result := pending_result r in
  if no_homepage (row_homepage_url r) then
    (set_error (Some "No homepage URL available") (set_status "no_url" result), fs, log)
  else
    match scrape_journal_http log (default "" (row_homepage_url r)) (title r) with
    | (Some (html, text, guidelines_url), log') =>
        let result := set_guidelines_url (Some guidelines_url) result in
        let result := set_status "success" result in
        let result := set_method (Some "http") result in
        let result := set_text_length (String.length text) result in
        (result, write_text (slug result) text (write_html (slug result) html fs), log')
    | (None, log') =>
        let result := set_status "needs_browser" result in
        let result :=
          set_error (Some "HTTP scraping failed, needs browser automation") result in
        (result, fs, log')
    end.

Fixpoint scrape_rows (rows : list row) (fs : files) (log : list string)
    : list entry * files * list string :=
  match rows with
  | [] => ([], fs, log)
  | r :: rest =>
      let '(result, fs, log) := scrape_row r fs log in
      let '(results, fs, log) := scrape_rows rest fs log in
      (result :: results, fs, log)
  end.

(** [scrape_journals(df)]: the ledger returned and the files written. *)
Definition scrape_journals (rows : list row) (fs : files) : list entry * files :=
  let '(results, fs, _) := scrape_rows rows fs [] in (results, fs).

End WithWorld.

(** A probe that does not end the loop: an error, a status other than 200,
    or a body without any guideline keyword. *)
Definition probe_miss (f : fetched) : bool :=
  match f with
  | HTTPError => true
  | Got resp => negb ((status_code resp =? 200) && has_keyword (lower (text resp)))
  end.

(** What tier 1 leaves in a record. *)
Definition tier1_record (e : entry) : Prop :=
  (status e = "no_url" \/ status e = "success" \/ status e = "needs_browser")
  /\ (status e = "success" -> method e = Some "http" /\ error e = None)
  /\ (status e = "needs_browser" -> error e <> None).

(** *** Concrete worlds *)

(** A parser that sees one text node and no element. *)
Definition text_parser (html : string) : list node := [Text html].

Definition same_url (base href : string) : string := href.

Definition id_origin (url : string) : string := url.

(** Every request is answered by the given status and body. *)
Definition always (status : nat) (body : string) (n : nat) (url : string) : fetched :=
  Got (Response status body).

(** The first request is answered 200 with [body]; all later ones fail in
    transport. *)
Definition only_homepage (body : string) (n : nat) (url : string) : fetched :=
  if n =? 0 then Got (Response 200 body) else HTTPError.

(** The first request is answered 200 with [body]; all later ones 404. *)
Definition homepage_then_404 (body : string) (n : nat) (url : string) : fetched :=
  if n =? 0 then Got (Response 200 body) else Got (Response 404 "Not Found").

Definition hpr : row := Row "Health Psychology Review" (Some "https://hpr.example").

Section Tier1Facts.
Variable parse : string -> list node.
Variable urljoin : string -> string -> string.
Variable origin : string -> string.
Variable get : nat -> string -> fetched.

Abbreviation try_paths := (try_paths parse get).
Abbreviation paths_then_fallback := (paths_then_fallback parse origin get).
Abbreviation find_guidelines_link := (find_guidelines_link parse urljoin).
Abbreviation scrape_journal_http := (scrape_journal_http parse urljoin origin get).
Abbreviation scrape_row := (scrape_row parse urljoin origin get).
Abbreviation scrape_rows := (scrape_rows parse urljoin origin get).
Abbreviation scrape_journals := (scrape_journals parse urljoin origin get).

Lemma length_snoc (log : list string) (u : string) :
  List.length (log ++ [u]) = S (List.length log).
Proof. rewrite List.length_app. simpl. lia. Qed.

Lemma try_paths_all_miss (base : string) (paths : list string) (resp : response)
    (log : list string) :
  (forall i path, paths !! i = Some path ->
     probe_miss (get (List.length log + i) (base +:+ path)) = true) ->
  exists resp',
    try_paths base paths resp log
    = (None, resp', log ++ List.map (fun path => base +:+ path) paths).
Proof.
  revert resp log. induction paths as [|path rest IH]; intros resp log Hmiss.
  - exists resp. simpl. now rewrite List.app_nil_r.
  - pose proof (Hmiss 0 path eq_refl) as H0. rewrite Nat.add_0_r in H0.
    assert (Hrest : forall resp1, exists resp',
              try_paths base rest resp1 (log ++ [base +:+ path])
              = (None, resp', log ++ List.map (fun p => base +:+ p) (path :: rest))).
    { intros resp1. destruct (IH resp1 (log ++ [base +:+ path])) as [resp' E].
      - intros i p Hp. rewrite length_snoc.
        replace (S (List.length log) + i) with (List.length log + S i) by lia.
        apply Hmiss. exact Hp.
      - exists resp'. rewrite E. simpl. now rewrite <- List.app_assoc. }
    simpl. destruct (get (List.length log) (base +:+ path)) as [resp1|]; simpl in H0.
    + apply negb_true_iff in H0. rewrite H0. apply Hrest.
    + apply Hrest.
Qed.

Lemma try_paths_all_errors (base : string) (paths : list string) (resp : response)
    (log : list string) :
  (forall i path, paths !! i = Some path ->
     get (List.length log + i) (base +:+ path) = HTTPError) ->
  try_paths base paths resp log
  = (None, resp, log ++ List.map (fun path => base +:+ path) paths).
Proof.
  revert log. induction paths as [|path rest IH]; intros log Herr.
  - simpl. now rewrite List.app_nil_r.
  - pose proof (Herr 0 path eq_refl) as H0. rewrite Nat.add_0_r in H0.
    simpl. rewrite H0, IH.
    + simpl. now rewrite <- List.app_assoc.
    + intros i p Hp. rewrite length_snoc.
      replace (S (List.length log) + i) with (List.length log + S i) by lia.
      apply Herr. exact Hp.
Qed.

Lemma fallback_after_misses (homepage_url : string) (resp : response) (log : list string) :
  (forall i path, GUIDELINES_PATHS !! i = Some path ->
     probe_miss (get (List.length log + i) (origin homepage_url +:+ path)) = true) ->
  exists html,
    paths_then_fallback homepage_url resp log
    = (Some (html, extract_text parse html, homepage_url),
       log ++ List.map (fun path => origin homepage_url +:+ path) GUIDELINES_PATHS).
Proof.
  intros Hmiss. unfold Tier1.paths_then_fallback.
  destruct (try_paths_all_miss (origin homepage_url) GUIDELINES_PATHS resp log Hmiss)
    as [resp' E].
  rewrite E. now exists (text resp').
Qed.

Lemma fallback_after_errors (homepage_url : string) (resp : response) (log : list string) :
  (forall i path, GUIDELINES_PATHS !! i = Some path ->
     get (List.length log + i) (origin homepage_url +:+ path) = HTTPError) ->
  paths_then_fallback homepage_url resp log
  = (Some (text resp, extract_text parse (text resp), homepage_url),
     log ++ List.map (fun path => origin homepage_url +:+ path) GUIDELINES_PATHS).
Proof.
  intros Herr. unfold Tier1.paths_then_fallback.
  now rewrite (try_paths_all_errors _ _ _ _ Herr).
Qed.

(** Any homepage status other than 200 ends the call at once. *)
Lemma homepage_not_200 (log : list string) (homepage_url journal_name : string)
    (resp : response) :
  get (List.length log) homepage_url = Got resp ->
  status_code resp <> 200 ->
  scrape_journal_http log homepage_url journal_name = (None, log ++ [homepage_url]).
Proof.
  intros Hget Hstatus. unfold Tier1.scrape_journal_http. rewrite Hget.
  destruct (status_code resp =? 403); [reflexivity|].
  apply Nat.eqb_neq in Hstatus. now rewrite Hstatus.
Qed.

(** C5 (as the code has it): a homepage answer with status 403, and equally
  with any other status than 200, makes [scrape_journal_http] return [None]
  at once, the homepage request being the only one made; the record of that
  journal ends as needs_browser with the error text set and no
  guidelines_url, and no file is written. *)
Theorem homepage_status_ends_tier (log : list string) (r : row) (homepage_url : string)
  (resp : response) (fs : files)
  (Hurl : row_homepage_url r = Some homepage_url)
  (Hnonempty : truthy homepage_url = true)
  (Hget : get (List.length log) homepage_url = Got resp)
  (Hstatus : status_code resp = 403 \/ status_code resp <> 200) :
scrape_journal_http log homepage_url (title r) = (None, log ++ [homepage_url])
/\ (let '(result, fs', log') := scrape_row r fs log in
    status result = "needs_browser"
    /\ error result = Some "HTTP scraping failed, needs browser automation"
    /\ guidelines_url result = None
    /\ method result = None
    /\ fs' = fs
    /\ log' = log ++ [homepage_url]).
Proof.
assert (Hne : status_code resp <> 200) by (destruct Hstatus as [->|]; [discriminate|assumption]).
pose proof (homepage_not_200 log homepage_url (title r) resp Hget Hne) as E.
split; [exact E|].
unfold Tier1.scrape_row. rewrite Hurl. simpl. rewrite Hnonempty. simpl.
rewrite E. repeat split.
Qed.

(** C4 (as the code has it): when the homepage answered 200, the candidate
  link step gave nothing (no link, or a link answered by a status other
  than 200) and every path probe missed, [scrape_journal_http] returns a
  result whose guidelines_url is the homepage URL and whose text is the
  extract of the returned markup; that markup is the homepage body when no
  later request was answered at all. *)
Theorem fallback_to_homepage_url (log : list string) (homepage_url journal_name : string)
  (resp0 resp1 : response) (log1 : list string)
  (Hget : get (List.length log) homepage_url = Got resp0)
  (Hok : status_code resp0 = 200)
  (Hlink :
     (resp1 = resp0 /\ log1 = log ++ [homepage_url]
      /\ (find_guidelines_link (text resp0) homepage_url = None
          \/ find_guidelines_link (text resp0) homepage_url = Some ""))
     \/ (exists link,
           find_guidelines_link (text resp0) homepage_url = Some link
           /\ truthy link = true
           /\ get (S (List.length log)) link = Got resp1
           /\ status_code resp1 <> 200
           /\ log1 = log ++ [homepage_url; link]))
  (Hprobes : forall i path, GUIDELINES_PATHS !! i = Some path ->
     probe_miss (get (List.length log1 + i) (origin homepage_url +:+ path)) = true) :
exists html,
  scrape_journal_http log homepage_url journal_name
  = (Some (html, extract_text parse html, homepage_url),
     log1 ++ List.map (fun path => origin homepage_url +:+ path) GUIDELINES_PATHS)
  /\ (resp1 = resp0 ->
      (forall i path, GUIDELINES_PATHS !! i = Some path ->
         get (List.length log1 + i) (origin homepage_url +:+ path) = HTTPError) ->
      html = text resp0).
Proof.
unfold Tier1.scrape_journal_http. rewrite Hget, Hok. simpl.
destruct Hlink as [(-> & -> & Hnone) | (link & Hsome & Htruthy & Hget1 & Hne & ->)].
- assert (E : match find_guidelines_link (text resp0) homepage_url with
              | Some guidelines_url =>
                  if truthy guidelines_url then
                    match get (List.length (log ++ [homepage_url])) guidelines_url with
                    | HTTPError => (None, (log ++ [homepage_url]) ++ [guidelines_url])
                    | Got resp =>
                        if status_code resp =? 200
                        then (Some (text resp, extract_text parse (text resp), guidelines_url),
                              (log ++ [homepage_url]) ++ [guidelines_url])
                        else paths_then_fallback homepage_url resp
                               ((log ++ [homepage_url]) ++ [guidelines_url])
                    end
                  else paths_then_fallback homepage_url resp0 (log ++ [homepage_url])
              | None => paths_then_fallback homepage_url resp0 (log ++ [homepage_url])
              end = paths_then_fallback homepage_url resp0 (log ++ [homepage_url])).
  { destruct Hnone as [-> | ->]; reflexivity. }
  rewrite E. clear E.
  destruct (fallback_after_misses homepage_url resp0 _ Hprobes) as [html Ehtml].
  exists html. split; [exact Ehtml|].
  intros _ Herr. rewrite (fallback_after_errors homepage_url resp0 _ Herr) in Ehtml.
  now inversion Ehtml.
- rewrite Hsome, Htruthy, length_snoc, Hget1.
  apply Nat.eqb_neq in Hne. rewrite Hne.
  replace ((log ++ [homepage_url]) ++ [link]) with (log ++ [homepage_url; link])
    by (now rewrite <- List.app_assoc).
  destruct (fallback_after_misses homepage_url resp1 _ Hprobes) as [html Ehtml].
  exists html. split; [exact Ehtml|].
  intros -> Herr. rewrite (fallback_after_errors homepage_url resp0 _ Herr) in Ehtml.
  now inversion Ehtml.
Qed.

Lemma scrape_row_record (r : row) (fs : files) (log : list string) :
let result := fst (fst (scrape_row r fs log)) in
tier1_record result /\ journal_name result = title r
/\ slug result = Slug.slugify (title r).
Proof.
unfold Tier1.scrape_row, tier1_record.
destruct (no_homepage (row_homepage_url r)); simpl.
- repeat split; auto; discriminate.
- destruct (scrape_journal_http log (default "" (row_homepage_url r)) (title r))
    as [[[[html text] gurl]|] log']; simpl; repeat split; auto; discriminate.
Qed.

Lemma scrape_rows_records (rows : list row) (fs : files) (log : list string) :
let results := fst (fst (scrape_rows rows fs log)) in
List.length results = List.length rows
/\ List.map journal_name results = List.map title rows
/\ List.map slug results = List.map (fun r => Slug.slugify (title r)) rows
/\ Forall tier1_record results.
Proof.
revert fs log. induction rows as [|r rest IH]; intros fs log; simpl.
- repeat split. constructor.
- pose proof (scrape_row_record r fs log) as Hrow.
  destruct (scrape_row r fs log) as [[result fs1] log1].
  specialize (IH fs1 log1).
  destruct (scrape_rows rest fs1 log1) as [[results fs2] log2].
  simpl in *. destruct Hrow as (Hrec & Hname & Hslug), IH as (Hlen & Hnames & Hslugs & Hall).
  repeat split; try congruence; try (apply Hrec).
  constructor; assumption.
Qed.


End Tier1Facts.

(** *** Tier 1 in the concrete worlds *)

Lemma homepage_status_ends_tier_witness :
  always 403 "Forbidden" 0 "https://hpr.example" = Got (Response 403 "Forbidden")
  /\ scrape_journal_http text_parser same_url id_origin (always 403 "Forbidden")
       [] "https://hpr.example" "Health Psychology Review"
     = (None, ["https://hpr.example"]).
Proof.
  split; [reflexivity|].
  exact (proj1 (homepage_status_ends_tier text_parser same_url id_origin
                  (always 403 "Forbidden") [] hpr "https://hpr.example"
                  (Response 403 "Forbidden") (Files ∅ ∅)
                  eq_refl eq_refl eq_refl (or_introl eq_refl))).
Defined.

(** C5 (as the specification states it) fails on a homepage answered 500:
    there is no fall-through to the homepage-content fallback, the call
    returns [None] and the record ends as needs_browser. *)
Lemma homepage_500_is_not_soft :
  scrape_journal_http text_parser same_url id_origin (always 500 "Server Error")
    [] "https://hpr.example" "Health Psychology Review"
  = (None, ["https://hpr.example"])
  /\ status (fst (fst (scrape_row text_parser same_url id_origin (always 500 "Server Error")
                        hpr (Files ∅ ∅) [])))
     = "needs_browser".
Proof. split; reflexivity. Qed.

Lemma fallback_to_homepage_url_witness :
  only_homepage "Aims and scope" 0 "https://hpr.example"
  = Got (Response 200 "Aims and scope")
  /\ find_guidelines_link text_parser same_url "Aims and scope" "https://hpr.example" = None
  /\ exists html,
       fst (scrape_journal_http text_parser same_url id_origin
              (only_homepage "Aims and scope")
              [] "https://hpr.example" "Health Psychology Review")
       = Some (html, extract_text text_parser html, "https://hpr.example")
       /\ html = "Aims and scope".
Proof.
  split; [reflexivity|]. split; [reflexivity|].
  destruct (fallback_to_homepage_url text_parser same_url id_origin
              (only_homepage "Aims and scope") [] "https://hpr.example"
              "Health Psychology Review" (Response 200 "Aims and scope")
              (Response 200 "Aims and scope") ["https://hpr.example"]
              eq_refl eq_refl
              (or_introl (conj eq_refl (conj eq_refl (or_introl eq_refl))))
              (fun i path _ => eq_refl))
    as [html [E Hhome]].
  exists html. split.
  - rewrite E. reflexivity.
  - apply Hhome; [reflexivity | intros i path _; reflexivity].
Defined.

(** C4 (as the specification states it) fails twice.  A homepage answered 500
    is not blocked, yet the call returns [None].  And after a homepage
    answered 200 whose probes were all answered 404, the text returned is that
    of the last probe: [resp] was reassigned by every probe. *)
Lemma fallback_not_homepage_content :
  fst (scrape_journal_http text_parser same_url id_origin (always 500 "Server Error")
         [] "https://hpr.example" "Health Psychology Review")
  = None
  /\ fst (scrape_journal_http text_parser same_url id_origin
            (homepage_then_404 "Aims and scope")
            [] "https://hpr.example" "Health Psychology Review")
     = Some ("Not Found", "Not Found", "https://hpr.example").
Proof. split; reflexivity. Qed.

End Tier1.

(** ** Later stages: re-scrapes that merge into the ledger, and the augmenter *)

Module Stages.
Import PyStr Extract Ledger.

(** [for x in xs:] with the number of the iteration, over a state. *)
Fixpoint for_each {A St : Type} (step : nat -> A -> St -> St) (k : nat) (xs : list A)
    (st : St) : St :=
  match xs with
  | [] => st
  | x :: rest => for_each step (S k) rest (step k x st)
  end.

(** One journal of a hand-written re-scrape table. *)
Record journal : Type := Journal { name : string; jslug : string; url : string }.

(** *** [03b_browser_scrape.py] *)

Definition JOURNALS_NEEDING_BROWSER : list journal :=
  [Journal "Qualitative Research in Psychology" "qualitative-research-in-psychology"
     "https://www.tandfonline.com/action/authorSubmission?journalCode=uqrp20&page=instructions";
   Journal "Educational Psychologist" "educational-psychologist"
     "https://www.tandfonline.com/action/authorSubmission?journalCode=hedp20&page=instructions";
   Journal "Personality and Social Psychology Review" "personality-and-social-psychology-review"
     "https://journals.sagepub.com/author-instructions/PSR";
   Journal "Personnel Psychology" "personnel-psychology"
     "https://onlinelibrary.wiley.com/page/journal/17446570/homepage/forauthors.html";
   Journal "Psychotherapy and Psychosomatics" "psychotherapy-and-psychosomatics"
     "https://karger.com/pps/pages/guidelines-for-authors";
   Journal "Health Psychology Review" "health-psychology-review"
     "https://www.tandfonline.com/action/authorSubmission?journalCode=rhpr20&page=instructions";
   Journal "Journal of Consumer Psychology" "journal-of-consumer-psychology"
     "https://onlinelibrary.wiley.com/page/journal/15327663/homepage/forauthors.html";
   Journal "Psychological Bulletin" "psychological-bulletin"
     "https://www.apa.org/pubs/journals/bul/?tab=4";
   Journal "Journal of Applied Psychology" "journal-of-applied-psychology"
     "https://www.apa.org/pubs/journals/apl/?tab=4";
   Journal "Psychological Methods" "psychological-methods"
     "https://www.apa.org/pubs/journals/met/?tab=4"].

(** The "Update log entry" block of [03b]. *)
Definition record_browser (text guidelines_url : string) (e : entry) : entry :=
  let e := set_status "success" e in
  let e := set_method (Some "browser") e in
  let e := set_text_length (String.length text) e in
  let e := set_guidelines_url (Some guidelines_url) e in
  set_error None e.

Section Browser.
(** The browser agent: [result.final_result()] of the [k]-th session, [None]
    when the run raised or produced no result object. *)
Variable agent_run : nat -> string -> string -> option string.

Definition scrape_with_browser (k : nat) (url journal_name : string)
    : option (string * string) :=
  match agent_run k url journal_name with
  | Some final_result => if truthy final_result then Some (final_result, url) else None
  | None => None
  end.

(** The body of the loop of [main]. *)
Definition browser_step (k : nat) (j : journal) (st : files * list (string * entry))
    : files * list (string * entry) :=
  match scrape_with_browser k (url j) (name j) with
  | Some (text, guidelines_url) =>
      (write_text (jslug j) text (fst st),
       dict_alter (record_browser text guidelines_url) (jslug j) (snd st))
  | None => st
  end.

(** [main] of [03b], for the list of journals to visit. *)
Definition browser_stage (journals : list journal) (fs : files) (scrape_log : list entry)
    : files * list entry :=
  let st := for_each browser_step 0 journals (fs, log_by_slug scrape_log) in
  (fst st, values (snd st)).

Definition browser_main : files -> list entry -> files * list entry :=
  browser_stage JOURNALS_NEEDING_BROWSER.
End Browser.

(** *** [03c_direct_scrape.py] *)

Definition DIRECT_URLS : list (string * string) :=
  [("psychological-bulletin", "https://www.apa.org/pubs/journals/bul/?tab=4");
   ("journal-of-applied-psychology", "https://www.apa.org/pubs/journals/apl/?tab=4");
   ("psychological-methods", "https://www.apa.org/pubs/journals/met/?tab=4");
   ("advances-in-methods-and-practices-in-psychological",
    "https://journals.sagepub.com/author-instructions/AMP");
   ("psychological-science-in-the-public-interest",
    "https://journals.sagepub.com/author-instructions/PSI");
   ("perspectives-on-psychological-science",
    "https://journals.sagepub.com/author-instructions/PPS");
   ("personality-and-social-psychology-review",
    "https://journals.sagepub.com/author-instructions/PSR");
   ("clinical-psychology-review",
    "https://www.elsevier.com/journals/clinical-psychology-review/0272-7358/guide-for-authors");
   ("leadership-quarterly",
    "https://www.elsevier.com/journals/the-leadership-quarterly/1048-9843/guide-for-authors");
   ("qualitative-research-in-psychology",
    "https://www.tandfonline.com/action/authorSubmission?show=instructions&journalCode=uqrp20");
   ("educational-psychologist",
    "https://www.tandfonline.com/action/authorSubmission?show=instructions&journalCode=hedp20");
   ("health-psychology-review",
    "https://www.tandfonline.com/action/authorSubmission?show=instructions&journalCode=rhpr20");
   ("personnel-psychology",
    "https://onlinelibrary.wiley.com/page/journal/17446570/homepage/forauthors.html");
   ("journal-of-consumer-psychology",
    "https://myscp.onlinelibrary.wiley.com/hub/journal/15327663/author-guidelines");
   ("psychotherapy-and-psychosomatics", "https://karger.com/pps/pages/guidelines-for-authors")].

Definition direct_url (slug : string) : option string :=
  match List.find (fun kv => String.eqb slug (fst kv)) DIRECT_URLS with
  | Some kv => Some (snd kv)
  | None => None
  end.

Definition SAGE_GENERIC : list string :=
  ["advances-in-methods-and-practices-in-psychological";
   "psychological-science-in-the-public-interest";
   "perspectives-on-psychological-science"].

Definition ELSEVIER : list string := ["clinical-psychology-review"; "leadership-quarterly"].

Definition member (x : string) (l : list string) : bool := existsb (String.eqb x) l.

(** [slug in DIRECT_URLS] *)
Definition in_direct_urls (slug : string) : bool := member slug (List.map fst DIRECT_URLS).

(** The [needs_scrape] flag computed for one record. *)
Definition needs_scrape (fs : files) (slug : string) : bool :=
  let by_file :=
    match text_dir fs !! slug with
    | None => true
    | Some content =>
        (String.length content <? 500) || contains "Failed to access" content
        || contains "could not be completed" content
    end in
  by_file
  || (member slug SAGE_GENERIC && in_direct_urls slug)
  || (member slug ELSEVIER && in_direct_urls slug).

(** The list [to_scrape], built before any page is loaded. *)
Fixpoint to_scrape (fs : files) (scrape_log : list entry) : list journal :=
  match scrape_log with
  | [] => []
  | e :: rest =>
      match direct_url (slug e) with
      | Some url =>
          if needs_scrape fs (slug e)
          then Journal (journal_name e) (slug e) url :: to_scrape fs rest
          else to_scrape fs rest
      | None => to_scrape fs rest
      end
  end.

(** The "Update log" block of [03c_direct_scrape.py]. *)
Definition record_playwright (text url : string) (e : entry) : entry :=
  let e := set_status "success" e in
  let e := set_method (Some "playwright") e in
  let e := set_text_length (String.length text) e in
  set_guidelines_url (Some url) e.

(** [text and len(text) > 500] *)
Definition substantial (text : option string) : option string :=
  match text with
  | Some t => if truthy t && (500 <? String.length t) then Some t else None
  | None => None
  end.

Section Direct.
Variable parse : string -> list node.
(** The page of the [k]-th Playwright session: [None] when loading raised,
    else [page.content()] after the first wait and after the extra wait. *)
Variable page_content : nat -> string -> option (string * string).

Definition scrape_with_playwright (k : nat) (url slug : string) : option string :=
  match page_content k url with
  | None => None
  | Some (content, content_later) =>
      if contains "cf-chl-widget" content || contains "Just a moment" content
      then (if contains "cf-chl-widget" content_later then None
            else Some (extract_text_direct parse content_later))
      else Some (extract_text_direct parse content)
  end.

(** The body of the second loop of [main]. *)
Definition direct_step (k : nat) (j : journal) (st : files * list (string * entry))
    : files * list (string * entry) :=
  match substantial (scrape_with_playwright k (url j) (jslug j)) with
  | Some text =>
      (write_text (jslug j) text (fst st),
       dict_alter (record_playwright text (url j)) (jslug j) (snd st))
  | None => st
  end.

(** [main] of [03c_direct_scrape.py]. *)
Definition direct_main (fs : files) (scrape_log : list entry) : files * list entry :=
  let st := for_each direct_step 0 (to_scrape fs scrape_log) (fs, log_by_slug scrape_log) in
  (fst st, values (snd st)).
End Direct.

(** *** [03c_follow_guideline_links.py] *)

(** The dict [process_journal] returns. *)
Record result : Type := Result {
  r_slug : string;
  r_status : string;
  links_found : list string;
  links_fetched : option nat;
  new_text_length : nat
}.

Definition nl : string := String newline EmptyString.

(** [f"\n\n--- Additional Guidelines from {link} ---\n\n{text}"] *)
Definition additional (link text : string) : string :=
  nl +:+ nl +:+ "--- Additional Guidelines from " +:+ link +:+ " ---" +:+ nl +:+ nl +:+ text.

Section Follow.
Variable parse : string -> list node.
(** [extract_guideline_links]: the URLs the four patterns of
    [GUIDELINE_LINK_PATTERNS] find in a text, in order, without repeats. *)
Variable extract_guideline_links : string -> option string -> list string.
(** [urlparse(url).path] *)
Variable url_path : string -> string.
(** The network: the outcome of the [n]-th request of the run. *)
Variable get : nat -> string -> Tier1.fetched.

Definition fetch_url (k : nat) (url : string) : option string :=
  match get k url with
  | Tier1.Got resp =>
      if Tier1.status_code resp =? 200
      then Some (extract_text parse (Tier1.text resp))
      else None
  | Tier1.HTTPError => None
  end.

(** The loop over [links[:3]], building [new_texts]. *)
Fixpoint fetch_links (k : nat) (links : list string) : list string * nat :=
  match links with
  | [] => ([], k)
  | link :: rest =>
      let new :=
        match fetch_url k link with
        | Some text =>
            if truthy text && (500 <? String.length text) then [additional link text] else []
        | None => []
        end in
      let '(more, k') := fetch_links (S k) rest in
      (new ++ more, k')
  end.

Definition truthy_url (u : option string) : bool :=
  match u with
  | Some u => truthy u
  | None => false
  end.

Definition process_journal (slug : string) (guidelines_url : option string)
    (fs : files) (k : nat) : result * files * nat :=
  match text_dir fs !! slug with
  | None => (Result slug "no_file" [] None 0, fs, k)
  | Some original_text =>
      let links := extract_guideline_links original_text guidelines_url in
      let links :=
        if truthy_url guidelines_url
        then List.filter
               (fun l => negb (String.eqb (url_path l) (url_path (default "" guidelines_url))))
               links
        else links in
      match links with
      | [] => (Result slug "no_new_links" [] None (String.length original_text), fs, k)
      | _ =>
          let '(new_texts, k') := fetch_links k (List.firstn 3 links) in
          match new_texts with
          | [] => (Result slug "links_failed" links None (String.length original_text), fs, k')
          | _ =>
              let combined_text := original_text +:+ join nl new_texts in
              (Result slug "updated" links (Some (List.length new_texts))
                      (String.length combined_text),
               write_text slug combined_text fs, k')
          end
      end
  end.

(** The first loop of [main]: the results for the success records. *)
Fixpoint process_all (scrape_log : list entry) (fs : files) (k : nat)
    : list result * files * nat :=
  match scrape_log with
  | [] => ([], fs, k)
  | e :: rest =>
      if negb (is_success e) then process_all rest fs k
      else
        let '(r, fs, k) := process_journal (slug e) (guidelines_url e) fs k in
        let '(results, fs, k) := process_all rest fs k in
        (r :: results, fs, k)
  end.

(** [{r["slug"]: r for r in results}] looked up at a slug: the last result
    for it. *)
Definition slug_to_result (results : list result) (slug : string) : option result :=
  List.find (fun r => String.eqb slug (r_slug r)) (List.rev results).

(** The body of the second loop of [main]. *)
Definition update_entry (results : list result) (e : entry) : entry :=
  match slug_to_result results (slug e) with
  | Some r =>
      if String.eqb (r_status r) "updated"
      then set_additional_links_fetched (links_fetched r)
             (set_text_length (new_text_length r) e)
      else e
  | None => e
  end.

(** [main] of the link-follow stage. *)
Definition follow_main (fs : files) (scrape_log : list entry) : files * list entry :=
  let '(results, fs', _) := process_all scrape_log fs 0 in
  (fs', List.map (update_entry results) scrape_log).
End Follow.

(** *** [03d_fix_elsevier.py] *)

Definition JOURNAL_FIXES : list journal :=
  [Journal "Clinical Psychology Review" "clinical-psychology-review"
     "https://www.elsevier.com/journals/clinical-psychology-review/0272-7358/guide-for-authors";
   Journal "Leadership Quarterly" "leadership-quarterly"
     "https://www.elsevier.com/journals/the-leadership-quarterly/1048-9843/guide-for-authors";
   Journal "Journal of Consumer Psychology" "journal-of-consumer-psychology"
     "https://myscp.onlinelibrary.wiley.com/hub/journal/15327663/forauthors.html"].

(** The "Update log" block of [03d]: the status is not touched. *)
Definition record_fixed (text url : string) (e : entry) : entry :=
  let e := set_guidelines_url (Some url) e in
  let e := set_text_length (String.length text) e in
  set_method (Some "http-fixed") e.

Section FixElsevier.
Variable parse : string -> list node.
Variable get : nat -> string -> Tier1.fetched.

Definition fetch_elsevier_guidelines (k : nat) (url : string) : option string :=
  match get k url with
  | Tier1.Got resp =>
      if Tier1.status_code resp =? 200
      then Some (extract_text parse (Tier1.text resp))
      else None
  | Tier1.HTTPError => None
  end.

Definition elsevier_step (k : nat) (fix_ : journal) (st : files * list (string * entry))
    : files * list (string * entry) :=
  match substantial (fetch_elsevier_guidelines k (url fix_)) with
  | Some text =>
      (write_text (jslug fix_) text (fst st),
       dict_alter (record_fixed text (url fix_)) (jslug fix_) (snd st))
  | None => st
  end.

(** [main] of [03d_fix_elsevier.py]. *)
Definition fix_elsevier_main (fs : files) (scrape_log : list entry) : files * list entry :=
  let st := for_each elsevier_step 0 JOURNAL_FIXES (fs, log_by_slug scrape_log) in
  (fst st, values (snd st)).
End FixElsevier.

(** *** [03e_fix_karger.py] and [03f_fix_remaining.py] *)

Definition KARGER : journal :=
  Journal "Psychotherapy and Psychosomatics" "psychotherapy-and-psychosomatics"
    "https://karger.com/pps/pages/Author-Guidelines".

Definition JOURNALS_TO_FIX : list journal :=
  [Journal "Journal of Consumer Psychology" "journal-of-consumer-psychology"
     "https://myscp.onlinelibrary.wiley.com/hub/journal/15327663/forauthors.html"].

(** The "Update log" block of both scripts: the status is not touched. *)
Definition record_browser_use (text url : string) (e : entry) : entry :=
  let e := set_guidelines_url (Some url) e in
  let e := set_text_length (String.length text) e in
  let e := set_method (Some "browser-use") e in
  set_error None e.

(** [for entry in scrape_log: if entry["slug"] == slug: ...; break] *)
Fixpoint update_first (f : entry -> entry) (slug : string) (scrape_log : list entry)
  : list entry :=
  match scrape_log with
  | [] => []
  | e :: rest =>
      if String.eqb (Ledger.slug e) slug then f e :: rest else e :: update_first f slug rest
  end.

(** [len(text) > 500 and "failed" not in text.lower()[:100]] *)
Definition meaningful (text : string) : bool :=
  (500 <? String.length text) && negb (contains "failed" (take 100 (lower text))).

Section Fixes.
Variable agent_run : nat -> string -> string -> option string.

(** [main] of [03e_fix_karger.py]: the ledger is read and written only when
    the agent returned a text. *)
Definition fix_karger_main (fs : files) (scrape_log : list entry) : files * list entry :=
  match agent_run 0 (url KARGER) (name KARGER) with
  | Some text =>
      if truthy text
      then (write_text (jslug KARGER) text fs,
            update_first (record_browser_use text (url KARGER)) (jslug KARGER) scrape_log)
      else (fs, scrape_log)
  | None => (fs, scrape_log)
  end.

(** [scrape_journal] of [03f_fix_remaining.py], on the files and the ledger. *)
Definition scrape_journal (k : nat) (j : journal) (st : files * list entry)
    : bool * (files * list entry) :=
  match agent_run k (url j) (name j) with
  | Some text =>
      if truthy text && meaningful text
      then (true,
            (write_text (jslug j) text (fst st),
             update_first (record_browser_use text (url j)) (jslug j) (snd st)))
      else (false, st)
  | None => (false, st)
  end.

(** [main] of [03f_fix_remaining.py]. *)
Definition fix_remaining_main (fs : files) (scrape_log : list entry) : files * list entry :=
  for_each (fun k j st => snd (scrape_journal k j st)) 0 JOURNALS_TO_FIX (fs, scrape_log).
End Fixes.

(** *** The stages that run on an existing ledger *)

Inductive stage : Type :=
  | Browser
  | Direct
  | FollowLinks
  | FixElsevier
  | FixKarger
  | FixRemaining.

#[local] Instance stage_eq_dec : EqDecision stage.
Proof. solve_decision. Defined.

Section AllStages.
Variable parse : string -> list node.
Variable agent_run : nat -> string -> string -> option string.
Variable page_content : nat -> string -> option (string * string).
Variable extract_guideline_links : string -> option string -> list string.
Variable url_path : string -> string.
Variable get : nat -> string -> Tier1.fetched.

Definition run_stage (s : stage) (fs : files) (scrape_log : list entry) : files * list entry :=
  match s with
  | Browser => browser_main agent_run fs scrape_log
  | Direct => direct_main parse page_content fs scrape_log
  | FollowLinks => follow_main parse extract_guideline_links url_path get fs scrape_log
  | FixElsevier => fix_elsevier_main parse get fs scrape_log
  | FixKarger => fix_karger_main agent_run fs scrape_log
  | FixRemaining => fix_remaining_main agent_run fs scrape_log
  end.
End AllStages.

(** The slugs a stage visits. *)
Definition visited (s : stage) (fs : files) (scrape_log : list entry) : list string :=
  match s with
  | Browser => jslug <$> JOURNALS_NEEDING_BROWSER
  | Direct => jslug <$> to_scrape fs scrape_log
  | FollowLinks => slug <$> List.filter is_success scrape_log
  | FixElsevier => jslug <$> JOURNAL_FIXES
  | FixKarger => [jslug KARGER]
  | FixRemaining => jslug <$> JOURNALS_TO_FIX
  end.

(** The length a text must exceed to be stored by a re-scrape stage. *)
Definition gate (s : stage) : nat :=
  match s with
  | Browser | FixKarger => 0
  | _ => 500
  end.

(** *** Notions used in the statements *)

(** [e'] is what a stage visiting the slugs [targets] made of [e]: the slug
    stays, success stays success, a record outside [targets] is the same
    record, and a changed record holds a length above [gate]. *)
Definition entry_kept (targets : list string) (gate : nat) (e e' : entry) : Prop :=
  slug e' = slug e
  /\ (status e = "success" -> status e' = "success")
  /\ (slug e ∉ targets -> e' = e)
  /\ (e' = e \/ gate < text_length e').

Definition binding_kept (targets : list string) (gate : nat) (kv kv' : string * entry) : Prop :=
  kv'.1 = kv.1 /\ (kv.1 = slug kv.2 -> entry_kept targets gate kv.2 kv'.2).

(** What an "Update log" block must do for [entry_kept] to go through. *)
Definition keeps_record (gate : nat) (f : entry -> entry) : Prop :=
  forall e, slug (f e) = slug e
            /\ (status e = "success" -> status (f e) = "success")
            /\ gate < text_length (f e).

(** A binding of the dict whose key is the slug of its record and whose
    record, if a success, matches its text file. *)
Definition binding_ok (fs : files) (kv : string * entry) : Prop :=
  kv.1 = slug kv.2
  /\ (status kv.2 = "success" ->
      exists t, text_dir fs !! kv.1 = Some t /\ text_length kv.2 = String.length t).

Definition state_ok (st : files * list (string * entry)) : Prop :=
  NoDup (snd st).*1 /\ Forall (binding_ok (fst st)) (snd st).

(** The slug tier 1 gives to a row. *)
Definition row_slug (r : Tier1.row) : string := Slug.slugify (Tier1.title r).

(** *** Concrete ledgers and worlds *)

(** A text of [n] characters. *)
Fixpoint filler (n : nat) : string :=
  match n with
  | 0 => EmptyString
  | S n' => String "x" (filler n')
  end.

(** A ledger of two records, the first a success with 900 characters stored,
    the second still waiting for a browser. *)
Definition cpr : entry :=
  Entry "Clinical Psychology Review" "clinical-psychology-review"
        (Some "https://cpr.example") (Some "https://cpr.example/guide") "success"
        (Some "http") 900 None None.

Definition bul : entry :=
  Entry "Psychological Bulletin" "psychological-bulletin"
        (Some "https://www.apa.org/pubs/journals/bul") None "needs_browser"
        None 0 (Some "HTTP scraping failed, needs browser automation") None.

Definition two_records : list entry := [cpr; bul].

Definition cpr_file : files :=
  Files ∅ {[ "clinical-psychology-review" := filler 900 ]}.

(** Every Playwright session shows a page of 600 characters. *)
Definition page_600 (k : nat) (url : string) : option (string * string) :=
  Some (filler 600, filler 600).

(** Every agent session ends with this short message. *)
Definition agent_gives_up (k : nat) (url name : string) : option string :=
  Some "Failed to access the page".

Definition no_links (text : string) (base : option string) : list string := [].

(** Two titles with one slug, each homepage answered by its own text. *)
Definition colliding_rows : list Tier1.row :=
  [Tier1.Row "Mind" (Some "https://a.example"); Tier1.Row "MIND" (Some "https://b.example")].

Definition two_homepages (n : nat) (url : string) : Tier1.fetched :=
  if String.eqb url "https://a.example" then Tier1.Got (Tier1.Response 200 "Alpha guidelines")
  else if String.eqb url "https://b.example" then Tier1.Got (Tier1.Response 200 "Beta")
  else Tier1.HTTPError.

Definition collided : list entry * files :=
  Tier1.scrape_journals Tier1.text_parser Tier1.same_url Tier1.id_origin two_homepages
    colliding_rows (Files ∅ ∅).

(** *** Facts about the slug-keyed dict *)

Lemma eqb_false_ne (a b : string) : a <> b -> String.eqb a b = false.
Proof. intros H. now apply String.eqb_neq. Qed.

Lemma dict_set_fresh (k : string) (v : entry) (d : list (string * entry)) :
  k ∉ d.*1 -> dict_set k v d = d ++ [(k, v)].
Proof.
  induction d as [|[k' v'] d IH]; simpl; [reflexivity|].
  intros Hk. apply not_elem_of_cons in Hk as [Hne Hk].
  rewrite (eqb_false_ne _ _ Hne). now rewrite IH.
Qed.

Lemma log_by_slug_from (acc : list (string * entry)) (scrape_log : list entry) :
  NoDup (acc.*1 ++ (slug <$> scrape_log)) ->
  List.fold_left (fun d r => dict_set (slug r) r d) scrape_log acc
  = acc ++ ((fun e => (slug e, e)) <$> scrape_log).
Proof.
  revert acc. induction scrape_log as [|e rest IH]; intros acc Hnd; simpl.
  - now rewrite app_nil_r.
  - assert (Hfresh : slug e ∉ acc.*1).
    { apply NoDup_app in Hnd as (_ & Hdisj & _). intros Hin.
      apply (Hdisj _ Hin). simpl. left. }
    rewrite (dict_set_fresh _ _ _ Hfresh), IH.
    + now rewrite <- app_assoc.
    + rewrite fmap_app. simpl. rewrite <- app_assoc. exact Hnd.
Qed.

(** With pairwise distinct slugs the dict holds the records of the ledger,
    one by one and in order. *)
Lemma log_by_slug_distinct (scrape_log : list entry) :
  NoDup (slug <$> scrape_log) ->
  log_by_slug scrape_log = (fun e => (slug e, e)) <$> scrape_log.
Proof. intros Hnd. unfold log_by_slug. now rewrite log_by_slug_from. Qed.

Lemma dict_alter_keys (f : entry -> entry) (k : string) (d : list (string * entry)) :
  (dict_alter f k d).*1 = d.*1.
Proof.
  induction d as [|[k' v] d IH]; simpl; [reflexivity|].
  destruct (String.eqb k k'); simpl; [reflexivity | f_equal; exact IH].
Qed.

(** What [dict_alter] does to each binding, position by position. *)
Lemma dict_alter_pointwise (f : entry -> entry) (k : string) (d : list (string * entry)) :
  Forall2 (fun kv kv' => kv'.1 = kv.1 /\ (kv'.2 = kv.2 \/ (kv.1 = k /\ kv'.2 = f kv.2)))
          d (dict_alter f k d).
Proof.
  induction d as [|[k' v] d IH]; simpl; [constructor|].
  destruct (String.eqb k k') eqn:E.
  - apply String.eqb_eq in E. subst k'. constructor.
    + simpl. split; [reflexivity | right; split; reflexivity].
    + apply Forall2_same_length_lookup_2; [reflexivity|].
      intros i x y Hx Hy. assert (x = y) as -> by congruence. split; [reflexivity | now left].
  - constructor; [simpl; split; [reflexivity | now left] | exact IH].
Qed.

Lemma Forall2_compose {A : Type} (R1 R2 R3 : A -> A -> Prop) (l1 l2 l3 : list A) :
  (forall x y z, R1 x y -> R2 y z -> R3 x z) ->
  Forall2 R1 l1 l2 -> Forall2 R2 l2 l3 -> Forall2 R3 l1 l3.
Proof.
  intros Hc H12. revert l3. induction H12 as [|x y l1 l2 Hxy _ IH]; intros l3 H23.
  - inversion H23. constructor.
  - inversion H23 as [|y' z l2' l3' Hyz Hrest]; subst. constructor; eauto.
Qed.

Lemma for_each_invariant {A St : Type} (Inv : St -> Prop) (step : nat -> A -> St -> St) :
  (forall k x st, Inv st -> Inv (step k x st)) ->
  forall xs k st, Inv st -> Inv (for_each step k xs st).
Proof.
  intros Hstep xs. induction xs as [|x xs IH]; intros k st Hst; simpl; [exact Hst|].
  apply IH, Hstep, Hst.
Qed.

Lemma for_each_invariant_in {A St : Type} (Inv : St -> Prop) (step : nat -> A -> St -> St)
    (xs : list A) :
  (forall k x st, x ∈ xs -> Inv st -> Inv (step k x st)) ->
  forall k st, Inv st -> Inv (for_each step k xs st).
Proof.
  induction xs as [|x xs IH]; intros Hstep k st Hst; simpl; [exact Hst|].
  apply IH.
  - intros k' x' st' Hin. apply Hstep. now right.
  - apply Hstep; [left | exact Hst].
Qed.

(** *** What a re-scrape stage may do to a record *)

Lemma entry_kept_refl (targets : list string) (gate : nat) (e : entry) :
  entry_kept targets gate e e.
Proof. repeat split; auto. Qed.

Lemma entry_kept_update (targets : list string) (gate : nat) (f : entry -> entry)
    (e0 e : entry) :
  slug e ∈ targets -> keeps_record gate f ->
  entry_kept targets gate e0 e -> entry_kept targets gate e0 (f e).
Proof.
  intros Hk Hf (Hs & Hst & Hout & Hch). destruct (Hf e) as (Hfs & Hfst & Hfl).
  split; [congruence|]. split; [auto|]. split.
  - intros Hnot. exfalso. apply Hnot. now rewrite <- Hs.
  - now right.
Qed.

Lemma binding_kept_refl (targets : list string) (gate : nat) (d : list (string * entry)) :
  Forall2 (binding_kept targets gate) d d.
Proof.
  apply Forall2_same_length_lookup_2; [reflexivity|].
  intros i x y Hx Hy. assert (x = y) as -> by congruence.
  split; [reflexivity|]. intros _. apply entry_kept_refl.
Qed.

Lemma binding_kept_alter (targets : list string) (gate : nat) (f : entry -> entry)
    (k : string) (d0 d : list (string * entry)) :
  k ∈ targets -> keeps_record gate f ->
  Forall2 (binding_kept targets gate) d0 d ->
  Forall2 (binding_kept targets gate) d0 (dict_alter f k d).
Proof.
  intros Hk Hf H0. eapply Forall2_compose; [| exact H0 | apply dict_alter_pointwise].
  intros x y z [Hkey Hxy] [Hkey' Hyz]. split; [congruence|].
  intros Hslug. specialize (Hxy Hslug).
  destruct Hyz as [Hsame | [Hyk Hfz]]; [now rewrite Hsame|].
  rewrite Hfz. apply entry_kept_update; [|exact Hf|exact Hxy].
  destruct Hxy as [Hs _]. rewrite Hs, <- Hslug, <- Hkey, Hyk. exact Hk.
Qed.

Lemma bindings_to_entries (targets : list string) (gate : nat) (scrape_log : list entry)
    (d : list (string * entry)) :
  Forall2 (binding_kept targets gate) ((fun e => (slug e, e)) <$> scrape_log) d ->
  Forall2 (entry_kept targets gate) scrape_log (values d).
Proof.
  intros H. unfold values. rewrite Forall2_fmap_r.
  rewrite Forall2_fmap_l in H. eapply Forall2_impl; [exact H|].
  intros e kv [_ Hk]. simpl in Hk. now apply Hk.
Qed.

Lemma truthy_length (t : string) : truthy t = true -> 0 < String.length t.
Proof. destruct t; simpl; [discriminate | lia]. Qed.

Lemma substantial_gate (text : option string) (t : string) :
  substantial text = Some t -> text = Some t /\ 500 < String.length t.
Proof.
  unfold substantial. destruct text as [t'|]; [|discriminate].
  destruct (truthy t' && (500 <? String.length t')) eqn:E; [|discriminate].
  intros [= ->]. apply andb_true_iff in E as [_ E]. apply Nat.ltb_lt in E. now split.
Qed.

Lemma keeps_record_browser (text url : string) :
  truthy text = true -> keeps_record 0 (record_browser text url).
Proof. intros Ht e. repeat split. simpl. now apply truthy_length. Qed.

Lemma keeps_record_playwright (text url : string) :
  500 < String.length text -> keeps_record 500 (record_playwright text url).
Proof. intros Hl e. repeat split. exact Hl. Qed.

Lemma keeps_record_fixed (text url : string) :
  500 < String.length text -> keeps_record 500 (record_fixed text url).
Proof. intros Hl e. repeat split; auto. Qed.

Lemma keeps_record_browser_use (gate : nat) (text url : string) :
  gate < String.length text -> keeps_record gate (record_browser_use text url).
Proof. intros Hl e. repeat split; auto. Qed.

(** [update_first] and [dict_alter] do the same to a ledger. *)
Lemma update_first_values (f : entry -> entry) (k : string) (scrape_log : list entry) :
  update_first f k scrape_log
  = values (dict_alter f k ((fun e => (slug e, e)) <$> scrape_log)).
Proof.
  unfold values. induction scrape_log as [|e rest IH]; simpl; [reflexivity|].
  rewrite (String.eqb_sym k (slug e)).
  destruct (String.eqb (slug e) k); simpl.
  - f_equal. clear IH. induction rest as [|x rest IH]; simpl; [reflexivity | now f_equal].
  - f_equal. exact IH.
Qed.

Lemma update_first_slugs (f : entry -> entry) (k : string) (scrape_log : list entry) :
  (forall e, slug (f e) = slug e) ->
  slug <$> update_first f k scrape_log = slug <$> scrape_log.
Proof.
  intros Hf. induction scrape_log as [|e rest IH]; simpl; [reflexivity|].
  destruct (String.eqb (slug e) k); simpl; f_equal; auto.
Qed.

Lemma update_first_pointwise (f : entry -> entry) (k : string) (scrape_log : list entry) :
  Forall2 (fun e e' => e' = e \/ (slug e = k /\ e' = f e))
          scrape_log (update_first f k scrape_log).
Proof.
  induction scrape_log as [|e rest IH]; simpl; [constructor|].
  destruct (String.eqb (slug e) k) eqn:E.
  - apply String.eqb_eq in E. constructor; [right; now split|].
    apply Forall2_same_length_lookup_2; [reflexivity|].
    intros i x y Hx Hy. left. congruence.
  - constructor; [now left | exact IH].
Qed.

Lemma entry_kept_update_first (targets : list string) (gate : nat) (f : entry -> entry)
    (k : string) (log0 scrape_log : list entry) :
  k ∈ targets -> keeps_record gate f ->
  Forall2 (entry_kept targets gate) log0 scrape_log ->
  Forall2 (entry_kept targets gate) log0 (update_first f k scrape_log).
Proof.
  intros Hk Hf H0. eapply Forall2_compose; [| exact H0 | apply update_first_pointwise].
  intros x y z Hxy [-> | [Hyk ->]]; [exact Hxy|].
  apply entry_kept_update; [now rewrite Hyk | exact Hf | exact Hxy].
Qed.

Lemma entry_kept_all_refl (targets : list string) (gate : nat) (scrape_log : list entry) :
  Forall2 (entry_kept targets gate) scrape_log scrape_log.
Proof.
  apply Forall2_same_length_lookup_2; [reflexivity|].
  intros i x y Hx Hy. assert (x = y) as -> by congruence. apply entry_kept_refl.
Qed.

(** *** Files and records kept in step *)

Lemma write_elsewhere_ok (fs : files) (k text : string) (d : list (string * entry)) :
  k ∉ d.*1 -> Forall (binding_ok fs) d -> Forall (binding_ok (write_text k text fs)) d.
Proof.
  induction d as [|[k' v] d IH]; intros Hk Hd; [constructor|].
  apply not_elem_of_cons in Hk as [Hne Hk].
  inversion Hd as [|? ? [Hslug Hfile] Hrest]; subst.
  constructor; [|now apply IH].
  split; [exact Hslug|]. intros Hs. destruct (Hfile Hs) as (t & Ht & Hl).
  exists t. split; [|exact Hl]. simpl in *. now rewrite lookup_insert_ne.
Qed.

Lemma alter_written_ok (fs : files) (k text : string) (f : entry -> entry)
    (d : list (string * entry)) :
  NoDup d.*1 ->
  (forall e, slug (f e) = slug e /\ text_length (f e) = String.length text) ->
  Forall (binding_ok fs) d ->
  Forall (binding_ok (write_text k text fs)) (dict_alter f k d).
Proof.
  intros Hnd Hf. induction d as [|[k' v] d IH]; intros Hd; [constructor|].
  simpl in Hnd. apply NoDup_cons in Hnd as [Hfresh Hnd].
  inversion Hd as [|? ? [Hslug Hfile] Hrest]; subst. simpl.
  destruct (String.eqb k k') eqn:E.
  - apply String.eqb_eq in E. subst k'. constructor.
    + destruct (Hf v) as [Hfs Hfl]. split; [simpl in *; congruence|].
      intros _. exists text. simpl. now rewrite lookup_insert_eq.
    + now apply write_elsewhere_ok.
  - apply String.eqb_neq in E. constructor; [|now apply IH].
    split; [exact Hslug|]. intros Hs. destruct (Hfile Hs) as (t & Ht & Hl).
    exists t. split; [|exact Hl]. simpl in *. now rewrite lookup_insert_ne.
Qed.

Lemma state_ok_write (k text : string) (f : entry -> entry)
    (st : files * list (string * entry)) :
  (forall e, slug (f e) = slug e /\ text_length (f e) = String.length text) ->
  state_ok st -> state_ok (write_text k text (fst st), dict_alter f k (snd st)).
Proof.
  intros Hf [Hnd Hok]. split; simpl.
  - now rewrite dict_alter_keys.
  - now apply alter_written_ok.
Qed.

Lemma state_ok_initial (fs : files) (scrape_log : list entry) :
  NoDup (slug <$> scrape_log) -> consistent fs scrape_log ->
  state_ok (fs, log_by_slug scrape_log).
Proof.
  intros Hnd Hc. rewrite (log_by_slug_distinct _ Hnd). split; simpl.
  - rewrite <- list_fmap_compose. exact Hnd.
  - apply Forall_fmap, Forall_forall. intros e He. split; [reflexivity|].
    intros Hs. apply (Hc e He Hs).
Qed.

Lemma state_ok_final (st : files * list (string * entry)) :
  state_ok st -> consistent (fst st) (values (snd st)).
Proof.
  intros [_ Hok] e He Hs. unfold values in He.
  apply list_elem_of_fmap in He as (kv & -> & Hkv).
  rewrite Forall_forall in Hok. destruct (Hok kv Hkv) as [Hslug Hfile].
  rewrite <- Hslug. now apply Hfile.
Qed.

Section RescrapeFacts.
Variable agent_run : nat -> string -> string -> option string.
Variable parse : string -> list node.
Variable page_content : nat -> string -> option (string * string).
Variable get : nat -> string -> Tier1.fetched.

Lemma browser_stage_pointwise (journals : list journal) (fs : files) (scrape_log : list entry) :
  NoDup (slug <$> scrape_log) ->
  Forall2 (entry_kept (jslug <$> journals) 0) scrape_log
          (snd (browser_stage agent_run journals fs scrape_log)).
Proof.
  intros Hnd. unfold browser_stage. simpl.
  apply bindings_to_entries. rewrite <- (log_by_slug_distinct _ Hnd).
  apply (for_each_invariant_in
           (fun st => Forall2 (binding_kept (jslug <$> journals) 0)
                              (log_by_slug scrape_log) (snd st))).
  - intros k j st Hj Hst. unfold browser_step, scrape_with_browser.
    destruct (agent_run k (url j) (name j)) as [t|]; [|exact Hst].
    destruct (truthy t) eqn:Ht; [|exact Hst]. simpl.
    apply binding_kept_alter;
      [now apply list_elem_of_fmap_2 | now apply keeps_record_browser | exact Hst].
  - apply binding_kept_refl.
Qed.

Lemma direct_main_pointwise (fs : files) (scrape_log : list entry) :
  NoDup (slug <$> scrape_log) ->
  Forall2 (entry_kept (jslug <$> to_scrape fs scrape_log) 500) scrape_log
          (snd (direct_main parse page_content fs scrape_log)).
Proof.
  intros Hnd. unfold direct_main. simpl.
  apply bindings_to_entries. rewrite <- (log_by_slug_distinct _ Hnd).
  apply (for_each_invariant_in
           (fun st => Forall2 (binding_kept (jslug <$> to_scrape fs scrape_log) 500)
                              (log_by_slug scrape_log) (snd st))).
  - intros k j st Hj Hst. unfold direct_step.
    destruct (substantial _) as [t|] eqn:E; [|exact Hst]. simpl.
    apply substantial_gate in E as [_ Hlen].
    apply binding_kept_alter;
      [now apply list_elem_of_fmap_2 | now apply keeps_record_playwright | exact Hst].
  - apply binding_kept_refl.
Qed.

Lemma browser_stage_consistent (journals : list journal) (fs : files)
    (scrape_log : list entry) :
  NoDup (slug <$> scrape_log) -> consistent fs scrape_log ->
  consistent (fst (browser_stage agent_run journals fs scrape_log))
             (snd (browser_stage agent_run journals fs scrape_log)).
Proof.
  intros Hnd Hc. unfold browser_stage. simpl. apply state_ok_final.
  apply for_each_invariant; [|now apply state_ok_initial].
  intros k j st Hst. unfold browser_step.
  destruct (scrape_with_browser agent_run k (url j) (name j)) as [[t u]|]; [|exact Hst].
  apply state_ok_write; [|exact Hst]. intros e. split; reflexivity.
Qed.

Lemma direct_main_consistent (fs : files) (scrape_log : list entry) :
  NoDup (slug <$> scrape_log) -> consistent fs scrape_log ->
  consistent (fst (direct_main parse page_content fs scrape_log))
             (snd (direct_main parse page_content fs scrape_log)).
Proof.
  intros Hnd Hc. unfold direct_main. simpl. apply state_ok_final.
  apply for_each_invariant; [|now apply state_ok_initial].
  intros k j st Hst. unfold direct_step.
  destruct (substantial _) as [t|]; [|exact Hst].
  apply state_ok_write; [|exact Hst]. intros e. split; reflexivity.
Qed.

(** The gate of the Playwright stage: a text of at most 500 characters
    changes neither the files nor the ledger. *)
Lemma direct_step_gate (k : nat) (j : journal) (st : files * list (string * entry))
    (t : string) :
  scrape_with_playwright parse page_content k (url j) (jslug j) = Some t ->
  String.length t <= 500 ->
  direct_step parse page_content k j st = st.
Proof.
  intros E Hlen. unfold direct_step. rewrite E. simpl.
  assert ((500 <? String.length t) = false) as -> by (apply Nat.ltb_ge; lia).
  now rewrite andb_false_r.
Qed.

Lemma fix_elsevier_pointwise (fs : files) (scrape_log : list entry) :
  NoDup (slug <$> scrape_log) ->
  Forall2 (entry_kept (jslug <$> JOURNAL_FIXES) 500) scrape_log
          (snd (fix_elsevier_main parse get fs scrape_log)).
Proof.
  intros Hnd. unfold fix_elsevier_main. cbn [fst snd].
  apply bindings_to_entries. rewrite <- (log_by_slug_distinct _ Hnd).
  apply (for_each_invariant_in
           (fun st => Forall2 (binding_kept (jslug <$> JOURNAL_FIXES) 500)
                              (log_by_slug scrape_log) (snd st))).
  - intros k j st Hj Hst. unfold elsevier_step.
    destruct (substantial _) as [t|] eqn:E; [|exact Hst]. cbn [fst snd].
    apply substantial_gate in E as [_ Hlen].
    apply binding_kept_alter;
      [now apply list_elem_of_fmap_2 | now apply keeps_record_fixed | exact Hst].
  - apply binding_kept_refl.
Qed.

Lemma fix_elsevier_consistent (fs : files) (scrape_log : list entry) :
  NoDup (slug <$> scrape_log) -> consistent fs scrape_log ->
  consistent (fst (fix_elsevier_main parse get fs scrape_log))
             (snd (fix_elsevier_main parse get fs scrape_log)).
Proof.
  intros Hnd Hc. unfold fix_elsevier_main. cbn [fst snd]. apply state_ok_final.
  apply for_each_invariant; [|now apply state_ok_initial].
  intros k j st Hst. unfold elsevier_step.
  destruct (substantial _) as [t|]; [|exact Hst].
  apply state_ok_write; [|exact Hst]. intros e. split; reflexivity.
Qed.

(** One "write the file, update the first record of that slug" step keeps
    distinct slugs distinct and the files in step with the records. *)
Lemma update_first_consistent (fs : files) (k text : string) (f : entry -> entry)
    (scrape_log : list entry) :
  (forall e, slug (f e) = slug e /\ text_length (f e) = String.length text) ->
  NoDup (slug <$> scrape_log) /\ consistent fs scrape_log ->
  NoDup (slug <$> update_first f k scrape_log)
  /\ consistent (write_text k text fs) (update_first f k scrape_log).
Proof.
  intros Hf [Hnd Hc]. split.
  - rewrite update_first_slugs; [exact Hnd | intros e; apply Hf].
  - rewrite update_first_values.
    pose proof (state_ok_initial fs scrape_log Hnd Hc) as H0.
    rewrite (log_by_slug_distinct _ Hnd) in H0.
    exact (state_ok_final _ (state_ok_write k text f _ Hf H0)).
Qed.

Lemma fix_karger_pointwise (fs : files) (scrape_log : list entry) :
  Forall2 (entry_kept [jslug KARGER] 0) scrape_log
          (snd (fix_karger_main agent_run fs scrape_log)).
Proof.
  unfold fix_karger_main.
  destruct (agent_run 0 (url KARGER) (name KARGER)) as [t|]; [|apply entry_kept_all_refl].
  destruct (truthy t) eqn:Ht; [|apply entry_kept_all_refl]. cbn [fst snd].
  apply entry_kept_update_first; [left | | apply entry_kept_all_refl].
  apply keeps_record_browser_use. now apply truthy_length.
Qed.

Lemma fix_karger_consistent (fs : files) (scrape_log : list entry) :
  NoDup (slug <$> scrape_log) -> consistent fs scrape_log ->
  consistent (fst (fix_karger_main agent_run fs scrape_log))
             (snd (fix_karger_main agent_run fs scrape_log)).
Proof.
  intros Hnd Hc. unfold fix_karger_main.
  destruct (agent_run 0 (url KARGER) (name KARGER)) as [t|]; [|exact Hc].
  destruct (truthy t); [|exact Hc]. cbn [fst snd].
  apply update_first_consistent; [|now split]. intros e. split; reflexivity.
Qed.

Lemma meaningful_gate (t : string) : meaningful t = true -> 500 < String.length t.
Proof. unfold meaningful. rewrite andb_true_iff. intros [H _]. now apply Nat.ltb_lt. Qed.

Lemma fix_remaining_pointwise (fs : files) (scrape_log : list entry) :
  Forall2 (entry_kept (jslug <$> JOURNALS_TO_FIX) 500) scrape_log
          (snd (fix_remaining_main agent_run fs scrape_log)).
Proof.
  unfold fix_remaining_main.
  apply (for_each_invariant_in
           (fun st => Forall2 (entry_kept (jslug <$> JOURNALS_TO_FIX) 500)
                              scrape_log (snd st))).
  - intros k j st Hj Hst. unfold scrape_journal.
    destruct (agent_run k (url j) (name j)) as [t|]; [|exact Hst].
    destruct (truthy t && meaningful t) eqn:Ht; [|exact Hst]. cbn [fst snd].
    apply andb_true_iff in Ht as [_ Hm].
    apply entry_kept_update_first; [now apply list_elem_of_fmap_2 | | exact Hst].
    apply keeps_record_browser_use. now apply meaningful_gate.
  - apply entry_kept_all_refl.
Qed.

Lemma fix_remaining_consistent (fs : files) (scrape_log : list entry) :
  NoDup (slug <$> scrape_log) -> consistent fs scrape_log ->
  consistent (fst (fix_remaining_main agent_run fs scrape_log))
             (snd (fix_remaining_main agent_run fs scrape_log)).
Proof.
  intros Hnd Hc. unfold fix_remaining_main.
  apply (for_each_invariant
           (fun st => NoDup (slug <$> snd st) /\ consistent (fst st) (snd st)));
    [|now split].
  intros k j st Hst. unfold scrape_journal.
  destruct (agent_run k (url j) (name j)) as [t|]; [|exact Hst].
  destruct (truthy t && meaningful t); [|exact Hst]. cbn [fst snd].
  apply update_first_consistent; [|exact Hst]. intros e. split; reflexivity.
Qed.

End RescrapeFacts.

(** *** The link-follow stage *)

Lemma length_append (a b : string) :
  String.length (a +:+ b) = String.length a + String.length b.
Proof. induction a as [|c a IH]; simpl; [reflexivity | now rewrite IH]. Qed.

Lemma fmap_injective_on {A B : Type} (f : A -> B) (l : list A) (x y : A) :
  NoDup (f <$> l) -> x ∈ l -> y ∈ l -> f x = f y -> x = y.
Proof.
  induction l as [|a l IH]; intros Hnd Hx Hy Hf; [now apply elem_of_nil in Hx|].
  simpl in Hnd. apply NoDup_cons in Hnd as [Hfresh Hnd].
  apply elem_of_cons in Hx as [->|Hx]; apply elem_of_cons in Hy as [->|Hy].
  - reflexivity.
  - exfalso. apply Hfresh. rewrite Hf. now apply list_elem_of_fmap_2.
  - exfalso. apply Hfresh. rewrite <- Hf. now apply list_elem_of_fmap_2.
  - now apply IH.
Qed.

Lemma Forall2_fmap_diag {A : Type} (P : A -> A -> Prop) (f : A -> A) (l : list A) :
  (forall x, x ∈ l -> P x (f x)) -> Forall2 P l (f <$> l).
Proof.
  induction l as [|a l IH]; intros H; simpl; constructor.
  - apply H. left.
  - apply IH. intros x Hx. apply H. now right.
Qed.

Lemma success_slugs_sublist (scrape_log : list entry) (s : string) :
  s ∈ slug <$> List.filter is_success scrape_log -> s ∈ slug <$> scrape_log.
Proof.
  intros H. apply list_elem_of_fmap in H as (e & -> & He).
  apply list_elem_of_fmap_2. apply list_elem_of_In in He. apply list_elem_of_In.
  now apply List.filter_In in He.
Qed.

Section FollowFacts.
Variable parse : string -> list node.
Variable extract_guideline_links : string -> option string -> list string.
Variable url_path : string -> string.
Variable get : nat -> string -> Tier1.fetched.

Abbreviation process_journal := (process_journal parse extract_guideline_links url_path get).
Abbreviation process_all := (process_all parse extract_guideline_links url_path get).
Abbreviation follow_main := (follow_main parse extract_guideline_links url_path get).

(** [process_journal] either leaves the files alone or appends to the text of
    its own slug, and then reports the new length. *)
Lemma process_journal_spec (s : string) (g : option string) (fs fs' : files)
    (k k' : nat) (r : result) :
  process_journal s g fs k = (r, fs', k') ->
  r_slug r = s
  /\ ((r_status r <> "updated" /\ fs' = fs)
      \/ (r_status r = "updated"
          /\ exists t extra,
               text_dir fs !! s = Some t
               /\ fs' = write_text s (t +:+ extra) fs
               /\ new_text_length r = String.length (t +:+ extra))).
Proof.
  unfold Stages.process_journal.
  destruct (text_dir fs !! s) as [t|] eqn:Ht.
  2:{ intros [= <- <- <-]. split; [reflexivity|]. left. split; [discriminate | reflexivity]. }
  set (links := if truthy_url g then _ else _).
  destruct links as [|l links'].
  { intros [= <- <- <-]. split; [reflexivity|]. left. split; [discriminate | reflexivity]. }
  destruct (fetch_links parse get k (List.firstn 3 (l :: links'))) as [new_texts k1].
  destruct new_texts as [|x new_texts].
  { intros [= <- <- <-]. split; [reflexivity|]. left. split; [discriminate | reflexivity]. }
  intros [= <- <- <-]. split; [reflexivity|]. right. split; [reflexivity|].
  exists t, (join nl (x :: new_texts)). repeat split.
Qed.

Lemma process_all_spec (scrape_log : list entry) :
  forall (fs fs' : files) (k k' : nat) (results : list result),
  NoDup (slug <$> scrape_log) ->
  process_all scrape_log fs k = (results, fs', k') ->
  (forall r, r ∈ results -> r_slug r ∈ slug <$> List.filter is_success scrape_log)
  /\ NoDup (r_slug <$> results)
  /\ (forall r, r ∈ results -> r_status r = "updated" ->
        exists t extra,
          text_dir fs !! r_slug r = Some t
          /\ text_dir fs' !! r_slug r = Some (t +:+ extra)
          /\ new_text_length r = String.length (t +:+ extra))
  /\ (forall s, (forall r, r ∈ results -> r_slug r = s -> r_status r <> "updated") ->
        text_dir fs' !! s = text_dir fs !! s).
Proof.
  induction scrape_log as [|e rest IH]; intros fs fs' k k' results Hnd Hrun.
  - simpl in Hrun. injection Hrun as <- <- <-.
    split; [intros r Hr; now apply elem_of_nil in Hr|].
    split; [constructor|].
    split; [intros r Hr; now apply elem_of_nil in Hr | reflexivity].
  - simpl in Hnd. apply NoDup_cons in Hnd as [Hfresh Hnd]. simpl in Hrun.
    cbn [List.filter]. destruct (is_success e); simpl in Hrun.
    2:{ destruct (IH _ _ _ _ _ Hnd Hrun) as (Ha & Hd & Hb & Hc). now repeat split. }
    destruct (process_journal (slug e) (guidelines_url e) fs k) as [[r0 fs1] k1] eqn:E0.
    destruct (process_all rest fs1 k1) as [[results1 fs2] k2] eqn:E1.
    injection Hrun as <- <- <-.
    destruct (IH _ _ _ _ _ Hnd E1) as (Ha & Hd & Hb & Hc).
    destruct (process_journal_spec _ _ _ _ _ _ _ E0) as [Hslug0 Hcase].
    assert (Hother : forall r, r ∈ results1 -> r_slug r <> slug e).
    { intros r Hr Heq. apply Hfresh. rewrite <- Heq.
      eapply success_slugs_sublist, Ha, Hr. }
    assert (Hfs1 : forall s, s <> slug e -> text_dir fs1 !! s = text_dir fs !! s).
    { intros s Hs. destruct Hcase as [[_ ->] | (_ & t & extra & _ & -> & _)]; [reflexivity|].
      simpl. now rewrite lookup_insert_ne. }
    split.
    { intros r Hr. apply elem_of_cons in Hr as [->|Hr]; [rewrite Hslug0; left|].
      right. now apply Ha. }
    split.
    { simpl. apply NoDup_cons. split; [|exact Hd].
      intros Hin. apply list_elem_of_fmap in Hin as (r & Heq & Hr).
      apply (Hother r Hr). congruence. }
    split.
    { intros r Hr Hup. apply elem_of_cons in Hr as [->|Hr].
      - destruct Hcase as [[Hno _] | (_ & t & extra & Ht & -> & Hlen)]; [contradiction|].
        exists t, extra. rewrite Hslug0. split; [exact Ht|]. split; [|exact Hlen].
        rewrite (Hc (slug e)).
        + simpl. now rewrite lookup_insert_eq.
        + intros r' Hr' Heq. exfalso. now apply (Hother r' Hr').
      - destruct (Hb r Hr Hup) as (t & extra & Ht & Ht' & Hlen).
        exists t, extra. rewrite <- (Hfs1 _ (Hother r Hr)). now repeat split. }
    intros s Hs. rewrite (Hc s).
    + destruct (decide (s = slug e)) as [->|Hne]; [|now apply Hfs1].
      destruct Hcase as [[_ ->] | (Hup & _)]; [reflexivity|].
      exfalso. apply (Hs r0); [left | exact Hslug0 | exact Hup].
    + intros r Hr. apply Hs. now right.
Qed.

Lemma slug_to_result_some (results : list result) (s : string) (r : result) :
  slug_to_result results s = Some r -> r ∈ results /\ r_slug r = s.
Proof.
  unfold slug_to_result. intros H. apply List.find_some in H as [Hin Heq].
  apply String.eqb_eq in Heq. split; [|now symmetry].
  apply list_elem_of_In. now apply List.in_rev.
Qed.

Lemma slug_to_result_none (results : list result) (s : string) :
  slug_to_result results s = None -> forall r, r ∈ results -> r_slug r <> s.
Proof.
  unfold slug_to_result. intros H r Hr Heq.
  apply list_elem_of_In, List.in_rev in Hr.
  pose proof (List.find_none _ _ H r Hr) as Hf. simpl in Hf.
  apply String.eqb_neq in Hf. congruence.
Qed.

Lemma update_entry_same (results : list result) (e : entry) :
  slug (update_entry results e) = slug e /\ status (update_entry results e) = status e.
Proof.
  unfold update_entry. destruct (slug_to_result results (slug e)) as [r|]; [|now split].
  destruct (String.eqb (r_status r) "updated"); now split.
Qed.

(** The stage record by record: slug and status stay; for a success record
    whose text_length matched its file, the new text_length matches the new
    file and is not smaller. *)
Lemma follow_main_pointwise (fs : files) (scrape_log : list entry) :
  NoDup (slug <$> scrape_log) -> consistent fs scrape_log ->
  Forall2 (fun e e' =>
             slug e' = slug e /\ status e' = status e
             /\ (slug e ∉ slug <$> List.filter is_success scrape_log -> e' = e)
             /\ (status e = "success" ->
                 text_length e <= text_length e'
                 /\ exists t, text_dir (fst (follow_main fs scrape_log)) !! slug e = Some t
                             /\ text_length e' = String.length t))
          scrape_log (snd (follow_main fs scrape_log)).
Proof.
  intros Hnd Hc. unfold Stages.follow_main.
  destruct (process_all scrape_log fs 0) as [[results fs'] k'] eqn:E. simpl.
  destruct (process_all_spec _ _ _ _ _ _ Hnd E) as (Ha & Hd & Hb & Hfr).
  apply Forall2_fmap_diag. intros e He.
  destruct (update_entry_same results e) as [Hslug Hstatus].
  split; [exact Hslug|]. split; [exact Hstatus|]. split.
  { intros Hout. unfold update_entry.
    destruct (slug_to_result results (slug e)) as [r|] eqn:Er; [|reflexivity].
    apply slug_to_result_some in Er as [Hr Hrs]. exfalso. apply Hout.
    rewrite <- Hrs. now apply Ha. }
  intros Hs.
  destruct (Hc e He Hs) as (t0 & Ht0 & Hl0).
  unfold update_entry.
  destruct (slug_to_result results (slug e)) as [r|] eqn:Er.
  - apply slug_to_result_some in Er as [Hr Hrs].
    destruct (String.eqb (r_status r) "updated") eqn:Eu.
    + apply String.eqb_eq in Eu. destruct (Hb r Hr Eu) as (t & extra & Ht & Ht' & Hlen).
      rewrite Hrs in Ht, Ht'. assert (t = t0) as -> by congruence. simpl. split.
      * rewrite Hlen, length_append, Hl0. lia.
      * exists (t0 +:+ extra). now split.
    + apply String.eqb_neq in Eu. split; [lia|]. exists t0. split; [|exact Hl0].
      rewrite (Hfr (slug e)); [exact Ht0|].
      intros r' Hr' Heq. assert (r' = r) as ->; [|exact Eu].
      apply (fmap_injective_on r_slug results); try assumption. congruence.
  - split; [lia|]. exists t0. split; [|exact Hl0].
    rewrite (Hfr (slug e)); [exact Ht0|].
    intros r' Hr' Heq. exfalso. now apply (slug_to_result_none _ _ Er r' Hr').
Qed.

(** The same without any assumption on the files. *)
Lemma follow_main_frame (fs : files) (scrape_log : list entry) :
  NoDup (slug <$> scrape_log) ->
  Forall2 (fun e e' =>
             slug e' = slug e /\ status e' = status e
             /\ (slug e ∉ slug <$> List.filter is_success scrape_log -> e' = e))
          scrape_log (snd (follow_main fs scrape_log)).
Proof.
  intros Hnd. unfold Stages.follow_main.
  destruct (process_all scrape_log fs 0) as [[results fs'] k'] eqn:E. simpl.
  destruct (process_all_spec _ _ _ _ _ _ Hnd E) as (Ha & _).
  apply Forall2_fmap_diag. intros e He.
  destruct (update_entry_same results e) as [Hslug Hstatus].
  split; [exact Hslug|]. split; [exact Hstatus|].
  intros Hout. unfold update_entry.
  destruct (slug_to_result results (slug e)) as [r|] eqn:Er; [|reflexivity].
  apply slug_to_result_some in Er as [Hr Hrs]. exfalso. apply Hout.
  rewrite <- Hrs. now apply Ha.
Qed.

Lemma follow_main_consistent (fs : files) (scrape_log : list entry) :
  NoDup (slug <$> scrape_log) -> consistent fs scrape_log ->
  consistent (fst (follow_main fs scrape_log)) (snd (follow_main fs scrape_log)).
Proof.
  intros Hnd Hc e' He' Hs'.
  pose proof (follow_main_pointwise fs scrape_log Hnd Hc) as H.
  apply list_elem_of_lookup in He' as [i Hi].
  destruct (Forall2_lookup_r _ _ _ _ _ H Hi) as (e & _ & Hslug & Hstatus & _ & Hfile).
  rewrite Hslug. destruct Hfile as [_ Hfile]; [congruence | exact Hfile].
Qed.

End FollowFacts.

(** *** Tier 1 writes what it records *)

Section Tier1Files.
Variable parse : string -> list node.
Variable urljoin : string -> string -> string.
Variable origin : string -> string.
Variable get : nat -> string -> Tier1.fetched.

Abbreviation scrape_row := (Tier1.scrape_row parse urljoin origin get).
Abbreviation scrape_rows := (Tier1.scrape_rows parse urljoin origin get).
Abbreviation scrape_journals := (Tier1.scrape_journals parse urljoin origin get).

Lemma scrape_row_files (r : Tier1.row) (fs fs1 : files) (log log1 : list string) (e : entry) :
  scrape_row r fs log = (e, fs1, log1) ->
  slug e = row_slug r
  /\ (status e = "success" ->
      exists t, text_dir fs1 !! slug e = Some t /\ text_length e = String.length t)
  /\ (forall s, s <> row_slug r -> text_dir fs1 !! s = text_dir fs !! s).
Proof.
  unfold Tier1.scrape_row.
  destruct (Tier1.no_homepage (Tier1.row_homepage_url r)).
  { intros [= <- <- <-]. split; [reflexivity|]. split; [discriminate | reflexivity]. }
  destruct (Tier1.scrape_journal_http parse urljoin origin get log _ (Tier1.title r))
    as [[[[html text] gurl]|] log'].
  - intros [= <- <- <-]. split; [reflexivity|]. split.
    + intros _. exists text. simpl. now rewrite lookup_insert_eq.
    + intros s Hs. simpl. now rewrite lookup_insert_ne.
  - intros [= <- <- <-]. split; [reflexivity|]. split; [discriminate | reflexivity].
Qed.

Lemma scrape_rows_files (rows : list Tier1.row) :
  forall (fs fs' : files) (log log' : list string) (results : list entry),
  NoDup (row_slug <$> rows) ->
  scrape_rows rows fs log = (results, fs', log') ->
  slug <$> results = row_slug <$> rows
  /\ consistent fs' results
  /\ (forall s, s ∉ row_slug <$> rows -> text_dir fs' !! s = text_dir fs !! s).
Proof.
  induction rows as [|r rest IH]; intros fs fs' log log' results Hnd Hrun.
  - simpl in Hrun. injection Hrun as <- <- <-.
    split; [reflexivity|]. split; [|reflexivity].
    intros e He. now apply elem_of_nil in He.
  - simpl in Hnd. apply NoDup_cons in Hnd as [Hfresh Hnd]. simpl in Hrun.
    destruct (scrape_row r fs log) as [[e fs1] log1] eqn:E0.
    destruct (scrape_rows rest fs1 log1) as [[results1 fs2] log2] eqn:E1.
    injection Hrun as <- <- <-.
    destruct (scrape_row_files _ _ _ _ _ _ E0) as (Hslug & Hfile & Hframe0).
    destruct (IH _ _ _ _ _ Hnd E1) as (Hslugs & Hcons & Hframe).
    split; [simpl; f_equal; assumption|]. split.
    + intros e' He' Hs. apply elem_of_cons in He' as [->|He']; [|now apply Hcons].
      destruct (Hfile Hs) as (t & Ht & Hl). exists t. split; [|exact Hl].
      rewrite Hframe; [exact Ht|]. now rewrite Hslug.
    + intros s Hs. apply not_elem_of_cons in Hs as [Hne Hs].
      rewrite (Hframe s Hs). now apply Hframe0.
Qed.

Lemma scrape_journals_consistent (rows : list Tier1.row) (fs : files) :
  NoDup (row_slug <$> rows) ->
  consistent (snd (scrape_journals rows fs)) (fst (scrape_journals rows fs)).
Proof.
  intros Hnd. unfold Tier1.scrape_journals.
  destruct (scrape_rows rows fs []) as [[results fs'] log'] eqn:E. simpl.
  now destruct (scrape_rows_files _ _ _ _ _ _ Hnd E) as (_ & Hc & _).
Qed.

End Tier1Files.

(** *** The claims about the ledger across stages *)

Section Pipeline.
Variable parse : string -> list node.
Variable urljoin : string -> string -> string.
Variable origin : string -> string.
Variable get : nat -> string -> Tier1.fetched.
Variable agent_run : nat -> string -> string -> option string.
Variable page_content : nat -> string -> option (string * string).
Variable extract_guideline_links : string -> option string -> list string.
Variable url_path : string -> string.
Variable get_later : nat -> string -> Tier1.fetched.

Abbreviation tier1 := (Tier1.scrape_journals parse urljoin origin get).
Abbreviation run :=
  (run_stage parse agent_run page_content extract_guideline_links url_path get_later).

Lemma run_stage_rescrape (s : stage) (fs : files) (scrape_log : list entry) :
  s <> FollowLinks -> NoDup (slug <$> scrape_log) ->
  Forall2 (entry_kept (visited s fs scrape_log) (gate s)) scrape_log
          (snd (run s fs scrape_log)).
Proof.
  intros Hs Hnd. destruct s; try contradiction; unfold run_stage, visited, gate.
  - now apply browser_stage_pointwise.
  - now apply direct_main_pointwise.
  - now apply fix_elsevier_pointwise.
  - apply fix_karger_pointwise.
  - apply fix_remaining_pointwise.
Qed.

Lemma run_stage_consistent (s : stage) (fs : files) (scrape_log : list entry) :
  NoDup (slug <$> scrape_log) -> consistent fs scrape_log ->
  consistent (fst (run s fs scrape_log)) (snd (run s fs scrape_log)).
Proof.
  intros Hnd Hc. destruct s; unfold run_stage.
  - now apply browser_stage_consistent.
  - now apply direct_main_consistent.
  - now apply follow_main_consistent.
  - now apply fix_elsevier_consistent.
  - now apply fix_karger_consistent.
  - now apply fix_remaining_consistent.
Qed.

Lemma kept_ledger (targets : list string) (P : entry -> entry -> Prop)
    (scrape_log after : list entry) :
  Forall2 P scrape_log after ->
  (forall e e', P e e' -> slug e' = slug e /\ (slug e ∉ targets -> e' = e)) ->
  List.length after = List.length scrape_log
  /\ slug <$> after = slug <$> scrape_log
  /\ forall i e, scrape_log !! i = Some e -> slug e ∉ targets -> after !! i = Some e.
Proof.
  intros H HP. split; [symmetry; eapply Forall2_length, H|]. split.
  - induction H as [|e e' l l' He _ IH]; simpl; [reflexivity|].
    f_equal; [now apply HP | exact IH].
  - intros i e Hi Hout. destruct (Forall2_lookup_l _ _ _ _ _ H Hi) as (e' & Hi' & He).
    rewrite Hi'. f_equal. now apply (HP e e' He).
Qed.

(** C2: with pairwise distinct slugs, every stage that runs on an existing
    ledger (the browser run, also over any other list of journals, the
    Playwright run, the link-follow stage and the three fix scripts) writes
    back a ledger of the same length, with the same slugs in the same order,
    in which every record whose slug the run did not visit stands unchanged
    at its place. *)
Theorem merge_keeps_untouched (s : stage) (journals : list journal) (fs : files)
    (scrape_log : list entry)
    (Hdistinct : NoDup (slug <$> scrape_log)) :
  let after := snd (run s fs scrape_log) in
  let after_browser := snd (browser_stage agent_run journals fs scrape_log) in
  (List.length after = List.length scrape_log
   /\ slug <$> after = slug <$> scrape_log
   /\ forall i e, scrape_log !! i = Some e -> slug e ∉ visited s fs scrape_log ->
        after !! i = Some e)
  /\ (List.length after_browser = List.length scrape_log
      /\ slug <$> after_browser = slug <$> scrape_log
      /\ forall i e, scrape_log !! i = Some e -> slug e ∉ jslug <$> journals ->
           after_browser !! i = Some e).
Proof.
  split.
  - destruct (decide (s = FollowLinks)) as [->|Hs].
    + eapply kept_ledger; [now apply follow_main_frame|].
      intros e e' (Hslug & _ & Hout). now split.
    + eapply kept_ledger; [now apply run_stage_rescrape|].
      intros e e' (Hslug & _ & Hout & _). now split.
  - eapply kept_ledger; [now apply browser_stage_pointwise|].
    intros e e' (Hslug & _ & Hout & _). now split.
Qed.


(** C6 (as the code has it): when the slugs are pairwise distinct, every
    success record that tier 1 returns has a text file under its slug whose
    length is its text_length; and from a ledger with pairwise distinct slugs
    in which this holds, it holds again after every later stage. *)
Theorem artifact_consistency (rows : list Tier1.row) (fs0 : files)
    (s : stage) (fs : files) (scrape_log : list entry)
    (Hrows : NoDup (row_slug <$> rows))
    (Hdistinct : NoDup (slug <$> scrape_log))
    (Hfiles : consistent fs scrape_log) :
  consistent (snd (tier1 rows fs0)) (fst (tier1 rows fs0))
  /\ consistent (fst (run s fs scrape_log)) (snd (run s fs scrape_log)).
Proof.
  split; [now apply scrape_journals_consistent | now apply run_stage_consistent].
Qed.

End Pipeline.

(** *** The stages on the concrete ledgers *)

Lemma distinct_NoDup (l : list string) : distinct l = true -> NoDup l.
Proof.
  induction l as [|x l IH]; simpl; [constructor|].
  rewrite andb_true_iff, negb_true_iff. intros [Hx Hl].
  apply NoDup_cons. split; [|now apply IH].
  intros Hin. apply list_elem_of_In in Hin.
  assert (existsb (String.eqb x) l = true); [|congruence].
  apply List.existsb_exists. exists x. split; [exact Hin | apply String.eqb_refl].
Qed.

Lemma two_records_distinct : NoDup (slug <$> two_records).
Proof. apply distinct_NoDup. reflexivity. Qed.

Lemma two_records_consistent : consistent cpr_file two_records.
Proof.
  intros e He Hs. unfold two_records in He.
  apply elem_of_cons in He as [->|He].
  - exists (filler 900). split; reflexivity.
  - apply list_elem_of_singleton in He. subst e. discriminate.
Qed.

Lemma merge_keeps_untouched_witness :
  NoDup (slug <$> two_records)
  /\ List.length (snd (browser_main agent_gives_up cpr_file two_records)) = 2
  /\ snd (browser_main agent_gives_up cpr_file two_records) !! 0 = Some cpr.
Proof.
  split; [exact two_records_distinct|].
  pose proof (merge_keeps_untouched Tier1.text_parser agent_gives_up page_600 no_links
                Tier1.id_origin (Tier1.always 404 "Not Found")
                Browser JOURNALS_NEEDING_BROWSER cpr_file two_records two_records_distinct)
    as [(Hlen & _ & Hsame) _].
  split; [exact Hlen|].
  apply Hsame; [reflexivity|]. compute_done.
Defined.



(** C3 at a failing input: the browser stage has no length gate.  The
    25-character message of an agent that gave up is written to the text file
    and the record becomes a success of length 25. *)
Theorem browser_accepts_short_text :
  String.length "Failed to access the page" = 25
  /\ two_records !! 1 = Some bul
  /\ status bul = "needs_browser"
  /\ snd (browser_main agent_gives_up cpr_file two_records) !! 1
     = Some (Entry "Psychological Bulletin" "psychological-bulletin"
                   (Some "https://www.apa.org/pubs/journals/bul")
                   (Some "https://www.apa.org/pubs/journals/bul/?tab=4")
                   "success" (Some "browser") 25 None None)
  /\ text_dir (fst (browser_main agent_gives_up cpr_file two_records))
       !! "psychological-bulletin"
     = Some "Failed to access the page".
Proof. repeat split; vm_compute; reflexivity. Qed.

Lemma artifact_consistency_witness :
  NoDup (slug <$> two_records)
  /\ consistent cpr_file two_records
  /\ consistent (fst (direct_main Tier1.text_parser page_600 cpr_file two_records))
                (snd (direct_main Tier1.text_parser page_600 cpr_file two_records)).
Proof.
  split; [exact two_records_distinct|]. split; [exact two_records_consistent|].
  refine (proj2
    (artifact_consistency Tier1.text_parser Tier1.same_url Tier1.id_origin two_homepages
       agent_gives_up page_600 no_links Tier1.id_origin (Tier1.always 404 "Not Found")
       [Tier1.Row "Mind" (Some "https://a.example")] (Files ∅ ∅)
       Direct cpr_file two_records
       _ two_records_distinct two_records_consistent)).
  apply distinct_NoDup. reflexivity.
Defined.

(** C6 (as the specification states it) fails after tier 1 when two titles
    share a slug: both records are successes, the file holds the second text,
    and the first record keeps the length of the first. *)
Lemma colliding_slugs_break_consistency :
  slug <$> fst collided = ["mind"; "mind"]
  /\ status <$> fst collided = ["success"; "success"]
  /\ text_length <$> fst collided = [16; 4]
  /\ text_dir (snd collided) !! "mind" = Some "Beta"
  /\ ~ consistent (snd collided) (fst collided).
Proof.
  split; [reflexivity|]. split; [reflexivity|]. split; [reflexivity|].
  split; [reflexivity|].
  intros Hc.
  destruct (Hc (Entry "Mind" "mind" (Some "https://a.example") (Some "https://a.example")
                      "success" (Some "http") 16 None None))
    as (t & Ht & Hl); [left | reflexivity |].
  simpl in Ht, Hl. vm_compute in Ht. injection Ht as <-. discriminate.
Qed.

End Stages.

(** ** Quote validation and review flags ([04_analyze_guidelines.py]) *)

Module Quality.
Import PyStr.

(** The fields of [GuidelinesAnalysis] the quality gate reads.  A Python
    [float] is taken by its value, a rational number. *)
Record analysis : Type := Analysis {
  pilot_study_quotes : list string;
  feasibility_study_quotes : list string;
  confidence_score : Q
}.

(** The cap of [text[:50000]]. *)
Definition TEXT_CAP : nat := 50 * 1000.

(** [x < y] on floats. *)
Definition flt (x y : Q) : bool := negb (Qle_bool y x).

Section WithFloats.
(** Rounding to the nearest [float]: every arithmetic operation returns the
    rounded exact result. *)
Variable rnd : Q -> Q.
(** [rapidfuzz.fuzz.partial_ratio], a score between 0 and 100. *)
Variable partial_ratio : string -> string -> Q.
(** The model call: [client.chat.completions.create] on [ANALYSIS_PROMPT]
    formatted with the journal name and the text given; [None] when it
    raises. *)
Variable client : string -> string -> option analysis.

Definition fadd (x y : Q) : Q := rnd (x + y).
Definition fdiv (x y : Q) : Q := rnd (x / y).

(** [sum(scores)] *)
Definition fsum (scores : list Q) : Q := List.fold_left fadd scores 0%Q.

(** The score of one quote in the loop of [validate_quotes]. *)
Definition quote_score (quote source_text : string) : Q :=
  fdiv (partial_ratio (lower quote) (lower source_text)) 100.

Definition validate_quotes (quotes : list string) (source_text : string) : Q :=
  match quotes with
  | [] => 1%Q
  | _ =>
      let scores := List.map (fun quote => quote_score quote source_text) quotes in
      fdiv (fsum scores) (inject_Z (Z.of_nat (List.length scores)))
  end.

Definition analyze_journal (journal_name text : string) : option (analysis * Q) :=
  match client journal_name (take TEXT_CAP text) with
  | Some response =>
      let all_quotes := pilot_study_quotes response ++ feasibility_study_quotes response in
      Some (response, validate_quotes all_quotes text)
  | None => None
  end.

(** The literals [0.7] and [0.8]. *)
Definition f07 : Q := rnd (7 # 10).
Definition f08 : Q := rnd (8 # 10).

(** The list [flags] built in [main]. *)
Definition flags (a : analysis) (quote_validation : Q) : list string :=
  (if flt (confidence_score a) f07 then ["low_confidence"] else [])
  ++ (if flt quote_validation f08 then ["quote_validation_warning"] else []).

(** [";".join(flags) if flags else None] *)
Definition review_flags (a : analysis) (quote_validation : Q) : option string :=
  match flags a quote_validation with
  | [] => None
  | fl => Some (join ";" fl)
  end.

(** [flag] stands in the [review_flags] cell. *)
Definition flagged (flag : string) (cell : option string) : bool :=
  match cell with
  | Some s => contains flag s
  | None => false
  end.

End WithFloats.

(** The mean as the specification words it, in exact arithmetic. *)
Definition exact_mean (scores : list Q) : Q :=
  (List.fold_left Qplus scores 0 / inject_Z (Z.of_nat (List.length scores)))%Q.

(** *** A concrete instance *)

(** Rounding down to a multiple of 1/1024. *)
Definition round_down (x : Q) : Q := Qfloor (x * 1024) # 1024.

(** A matcher that knows verbatim substrings only. *)
Definition substring_ratio (q s : string) : Q :=
  if truthy q && contains q s then 100%Q else 0%Q.

Definition canned_client (a : analysis) (journal_name text : string) : option analysis :=
  Some a.

Definition welcome : analysis := Analysis ["We welcome pilot studies."] [] (9 # 10).

Definition guidelines_text : string :=
  "Aims and scope. We welcome pilot studies. Submit your manuscript online.".

Lemma flt_lt (x y : Q) : flt x y = true <-> (x < y)%Q.
Proof.
  unfold flt. rewrite negb_true_iff. split.
  - intros H. apply Qnot_le_lt. intros Hle. apply Qle_bool_iff in Hle. congruence.
  - intros H. destruct (Qle_bool y x) eqn:E; [|reflexivity].
    apply Qle_bool_iff in E. exfalso. now apply (Qlt_not_le x y).
Qed.

Lemma startswith_lower (p s : string) :
  startswith p s = true -> startswith (lower p) (lower s) = true.
Proof.
  revert s. induction p as [|a p IH]; intros [|b s]; simpl; try easy.
  rewrite !andb_true_iff. intros [Hab Hps]. apply Ascii.eqb_eq in Hab. subst b.
  split; [apply Ascii.eqb_refl | now apply IH].
Qed.

Lemma contains_lower (p s : string) :
  contains p s = true -> contains (lower p) (lower s) = true.
Proof.
  induction s as [|b s IH].
  - simpl. rewrite !orb_false_r. apply (startswith_lower p EmptyString).
  - change (contains p (String b s)) with (startswith p (String b s) || contains p s).
    change (contains (lower p) (lower (String b s)))
      with (startswith (lower p) (lower (String b s)) || contains (lower p) (lower s)).
    rewrite !orb_true_iff. intros [H|H]; [left; now apply startswith_lower | right; now apply IH].
Qed.

Lemma lower_nonempty (q : string) : q <> EmptyString -> lower q <> EmptyString.
Proof. destruct q; [easy | discriminate]. Qed.

Section FloatFacts.
Variable rnd : Q -> Q.
Variable partial_ratio : string -> string -> Q.
Variable client : string -> string -> option analysis.

(** Rounding is monotone and leaves the integers up to 2^53 as they are. *)
Hypothesis rnd_mono : forall x y, (x <= y)%Q -> (rnd x <= rnd y)%Q.
Hypothesis rnd_int :
  forall z : Z, (0 <= z <= 2 ^ 53)%Z -> (rnd (inject_Z z) == inject_Z z)%Q.
(** The contract of the matching library. *)
Hypothesis ratio_range : forall a b, (0 <= partial_ratio a b <= 100)%Q.
Hypothesis ratio_substring :
  forall q s, q <> EmptyString -> contains q s = true -> (partial_ratio q s == 100)%Q.

Abbreviation fadd := (fadd rnd).
Abbreviation fdiv := (fdiv rnd).
Abbreviation fsum := (fsum rnd).
Abbreviation quote_score := (quote_score rnd partial_ratio).
Abbreviation validate_quotes := (validate_quotes rnd partial_ratio).
Abbreviation analyze_journal := (analyze_journal rnd partial_ratio client).
Abbreviation review_flags := (review_flags rnd).

Lemma rnd_proper (x y : Q) : (x == y)%Q -> (rnd x == rnd y)%Q.
Proof.
  intros H. apply Qle_antisym; apply rnd_mono; rewrite H; apply Qle_refl.
Qed.

Lemma rnd_0 : (rnd 0 == 0)%Q.
Proof. apply (rnd_int 0). lia. Qed.

Lemma rnd_1 : (rnd 1 == 1)%Q.
Proof. apply (rnd_int 1). lia. Qed.

Lemma rnd_unit (x : Q) : (0 <= x <= 1)%Q -> (0 <= rnd x <= 1)%Q.
Proof.
  intros [H0 H1]. split.
  - rewrite <- rnd_0. now apply rnd_mono.
  - rewrite <- rnd_1. now apply rnd_mono.
Qed.

Lemma quote_score_range (quote source_text : string) :
  (0 <= quote_score quote source_text <= 1)%Q.
Proof.
  unfold Quality.quote_score, Quality.fdiv. apply rnd_unit.
  destruct (ratio_range (lower quote) (lower source_text)) as [H0 H100].
  split.
  - apply Qle_shift_div_l; [reflexivity | lra].
  - apply Qle_shift_div_r; [reflexivity | lra].
Qed.

Lemma quote_score_verbatim (quote source_text : string) :
  quote <> EmptyString -> contains quote source_text = true ->
  (quote_score quote source_text == 1)%Q.
Proof.
  intros Hne Hin. unfold Quality.quote_score, Quality.fdiv.
  rewrite <- rnd_1. apply rnd_proper.
  rewrite (ratio_substring (lower quote) (lower source_text));
    [reflexivity | now apply lower_nonempty | now apply contains_lower].
Qed.

Lemma fsum_from_range (scores : list Q) :
  forall (acc : Q) (k : Z),
  Forall (fun s => (0 <= s <= 1)%Q) scores ->
  (0 <= k)%Z -> (k + Z.of_nat (List.length scores) <= 2 ^ 53)%Z ->
  (0 <= acc <= inject_Z k)%Q ->
  (0 <= List.fold_left fadd scores acc
   <= inject_Z (k + Z.of_nat (List.length scores)))%Q.
Proof.
  induction scores as [|s scores IH]; intros acc k Hall Hk Hbound Hacc.
  - simpl. now rewrite Z.add_0_r.
  - inversion Hall as [|? ? [Hs0 Hs1] Hrest]; subst. simpl List.fold_left.
    replace (k + Z.of_nat (List.length (s :: scores)))%Z
      with ((k + 1) + Z.of_nat (List.length scores))%Z by (simpl List.length; lia).
    simpl List.length in Hbound.
    apply IH; [exact Hrest | lia | lia |].
    destruct Hacc as [Ha0 Hak]. unfold Quality.fadd. split.
    + rewrite <- rnd_0. apply rnd_mono. lra.
    + rewrite <- (rnd_int (k + 1)) by lia. apply rnd_mono.
      rewrite inject_Z_plus. change (inject_Z 1) with 1%Q. lra.
Qed.

Lemma fsum_from_ones (scores : list Q) :
  forall (acc : Q) (k : Z),
  Forall (fun s => (s == 1)%Q) scores ->
  (0 <= k)%Z -> (k + Z.of_nat (List.length scores) <= 2 ^ 53)%Z ->
  (acc == inject_Z k)%Q ->
  (List.fold_left fadd scores acc == inject_Z (k + Z.of_nat (List.length scores)))%Q.
Proof.
  induction scores as [|s scores IH]; intros acc k Hall Hk Hbound Hacc.
  - simpl. now rewrite Z.add_0_r.
  - inversion Hall as [|? ? Hs Hrest]; subst. simpl List.fold_left.
    replace (k + Z.of_nat (List.length (s :: scores)))%Z
      with ((k + 1) + Z.of_nat (List.length scores))%Z by (simpl List.length; lia).
    simpl List.length in Hbound.
    apply IH; [exact Hrest | lia | lia |].
    unfold Quality.fadd. rewrite <- (rnd_int (k + 1)) by lia. apply rnd_proper.
    rewrite inject_Z_plus, Hacc, Hs. reflexivity.
Qed.

Lemma validate_quotes_range (quotes : list string) (source_text : string) :
  (Z.of_nat (List.length quotes) <= 2 ^ 53)%Z ->
  (0 <= validate_quotes quotes source_text <= 1)%Q.
Proof.
  intros Hlen. destruct quotes as [|q quotes]; [simpl; lra|].
  unfold Quality.validate_quotes.
  set (scores := List.map (fun quote => quote_score quote source_text) (q :: quotes)).
  assert (Hn : List.length scores = List.length (q :: quotes)) by apply List.length_map.
  assert (Hall : Forall (fun s => (0 <= s <= 1)%Q) scores).
  { apply Forall_forall. intros s Hs. apply list_elem_of_In, List.in_map_iff in Hs.
    destruct Hs as (quote & <- & _). apply quote_score_range. }
  destruct (fsum_from_range scores 0 0 Hall) as [H0 Hn'];
    [lia | rewrite Hn; lia | split; apply Qle_refl |].
  fold (fsum scores) in H0, Hn'. rewrite Z.add_0_l in Hn'.
  assert (Hpos : (0 < inject_Z (Z.of_nat (List.length scores)))%Q).
  { rewrite Hn. simpl List.length. rewrite <- (Zlt_Qlt 0). lia. }
  unfold Quality.fdiv. apply rnd_unit. split.
  - apply Qle_shift_div_l; [exact Hpos | lra].
  - apply Qle_shift_div_r; [exact Hpos | lra].
Qed.

Lemma validate_quotes_verbatim (quotes : list string) (source_text : string) :
  (Z.of_nat (List.length quotes) <= 2 ^ 53)%Z ->
  Forall (fun q => q <> EmptyString /\ contains q source_text = true) quotes ->
  (validate_quotes quotes source_text == 1)%Q.
Proof.
  intros Hlen Hin. destruct quotes as [|q quotes]; [reflexivity|].
  unfold Quality.validate_quotes.
  set (scores := List.map (fun quote => quote_score quote source_text) (q :: quotes)).
  assert (Hn : List.length scores = List.length (q :: quotes)) by apply List.length_map.
  assert (Hall : Forall (fun s => (s == 1)%Q) scores).
  { apply Forall_forall. intros s Hs. apply list_elem_of_In, List.in_map_iff in Hs.
    destruct Hs as (quote & <- & Hq). rewrite Forall_forall in Hin.
    apply list_elem_of_In in Hq. destruct (Hin quote Hq) as [Hne Hc].
    now apply quote_score_verbatim. }
  pose proof (fsum_from_ones scores 0 0 Hall) as Hsum.
  fold (fsum scores) in Hsum. rewrite Z.add_0_l in Hsum.
  unfold Quality.fdiv. rewrite <- rnd_1. apply rnd_proper.
  rewrite Hsum; [| lia | rewrite Hn; lia | reflexivity].
  apply Qmult_inv_r. rewrite Hn. simpl List.length.
  intros H0. apply (Qeq_bool_neq (inject_Z (Z.of_nat (S (List.length quotes)))) 0); [|exact H0].
  unfold Qeq_bool, inject_Z. simpl. reflexivity.
Qed.

Lemma fsum_exact (scores : list Q) (acc acc' : Q) :
  (forall x, (rnd x == x)%Q) -> (acc == acc')%Q ->
  (List.fold_left fadd scores acc == List.fold_left Qplus scores acc')%Q.
Proof.
  intros Hid. revert acc acc'. induction scores as [|s scores IH]; intros acc acc' Hacc.
  - exact Hacc.
  - simpl. apply IH. unfold Quality.fadd. rewrite Hid, Hacc. reflexivity.
Qed.

Lemma validate_quotes_exact (quotes : list string) (source_text : string) :
  (forall x, (rnd x == x)%Q) -> quotes <> [] ->
  (validate_quotes quotes source_text
   == exact_mean (List.map (fun quote => quote_score quote source_text) quotes))%Q.
Proof.
  intros Hid Hne. destruct quotes as [|q quotes]; [contradiction|].
  unfold Quality.validate_quotes, exact_mean, Quality.fdiv, Quality.fsum.
  rewrite Hid. apply Qmult_comp; [|reflexivity].
  now apply fsum_exact.
Qed.

Lemma review_flags_cells (a : analysis) (quote_validation : Q) :
  flagged "low_confidence" (review_flags a quote_validation)
  = flt (confidence_score a) (f07 rnd)
  /\ flagged "quote_validation_warning" (review_flags a quote_validation)
     = flt quote_validation (f08 rnd).
Proof.
  unfold Quality.review_flags, flags.
  destruct (flt (confidence_score a) (f07 rnd)), (flt quote_validation (f08 rnd));
    split; reflexivity.
Qed.


End FloatFacts.

(** *** The quality gate in the concrete instance *)

Lemma round_down_mono (x y : Q) : (x <= y)%Q -> (round_down x <= round_down y)%Q.
Proof.
  intros H.
  assert (Hf : (Qfloor (x * 1024) <= Qfloor (y * 1024))%Z).
  { apply Qfloor_resp_le. apply Qmult_le_compat_r; [exact H | discriminate]. }
  unfold round_down, Qle. cbn [Qnum Qden]. lia.
Qed.

Lemma round_down_int (z : Z) : (round_down (inject_Z z) == inject_Z z)%Q.
Proof.
  unfold round_down.
  assert (E : Qfloor (inject_Z z * 1024) = (z * 1024)%Z).
  { rewrite <- (Qfloor_Z (z * 1024)). apply Qfloor_comp.
    rewrite inject_Z_mult. reflexivity. }
  rewrite E. unfold Qeq, inject_Z. cbn [Qnum Qden]. lia.
Qed.

Lemma substring_ratio_range (a b : string) : (0 <= substring_ratio a b <= 100)%Q.
Proof. unfold substring_ratio. destruct (truthy a && contains a b); split; discriminate. Qed.

Lemma substring_ratio_verbatim (q s : string) :
  q <> EmptyString -> contains q s = true -> (substring_ratio q s == 100)%Q.
Proof.
  intros Hne Hin. unfold substring_ratio. rewrite Hin.
  destruct q; [contradiction | reflexivity].
Qed.


End Quality.

(** * Further properties of the scripts *)

(** ** The shape of a slug ([slugify]) *)

Module SlugShape.
Import PyStr Slug.

(** The first character of [s] satisfies [p]. *)
Definition head_is (p : ascii -> bool) (s : string) : bool :=
  match s with
  | EmptyString => false
  | String c _ => p c
  end.

(** [s] is not empty and its last character satisfies [p]. *)
Fixpoint last_is (p : ascii -> bool) (s : string) : bool :=
  match s with
  | EmptyString => false
  | String c EmptyString => p c
  | String _ r => last_is p r
  end.

(** No two hyphens stand side by side in [s]; [prev] tells that a hyphen
    stands just before [s]. *)
Fixpoint single_hyphens (prev : bool) (s : string) : bool :=
  match s with
  | EmptyString => true
  | String c r =>
      if is_hyphen c then negb prev && single_hyphens true r else single_hyphens false r
  end.

(** No character of [s] is a word character. *)
Definition no_word (s : string) : bool := all_chars (fun c => negb (is_word c)) s.

(** [n] copies of the letter a. *)
Fixpoint letters (n : nat) : string :=
  match n with
  | 0 => EmptyString
  | S n' => String "a" (letters n')
  end.

(** *** Character facts *)

Lemma hyphen_eqb (c : ascii) : Ascii.eqb "-" c = is_hyphen c.
Proof. destruct c as [[] [] [] [] [] [] [] []]; reflexivity. Qed.

Lemma is_hyphen_eq (c : ascii) : is_hyphen c = true -> c = hyphen.
Proof. each_char c. Qed.

Lemma sep_not_word (c : ascii) : is_sep c = true -> is_word c = false.
Proof. each_char c. Qed.

Lemma lower_char_word (c : ascii) : is_word (lower_char c) = is_word c.
Proof. each_char c. Qed.

Lemma lower_char_space (c : ascii) : is_space (lower_char c) = is_space c.
Proof. each_char c. Qed.

Lemma lower_char_hyphen (c : ascii) : is_hyphen (lower_char c) = is_hyphen c.
Proof. each_char c. Qed.

Lemma lower_char_twice (c : ascii) : lower_char (lower_char c) = lower_char c.
Proof. each_char c. Qed.

Lemma slug_char_kept (c : ascii) :
  slug_char c = true -> (is_word c || is_space c || is_hyphen c) = true.
Proof. each_char c. Qed.

Lemma slug_char_sep (c : ascii) : slug_char c = true -> is_sep c = is_hyphen c.
Proof. each_char c. Qed.

(** *** Hyphens through the string operations *)

Lemma hyphenate_single (b : bool) (s : string) : single_hyphens b (hyphenate b s) = true.
Proof.
  revert b. induction s as [|c r IH]; intros b; simpl; [reflexivity|].
  destruct (is_sep c) eqn:Hs.
  - destruct b; [apply IH|]. simpl. apply IH.
  - unfold is_sep in Hs. apply orb_false_iff in Hs as [Hh _]. simpl. rewrite Hh. apply IH.
Qed.

Lemma single_weaken (b : bool) (s : string) :
  single_hyphens b s = true -> single_hyphens false s = true.
Proof.
  destruct s as [|c r]; simpl; [reflexivity|].
  destruct (is_hyphen c); [|easy]. rewrite andb_true_iff. now intros [_ ->].
Qed.

Lemma single_tail (b : bool) (c : ascii) (r : string) :
  single_hyphens b (String c r) = true -> exists b', single_hyphens b' r = true.
Proof.
  simpl. destruct (is_hyphen c).
  - rewrite andb_true_iff. intros [_ H]. now exists true.
  - intros H. now exists false.
Qed.

Lemma single_lstrip (p : ascii -> bool) (b : bool) (s : string) :
  single_hyphens b s = true -> single_hyphens false (lstrip p s) = true.
Proof.
  revert b. induction s as [|c r IH]; intros b H; [reflexivity|].
  simpl. destruct (p c).
  - destruct (single_tail _ _ _ H) as [b' H']. now apply (IH b').
  - now apply (single_weaken b).
Qed.

Lemma single_rstrip (p : ascii -> bool) (b : bool) (s : string) :
  single_hyphens b s = true -> single_hyphens b (rstrip p s) = true.
Proof.
  revert b. induction s as [|c r IH]; intros b H; [reflexivity|].
  simpl in H. cbn [rstrip].
  destruct (is_hyphen c) eqn:Hc.
  - apply andb_true_iff in H as [Hb Hr]. specialize (IH _ Hr).
    destruct (rstrip p r) as [|c' r'].
    + destruct (p c); [reflexivity|]. simpl. now rewrite Hc, Hb.
    + cbn [single_hyphens]. rewrite Hc, Hb. exact IH.
  - specialize (IH _ H).
    destruct (rstrip p r) as [|c' r'].
    + destruct (p c); [reflexivity|]. simpl. now rewrite Hc.
    + cbn [single_hyphens]. rewrite Hc. exact IH.
Qed.

Lemma single_take (n : nat) (b : bool) (s : string) :
  single_hyphens b s = true -> single_hyphens b (take n s) = true.
Proof.
  revert b s. induction n as [|n IH]; intros b [|c r] H; try reflexivity.
  simpl in *. destruct (is_hyphen c).
  - apply andb_true_iff in H as [-> Hr]. simpl. now apply IH.
  - now apply IH.
Qed.

Lemma single_no_double (b : bool) (s : string) :
  single_hyphens b s = true -> contains "--" s = false.
Proof.
  revert b. induction s as [|c r IH]; intros b H; [reflexivity|].
  change (contains "--" (String c r)) with (startswith "--" (String c r) || contains "--" r).
  destruct (single_tail _ _ _ H) as [b' H']. rewrite (IH _ H'), orb_false_r.
  cbn [startswith]. rewrite hyphen_eqb. simpl in H.
  destruct (is_hyphen c); [|reflexivity].
  apply andb_true_iff in H as [_ Hr]. destruct r as [|c' r']; [reflexivity|].
  rewrite hyphen_eqb. simpl in Hr. destruct (is_hyphen c'); [discriminate | reflexivity].
Qed.

Lemma lstrip_head (p : ascii -> bool) (s : string) : head_is p (lstrip p s) = false.
Proof.
  induction s as [|c r IH]; [reflexivity|].
  simpl. destruct (p c) eqn:Hc; [exact IH | simpl; exact Hc].
Qed.

Lemma rstrip_head (p : ascii -> bool) (s : string) :
  head_is p s = false -> head_is p (rstrip p s) = false.
Proof.
  destruct s as [|c r]; [reflexivity|]. simpl. intros Hc.
  destruct (rstrip p r); [rewrite Hc|]; simpl; exact Hc.
Qed.

Lemma take_head (p : ascii -> bool) (n : nat) (s : string) :
  head_is p s = false -> head_is p (take n s) = false.
Proof. destruct n, s; simpl; auto. Qed.

Lemma rstrip_last (p : ascii -> bool) (s : string) : last_is p (rstrip p s) = false.
Proof.
  induction s as [|c r IH]; [reflexivity|].
  cbn [rstrip]. destruct (rstrip p r) as [|c' r'].
  - destruct (p c) eqn:Hc; [reflexivity | simpl; exact Hc].
  - exact IH.
Qed.

Lemma take_all (n : nat) (s : string) : String.length s <= n -> take n s = s.
Proof.
  revert s. induction n as [|n IH]; intros [|c r]; simpl; intros H; try reflexivity; [lia|].
  f_equal. apply IH. lia.
Qed.

Lemma take_short (n : nat) (s : string) : String.length (take n s) < n -> take n s = s.
Proof.
  revert s. induction n as [|n IH]; intros [|c r]; simpl; intros H; try reflexivity; [lia|].
  f_equal. apply IH. lia.
Qed.

Lemma rstrip_length (p : ascii -> bool) (s : string) :
  String.length (rstrip p s) <= String.length s.
Proof.
  induction s as [|c r IH]; [reflexivity|].
  cbn [rstrip]. destruct (rstrip p r) as [|c' r'].
  - destruct (p c); simpl in *; lia.
  - simpl in *. lia.
Qed.

Lemma lstrip_fixed (p : ascii -> bool) (s : string) : head_is p s = false -> lstrip p s = s.
Proof. destruct s as [|c r]; simpl; [reflexivity | now intros ->]. Qed.

Lemma rstrip_fixed (p : ascii -> bool) (s : string) : last_is p s = false -> rstrip p s = s.
Proof.
  induction s as [|c r IH]; [reflexivity|].
  intros H. cbn [rstrip]. destruct r as [|c' r'].
  - simpl in *. now rewrite H.
  - rewrite IH by exact H. reflexivity.
Qed.

Lemma keep_fixed (p : ascii -> bool) (s : string) : all_chars p s = true -> keep p s = s.
Proof.
  induction s as [|c r IH]; simpl; [reflexivity|].
  rewrite andb_true_iff. intros [-> Hr]. now rewrite IH.
Qed.

Lemma all_chars_impl (p q : ascii -> bool) (s : string) :
  (forall c, p c = true -> q c = true) -> all_chars p s = true -> all_chars q s = true.
Proof.
  intros Hpq. induction s as [|c r IH]; simpl; [reflexivity|].
  rewrite !andb_true_iff. intros [Hc Hr]. split; [now apply Hpq | now apply IH].
Qed.

Lemma hyphenate_fixed (b : bool) (s : string) :
  all_chars slug_char s = true -> single_hyphens b s = true -> hyphenate b s = s.
Proof.
  revert b. induction s as [|c r IH]; intros b; simpl; [reflexivity|].
  rewrite andb_true_iff. intros [Hc Hr]. rewrite (slug_char_sep c Hc).
  destruct (is_hyphen c) eqn:Hh.
  - rewrite andb_true_iff, negb_true_iff. intros [-> Hs].
    rewrite (is_hyphen_eq c Hh). now rewrite (IH true Hr Hs).
  - intros Hs. now rewrite (IH false Hr Hs).
Qed.

(** *** The three facts about a slug *)

Lemma slugify_single (name : string) : single_hyphens false (slugify name) = true.
Proof.
  unfold slugify, strip. apply single_take, single_rstrip.
  apply (single_lstrip _ false), hyphenate_single.
Qed.

Lemma slugify_head (name : string) : head_is is_hyphen (slugify name) = false.
Proof. unfold slugify, strip. apply take_head, rstrip_head, lstrip_head. Qed.

Lemma slugify_last (name : string) :
  String.length (slugify name) < 50 -> last_is is_hyphen (slugify name) = false.
Proof.
  unfold slugify. intros H. rewrite (take_short _ _ H). unfold strip. apply rstrip_last.
Qed.

Lemma startswith_hyphen (s : string) : startswith "-" s = head_is is_hyphen s.
Proof.
  destruct s as [|c r]; [reflexivity|]. cbn [startswith head_is].
  now rewrite hyphen_eqb, andb_true_r.
Qed.

(** A slug never starts with a hyphen and never holds two hyphens in a row;
    it ends with a hyphen only when the cut at 50 characters fell right
    behind one. *)
Theorem slug_hyphens (name : string) (Hascii : is_ascii name = true) :
  startswith "-" (slugify name) = false
  /\ contains "--" (slugify name) = false
  /\ (String.length (slugify name) < 50 -> last_is is_hyphen (slugify name) = false).
Proof.
  split; [rewrite startswith_hyphen; apply slugify_head|].
  split; [apply (single_no_double false), slugify_single | apply slugify_last].
Qed.

Lemma slug_hyphens_witness :
  is_ascii "--Mind & Language--" = true
  /\ startswith "-" (slugify "--Mind & Language--") = false
  /\ contains "--" (slugify "--Mind & Language--") = false.
Proof.
  split; [reflexivity|].
  pose proof (slug_hyphens "--Mind & Language--" eq_refl) as (H1 & H2 & _).
  split; [exact H1 | exact H2].
Defined.

(** The cut at 50 characters can leave a hyphen at the end. *)
Example slug_cut_behind_hyphen :
  slugify (letters 49 +:+ " b") = letters 49 +:+ "-"
  /\ last_is is_hyphen (slugify (letters 49 +:+ " b")) = true.
Proof. split; reflexivity. Qed.

(** Slugifying a slug strips a hyphen left at the end by the cut and changes
    nothing else; a slug shorter than 50 characters is its own slug. *)
Theorem slugify_again (name : string) (Hascii : is_ascii name = true) :
  slugify (slugify name) = rstrip is_hyphen (slugify name)
  /\ (String.length (slugify name) < 50 -> slugify (slugify name) = slugify name)
  /\ slugify (slugify (slugify name)) = slugify (slugify name).
Proof.
  pose proof (slugify_alphabet name Hascii) as Halpha.
  pose proof (slugify_single name) as Hsingle.
  pose proof (slugify_head name) as Hhead.
  assert (Hlen : String.length (slugify name) <= 50) by apply take_length.
  assert (Hagain : forall s, all_chars slug_char s = true -> single_hyphens false s = true ->
                     head_is is_hyphen s = false -> String.length s <= 50 ->
                     slugify s = rstrip is_hyphen s).
  { intros s Ha Hs Hh Hl. unfold slugify at 1.
    rewrite (lower_fixed s Ha). unfold drop_symbols.
    rewrite (keep_fixed _ s) by (eapply all_chars_impl; [|exact Ha]; apply slug_char_kept).
    rewrite (hyphenate_fixed false s Ha Hs). unfold strip.
    rewrite (lstrip_fixed _ s Hh). apply take_all.
    pose proof (rstrip_length is_hyphen s). lia. }
  split; [now apply Hagain|]. split.
  - intros Hshort. rewrite Hagain by assumption.
    apply rstrip_fixed. now apply slugify_last.
  - rewrite (Hagain (slugify name)) by assumption.
    rewrite Hagain.
    + apply rstrip_fixed, rstrip_last.
    + now apply all_chars_rstrip.
    + now apply single_rstrip.
    + now apply rstrip_head.
    + pose proof (rstrip_length is_hyphen (slugify name)). lia.
Qed.

Lemma slugify_again_witness :
  is_ascii "Health Psychology Review" = true
  /\ slugify (slugify "Health Psychology Review") = slugify "Health Psychology Review".
Proof.
  split; [reflexivity|].
  destruct (slugify_again "Health Psychology Review" eq_refl) as (_ & H & _).
  apply H. vm_compute. lia.
Defined.

(** *** The empty slug *)

Lemma no_word_lower (s : string) : no_word (lower s) = no_word s.
Proof.
  unfold no_word. induction s as [|c r IH]; simpl; [reflexivity|].
  now rewrite lower_char_word, IH.
Qed.

Lemma no_word_keep (p : ascii -> bool) (s : string) :
  (forall c, is_word c = true -> p c = true) -> no_word (keep p s) = no_word s.
Proof.
  intros Hp. unfold no_word. induction s as [|c r IH]; simpl; [reflexivity|].
  destruct (p c) eqn:Hc; simpl; rewrite IH; [reflexivity|].
  destruct (is_word c) eqn:Hw; [|reflexivity]. rewrite (Hp c Hw) in Hc. discriminate.
Qed.

Lemma no_word_hyphenate (b : bool) (s : string) : no_word (hyphenate b s) = no_word s.
Proof.
  unfold no_word. revert b. induction s as [|c r IH]; intros b; simpl; [reflexivity|].
  destruct (is_sep c) eqn:Hs.
  - rewrite (sep_not_word c Hs). simpl. destruct b; simpl; apply IH.
  - simpl. now rewrite IH.
Qed.

Lemma all_chars_hyphenated (b : bool) (s : string) :
  all_chars (fun c => is_word c || is_space c || is_hyphen c) s = true ->
  all_chars (fun c => is_word c || is_hyphen c) (hyphenate b s) = true.
Proof.
  revert b. induction s as [|c r IH]; intros b; simpl; [reflexivity|].
  rewrite andb_true_iff. intros [Hc Hr].
  destruct (is_sep c) eqn:Hs.
  - destruct b; simpl; now apply IH.
  - simpl. rewrite (IH false Hr), andb_true_r.
    unfold is_sep in Hs. apply orb_false_iff in Hs as [Hh Hsp].
    rewrite Hsp, Hh, !orb_false_r in Hc. now rewrite Hc.
Qed.

Lemma all_chars_kept (p : ascii -> bool) (s : string) : all_chars p (keep p s) = true.
Proof.
  induction s as [|c r IH]; simpl; [reflexivity|].
  destruct (p c) eqn:Hc; simpl; [now rewrite Hc|exact IH].
Qed.

Lemma lstrip_empty (p : ascii -> bool) (s : string) :
  lstrip p s = EmptyString <-> all_chars p s = true.
Proof.
  induction s as [|c r IH]; simpl; [easy|].
  destruct (p c); simpl; [exact IH | easy].
Qed.

Lemma rstrip_empty (p : ascii -> bool) (s : string) :
  rstrip p s = EmptyString <-> all_chars p s = true.
Proof.
  induction s as [|c r IH]; [easy|].
  cbn [rstrip all_chars]. destruct (rstrip p r) as [|c' r'] eqn:E.
  - destruct (p c); simpl; [|easy]. split; [intros _; now apply IH | reflexivity].
  - split; [discriminate|]. rewrite andb_true_iff. intros [_ Hr].
    apply IH in Hr. discriminate.
Qed.

Lemma all_chars_lstrip_iff (p : ascii -> bool) (s : string) :
  all_chars p (lstrip p s) = all_chars p s.
Proof.
  induction s as [|c r IH]; simpl; [reflexivity|].
  destruct (p c) eqn:Hc; simpl; [exact IH | now rewrite Hc].
Qed.

Lemma take_empty (n : nat) (s : string) : take (S n) s = EmptyString <-> s = EmptyString.
Proof. destruct s; simpl; easy. Qed.

Lemma hyphens_or_words (s : string) :
  all_chars (fun c => is_word c || is_hyphen c) s = true ->
  all_chars is_hyphen s = no_word s.
Proof.
  unfold no_word. induction s as [|c r IH]; simpl; [reflexivity|].
  rewrite andb_true_iff. intros [Hc Hr]. rewrite (IH Hr). f_equal.
  destruct (is_hyphen c) eqn:Hh.
  - assert (is_sep c = true) as Hs by (unfold is_sep; now rewrite Hh).
    now rewrite (sep_not_word c Hs).
  - rewrite orb_false_r in Hc. now rewrite Hc.
Qed.

(** The slug is empty exactly for a name without any word character: such a
    journal gets the files [.html] and [.txt]. *)
Theorem slugify_empty (name : string) (Hascii : is_ascii name = true) :
  slugify name = EmptyString <-> no_word name = true.
Proof.
  unfold slugify, strip.
  set (h := hyphenate false (drop_symbols (lower name))).
  assert (Hh : all_chars (fun c => is_word c || is_hyphen c) h = true).
  { apply all_chars_hyphenated. unfold drop_symbols. apply all_chars_kept. }
  assert (Hw : no_word h = no_word name).
  { unfold h. rewrite no_word_hyphenate. unfold drop_symbols.
    rewrite no_word_keep by (intros c ->; reflexivity). apply no_word_lower. }
  rewrite take_empty, rstrip_empty, all_chars_lstrip_iff, (hyphens_or_words h Hh), Hw.
  reflexivity.
Qed.

Lemma slugify_empty_witness :
  is_ascii "?! -- (...)" = true /\ no_word "?! -- (...)" = true
  /\ slugify "?! -- (...)" = EmptyString.
Proof.
  split; [reflexivity|]. split; [reflexivity|].
  apply (slugify_empty "?! -- (...)" eq_refl). reflexivity.
Defined.

(** *** Names that collide *)

Lemma lower_twice (s : string) : lower (lower s) = lower s.
Proof. induction s as [|c r IH]; simpl; [reflexivity | now rewrite lower_char_twice, IH]. Qed.

Lemma lower_keep (p : ascii -> bool) (s : string) :
  (forall c, p (lower_char c) = p c) -> lower (keep p s) = keep p (lower s).
Proof.
  intros Hp. induction s as [|c r IH]; simpl; [reflexivity|].
  rewrite Hp. destruct (p c); simpl; now rewrite IH.
Qed.

Lemma keep_twice (p : ascii -> bool) (s : string) : keep p (keep p s) = keep p s.
Proof. apply keep_fixed, all_chars_kept. Qed.

(** The slug does not see the case of the letters nor the characters the
    first substitution drops: names that differ only in these get one slug,
    and so one pair of files. *)
Theorem slugify_collisions (name : string) (Hascii : is_ascii name = true) :
  slugify (lower name) = slugify name
  /\ slugify (drop_symbols name) = slugify name.
Proof.
  split; [unfold slugify; now rewrite lower_twice|].
  unfold slugify, drop_symbols. rewrite lower_keep, keep_twice; [reflexivity|].
  intros c. now rewrite lower_char_word, lower_char_space, lower_char_hyphen.
Qed.

Lemma slugify_collisions_witness :
  is_ascii "Mind & Language" = true
  /\ slugify "mind & language" = slugify "Mind & Language"
  /\ slugify "Mind  Language" = slugify "Mind & Language".
Proof.
  split; [reflexivity|].
  destruct (slugify_collisions "Mind & Language" eq_refl) as [H1 H2].
  split; [exact H1 | exact H2].
Defined.

End SlugShape.

(** ** The two extractors side by side, and the edges of the extracted text *)

Module ExtractCompose.
Import PyStr Slug Extract SlugShape.

(** A string of the document that [get_text] drops: nothing is left of it
    once stripped. *)
Definition blank (s : string) : bool := negb (truthy (strip is_space s)).

(** *** Removing elements in two passes *)

Lemma named_in_app (t1 t2 : list string) (name : string) :
  named_in (t1 ++ t2) name = named_in t1 name || named_in t2 name.
Proof. unfold named_in. apply List.existsb_app. Qed.

Lemma visible_two_pass (t1 t2 : list string) (n : node) :
  visible (t1 ++ t2) n = List.flat_map (visible t1) (decompose t2 n).
Proof.
  induction n as [s|s|name attrs kids IH] using node_nested_ind; simpl; try reflexivity.
  rewrite named_in_app.
  destruct (named_in t2 name); [now rewrite orb_true_r|].
  rewrite orb_false_r. simpl. rewrite List.app_nil_r.
  destruct (named_in t1 name); [reflexivity|].
  rewrite flat_map_flat_map. now apply flat_map_ext_Forall.
Qed.

Lemma text_two_pass (t1 t2 : list string) (soup : list node) :
  text_of_soup (t1 ++ t2) soup = text_of_soup t1 (decompose_all t2 soup).
Proof.
  rewrite !text_of_soup_visible. do 4 f_equal.
  unfold decompose_all. rewrite flat_map_flat_map.
  apply flat_map_ext_Forall, Forall_forall. intros n _. apply visible_two_pass.
Qed.

(** The extractor of the Playwright script is the tier-1 extractor run on the
    document without its noscript elements; and for any two tag lists,
    removing the elements in two passes gives the text of one pass, in either
    order. *)
Theorem direct_extract_is_tier1_after_noscript (parse : string -> list node) (html : string) :
  extract_text_direct parse html
  = text_of_soup STRIP_TAGS (decompose_all ["noscript"] (parse html))
  /\ (forall t1 t2 soup,
        text_of_soup (t1 ++ t2) soup = text_of_soup t1 (decompose_all t2 soup)
        /\ text_of_soup t1 (decompose_all t2 soup) = text_of_soup t2 (decompose_all t1 soup)).
Proof.
  split; [apply (text_two_pass STRIP_TAGS ["noscript"])|].
  - intros t1 t2 soup. split; [apply text_two_pass|].
    rewrite <- !text_two_pass, !text_of_soup_visible. do 4 f_equal.
    apply flat_map_ext_Forall, Forall_forall. intros n _.
    induction n as [s|s|name attrs kids IH] using node_nested_ind; simpl; try reflexivity.
    rewrite !named_in_app, orb_comm.
    destruct (named_in t2 name || named_in t1 name); [reflexivity|].
    now apply flat_map_ext_Forall.
Qed.

(** *** The edges of the extracted text *)

Lemma newline_is_space (c : ascii) : is_newline c = true -> is_space c = true.
Proof. each_char c. Qed.

Lemma last_is_cons (p : ascii -> bool) (c : ascii) (s : string) :
  s <> EmptyString -> last_is p (String c s) = last_is p s.
Proof. destruct s; [contradiction | reflexivity]. Qed.

Lemma strip_edges (p : ascii -> bool) (s : string) :
  head_is p (strip p s) = false /\ last_is p (strip p s) = false.
Proof.
  unfold strip. split; [apply rstrip_head, lstrip_head | apply rstrip_last].
Qed.

(** A string with clean edges: not empty, no [p] at either end. *)
Definition trimmed (p : ascii -> bool) (s : string) : Prop :=
  s <> EmptyString /\ head_is p s = false /\ last_is p s = false.

Lemma pieces_trimmed (l : list string) :
  Forall (trimmed is_space) (List.filter truthy (List.map (strip is_space) l)).
Proof.
  induction l as [|x l IH]; simpl; [constructor|].
  destruct (truthy (strip is_space x)) eqn:E; [|exact IH].
  constructor; [|exact IH].
  destruct (strip_edges is_space x) as [Hh Hl].
  split; [|now split]. intros H0. rewrite H0 in E. discriminate.
Qed.

Lemma append_nonempty (a b : string) : a <> EmptyString -> a +:+ b <> EmptyString.
Proof. destruct a; [contradiction | discriminate]. Qed.

Lemma head_append (p : ascii -> bool) (a b : string) :
  a <> EmptyString -> head_is p (a +:+ b) = head_is p a.
Proof. destruct a; [contradiction | reflexivity]. Qed.

Lemma last_append (p : ascii -> bool) (a b : string) :
  b <> EmptyString -> last_is p (a +:+ b) = last_is p b.
Proof.
  intros Hb. induction a as [|c a IH]; [reflexivity|].
  change (String c a +:+ b) with (String c (a +:+ b)).
  rewrite last_is_cons; [exact IH|].
  destruct a; [exact Hb | discriminate].
Qed.

Lemma join_trimmed (p : ascii -> bool) (sep : string) (l : list string) :
  l <> [] -> Forall (trimmed p) l -> trimmed p (join sep l).
Proof.
  intros Hne Hall. induction Hall as [|x l Hx Hl IH]; [contradiction|].
  destruct l as [|y l]; [exact Hx|].
  change (join sep (x :: y :: l)) with (x +:+ sep +:+ join sep (y :: l)).
  destruct Hx as (Hx0 & Hxh & _). destruct (IH ltac:(discriminate)) as (Hj0 & _ & Hjl).
  split; [now apply append_nonempty|]. split.
  - now rewrite head_append.
  - rewrite last_append; [|destruct sep; [exact Hj0 | discriminate]].
    destruct sep as [|c sep]; [exact Hjl|].
    change (String c sep +:+ join sep (y :: l)) with (String c sep +:+ join sep (y :: l)).
    now rewrite last_append.
Qed.

Lemma squeeze_head (p : ascii -> bool) (s : string) :
  head_is p (squeeze 0 s) = head_is p s.
Proof. destruct s as [|c r]; [reflexivity|]. simpl. now destruct (is_newline c). Qed.

Lemma squeeze_last (p : ascii -> bool) (s : string) :
  forall k, last_is (fun c => negb (is_newline c)) s = true ->
  last_is p (squeeze k s) = last_is p s /\ squeeze k s <> EmptyString.
Proof.
  induction s as [|c r IH]; intros k H; [discriminate|].
  destruct r as [|c' r'].
  - simpl in H. apply negb_true_iff in H. simpl. rewrite H. split; [reflexivity | discriminate].
  - change (last_is (fun c => negb (is_newline c)) (String c' r') = true) in H.
    change (last_is p (String c (String c' r'))) with (last_is p (String c' r')).
    cbn [squeeze]. fold (squeeze (S k) (String c' r')). fold (squeeze 0 (String c' r')).
    destruct (is_newline c); [destruct (k <? 2)|].
    + destruct (IH (S k) H) as [E Hne]. rewrite last_is_cons by exact Hne.
      split; [exact E | discriminate].
    + exact (IH (S k) H).
    + destruct (IH 0 H) as [E Hne]. rewrite last_is_cons by exact Hne.
      split; [exact E | discriminate].
Qed.

Lemma last_not_space (s : string) :
  s <> EmptyString -> last_is is_space s = false ->
  last_is (fun c => negb (is_newline c)) s = true.
Proof.
  induction s as [|c r IH]; [contradiction|]. intros _ H.
  destruct r as [|c' r'].
  - simpl in *. destruct (is_newline c) eqn:E; [|reflexivity].
    rewrite (newline_is_space c E) in H. discriminate.
  - apply IH; [discriminate | exact H].
Qed.

Lemma text_of_soup_trimmed (tags : list string) (soup : list node) :
  text_of_soup tags soup = EmptyString \/ trimmed is_space (text_of_soup tags soup).
Proof.
  rewrite text_of_soup_visible.
  pose proof (pieces_trimmed (List.flat_map (visible tags) soup)) as Hall.
  destruct (List.filter truthy _) as [|x pieces]; [now left|]. right.
  destruct (join_trimmed is_space (String newline EmptyString) (x :: pieces)
              ltac:(discriminate) Hall) as (Hj0 & Hjh & Hjl).
  destruct (squeeze_last is_space _ 0 (last_not_space _ Hj0 Hjl)) as [El Hs0].
  split; [exact Hs0|]. split; [now rewrite squeeze_head | now rewrite El].
Qed.

Lemma filter_blank (l : list string) :
  List.filter truthy (List.map (strip is_space) l) = [] <-> Forall (fun s => blank s = true) l.
Proof.
  unfold blank. induction l as [|x l IH]; simpl; [split; [constructor | reflexivity]|].
  destruct (truthy (strip is_space x)) eqn:E.
  - split; [discriminate|]. intros H. inversion H as [|? ? Hx _]. rewrite E in Hx. discriminate.
  - rewrite IH. split; [intros H; constructor; [now rewrite E | exact H] | intros H; now inversion H].
Qed.


End ExtractCompose.

(** ** Tier 1 as a whole run: links, requests, files and the summary *)

Module Tier1Run.
Import PyStr Extract Ledger Tier1.

(** The test [find_guidelines_link] makes on one link: a keyword in the
    lowercased link text, or a guideline path in the lowercased [href]. *)
Definition link_matches (link : string * string) : bool :=
  has_keyword (lower (snd link)) || has_guideline_path (fst link).

(** The row has a homepage URL to try. *)
Definition has_url (r : row) : bool := negb (no_homepage (row_homepage_url r)).

(** [sum(1 for r in results if r["status"] == s)] *)
Definition count_status (s : string) (results : list entry) : nat :=
  List.length (List.filter (fun r => String.eqb (status r) s) results).

(** What [main] prints in its summary and dumps to [LOG_FILE]. *)
Record report : Type := Report {
  n_success : nat;
  n_needs_browser : nat;
  n_no_url : nat;
  n_journals : nat;
  log_file : list entry
}.

Section WithWorld.
Variable parse : string -> list node.
Variable urljoin : string -> string -> string.
Variable origin : string -> string.
Variable get : nat -> string -> fetched.

(** [main] of [03_scrape_guidelines.py].  [input_file] is the content of
    [INPUT_FILE] as [pd.read_csv] gives it, [None] when the file does not
    exist; then nothing is scraped and no log is written. *)
Definition main (input_file : option (list row)) (fs : files) : option report * files :=
  match input_file with
  | None => (None, fs)
  | Some df =>
      let '(results, fs') := scrape_journals parse urljoin origin get df fs in
      (Some (Report (count_status "success" results)
                    (count_status "needs_browser" results)
                    (count_status "no_url" results)
                    (List.length df)
                    results),
       fs')
  end.

(** Every text file has its HTML file beside it and is the extract of it. *)
Definition paired (fs : files) : Prop :=
  forall s t, text_dir fs !! s = Some t ->
    exists html, html_dir fs !! s = Some html /\ t = extract_text parse html.

(** Request number [i] of the run went to [u] and was answered by [resp]. *)
Definition answered (log : list string) (i : nat) (u : string) (resp : response) : Prop :=
  log !! i = Some u /\ get i u = Got resp.

(** The tuple a call returns, against the requests [log'] it has made from
    request number [n0] on: the text is the extract of the markup, the markup
    is the body of an answered request of the call, and the URL returned is
    the homepage URL or the very URL that was answered 200 with this markup. *)
Definition from_this_call (n0 : nat) (homepage_url : string) (log' : list string)
    (found : string * string * string) : Prop :=
  let '(html, text_, guidelines_url) := found in
  text_ = extract_text parse html
  /\ (exists i u resp, n0 <= i /\ answered log' i u resp /\ text resp = html)
  /\ (guidelines_url = homepage_url
      \/ exists i resp, n0 <= i /\ answered log' i guidelines_url resp
                        /\ status_code resp = 200 /\ text resp = html).

End WithWorld.

(** *** Concrete worlds *)

(** A page with two links; only the second one matches, by its text. *)
Definition two_links : list node :=
  [Element "body" []
     [Element "a" [("href", "/about")] [Text "About the journal"];
      Element "p" [] [Element "a" [("href", "/info")] [Text "Instructions for "; Text "Authors"]];
      Element "a" [("href", "/for-authors")] [Text "Submit"]]].

Definition concat_url (base href : string) : string := base +:+ href.

(** *** The candidate link *)

Lemma find_first {A : Type} (f : A -> bool) (l : list A) (x : A) :
  List.find f l = Some x ->
  exists before after, l = before ++ x :: after
                       /\ Forall (fun y => f y = false) before /\ f x = true.
Proof.
  induction l as [|a l IH]; simpl; [discriminate|].
  destruct (f a) eqn:Ha.
  - intros [= ->]. exists [], l. repeat split; [constructor | exact Ha].
  - intros H. destruct (IH H) as (before & after & -> & Hb & Hx).
    exists (a :: before), after. repeat split; [constructor; assumption | exact Hx].
Qed.

Lemma find_nothing {A : Type} (f : A -> bool) (l : list A) :
  List.find f l = None <-> Forall (fun y => f y = false) l.
Proof.
  induction l as [|a l IH]; simpl; [split; [constructor | reflexivity]|].
  destruct (f a) eqn:Ha.
  - split; [discriminate|]. intros H. inversion H as [|? ? Hf _]. congruence.
  - rewrite IH. split; [intros H; now constructor | intros H; now inversion H].
Qed.

(** [find_guidelines_link] returns the first link of the page, in document
    order, whose text holds a keyword (in any case) or whose [href] holds a
    guideline path (in any case), joined to the base URL; it returns [None]
    exactly when no link with an [href] matches. *)
Theorem first_matching_link_wins (parse : string -> list node)
    (urljoin : string -> string -> string) (html base_url : string) :
  let links := List.flat_map anchors (parse html) in
  (find_guidelines_link parse urljoin html base_url = None
   <-> Forall (fun link => link_matches link = false) links)
  /\ (forall found, find_guidelines_link parse urljoin html base_url = Some found ->
        exists before link after,
          links = before ++ link :: after
          /\ Forall (fun l => link_matches l = false) before
          /\ link_matches link = true
          /\ found = urljoin base_url (fst link)).
Proof.
  intros links. unfold find_guidelines_link. fold links.
  change (fun link : string * string =>
            has_keyword (lower (snd link)) || has_guideline_path (fst link))
    with link_matches.
  destruct (List.find link_matches links) as [link|] eqn:E.
  - split.
    + split; [discriminate|]. intros H. apply find_nothing in H. congruence.
    + intros found [= <-]. destruct (find_first _ _ _ E) as (before & after & Hl & Hb & Hm).
      now exists before, link, after.
  - split.
    + split; [intros _; now apply find_nothing | reflexivity].
    + intros found H. discriminate.
Qed.

Example first_matching_link_example :
  find_guidelines_link (fun _ => two_links) concat_url "<body>...</body>" "https://j.example"
  = Some "https://j.example/info".
Proof. reflexivity. Qed.

Section RunFacts.
Variable parse : string -> list node.
Variable urljoin : string -> string -> string.
Variable origin : string -> string.
Variable get : nat -> string -> fetched.

Abbreviation try_paths := (try_paths parse get).
Abbreviation paths_then_fallback := (paths_then_fallback parse origin get).
Abbreviation scrape_journal_http := (scrape_journal_http parse urljoin origin get).
Abbreviation scrape_row := (scrape_row parse urljoin origin get).
Abbreviation scrape_rows := (scrape_rows parse urljoin origin get).
Abbreviation scrape_journals := (scrape_journals parse urljoin origin get).
Abbreviation answered := (answered get).
Abbreviation paired := (paired parse).
Abbreviation from_this_call := (from_this_call parse get).

(** *** The requests of a call *)

Lemma try_paths_requests (base : string) (paths : list string) (resp : response)
    (log : list string) :
  exists reqs,
    snd (try_paths base paths resp log) = log ++ reqs
    /\ List.length reqs <= List.length paths.
Proof.
  revert resp log. induction paths as [|path rest IH]; intros resp log.
  - exists []. simpl. split; [now rewrite app_nil_r | lia].
  - assert (Hrest : forall resp1, exists reqs,
              snd (try_paths base rest resp1 (log ++ [base +:+ path])) = log ++ reqs
              /\ List.length reqs <= List.length (path :: rest)).
    { intros resp1. destruct (IH resp1 (log ++ [base +:+ path])) as (reqs & E & Hlen).
      exists ((base +:+ path) :: reqs). rewrite E, <- app_assoc. simpl. split; [reflexivity | lia]. }
    simpl. destruct (get (List.length log) (base +:+ path)) as [resp1|]; [|apply Hrest].
    destruct ((status_code resp1 =? 200) && has_keyword (lower (text resp1))); [|apply Hrest].
    exists [base +:+ path]. simpl. split; [reflexivity | lia].
Qed.

Lemma fallback_requests (homepage_url : string) (resp : response) (log : list string) :
  exists reqs,
    snd (paths_then_fallback homepage_url resp log) = log ++ reqs
    /\ List.length reqs <= 9.
Proof.
  unfold Tier1.paths_then_fallback.
  destruct (try_paths_requests (origin homepage_url) GUIDELINES_PATHS resp log)
    as (reqs & E & Hlen).
  exists reqs. split; [|exact Hlen].
  destruct (try_paths (origin homepage_url) GUIDELINES_PATHS resp log) as [[[found|] resp'] log'];
    exact E.
Qed.

Lemma http_requests (log : list string) (homepage_url journal_name : string) :
  exists reqs,
    snd (scrape_journal_http log homepage_url journal_name) = log ++ homepage_url :: reqs
    /\ List.length reqs <= 10.
Proof.
  assert (Hnone : exists reqs : list string,
            log ++ [homepage_url] = log ++ homepage_url :: reqs /\ List.length reqs <= 10).
  { exists []. split; [reflexivity | simpl; lia]. }
  assert (Hfall : forall resp, exists reqs,
            snd (paths_then_fallback homepage_url resp (log ++ [homepage_url]))
            = log ++ homepage_url :: reqs /\ List.length reqs <= 10).
  { intros resp. destruct (fallback_requests homepage_url resp (log ++ [homepage_url]))
      as (reqs & E & Hlen).
    exists reqs. rewrite E, <- app_assoc. split; [reflexivity | lia]. }
  unfold Tier1.scrape_journal_http.
  destruct (get (List.length log) homepage_url) as [resp|]; [|exact Hnone].
  destruct (status_code resp =? 403); [exact Hnone|].
  destruct (negb (status_code resp =? 200)); [exact Hnone|].
  destruct (find_guidelines_link parse urljoin (text resp) homepage_url) as [link|];
    [|apply Hfall].
  destruct (truthy link); [|apply Hfall].
  assert (Hlink : exists reqs : list string,
            (log ++ [homepage_url]) ++ [link] = log ++ homepage_url :: reqs
            /\ List.length reqs <= 10).
  { exists [link]. rewrite <- app_assoc. split; [reflexivity | simpl; lia]. }
  destruct (get (List.length (log ++ [homepage_url])) link) as [resp1|]; [|exact Hlink].
  destruct (status_code resp1 =? 200); [exact Hlink|].
  destruct (fallback_requests homepage_url resp1 ((log ++ [homepage_url]) ++ [link]))
    as (reqs & E & Hlen).
  exists (link :: reqs). rewrite E, <- !app_assoc. split; [reflexivity | simpl; lia].
Qed.

Lemma row_requests (r : row) (fs : files) (log : list string) :
  exists reqs,
    snd (scrape_row r fs log) = log ++ reqs
    /\ List.length reqs <= (if has_url r then 11 else 0).
Proof.
  unfold Tier1.scrape_row, has_url.
  destruct (no_homepage (row_homepage_url r)); simpl.
  - exists []. split; [now rewrite app_nil_r | simpl; lia].
  - destruct (http_requests log (default "" (row_homepage_url r)) (title r))
      as (reqs & E & Hlen).
    exists (default "" (row_homepage_url r) :: reqs).
    destruct (scrape_journal_http log (default "" (row_homepage_url r)) (title r))
      as [[[[html text] gurl]|] log']; simpl in *; (split; [exact E | lia]).
Qed.

Lemma rows_requests (rows : list row) (fs : files) (log : list string) :
  exists reqs,
    snd (scrape_rows rows fs log) = log ++ reqs
    /\ List.length reqs <= 11 * List.length (List.filter has_url rows).
Proof.
  revert fs log. induction rows as [|r rest IH]; intros fs log.
  - exists []. simpl. split; [now rewrite app_nil_r | lia].
  - destruct (row_requests r fs log) as (reqs0 & E0 & Hlen0).
    simpl. destruct (scrape_row r fs log) as [[result fs1] log1]. simpl in E0. subst log1.
    destruct (IH fs1 (log ++ reqs0)) as (reqs1 & E1 & Hlen1).
    destruct (scrape_rows rest fs1 (log ++ reqs0)) as [[results fs2] log2]. simpl in *.
    subst log2. exists (reqs0 ++ reqs1). rewrite <- app_assoc. split; [reflexivity|].
    rewrite List.length_app. destruct (has_url r); simpl in *; lia.
Qed.


(** *** Where a result comes from *)

Lemma answered_later (log reqs : list string) (i : nat) (u : string) (resp : response) :
  answered log i u resp -> answered (log ++ reqs) i u resp.
Proof. intros [Hi Hg]. split; [|exact Hg]. now apply lookup_app_l_Some. Qed.

Lemma answered_now (log : list string) (u : string) (resp : response) :
  get (List.length log) u = Got resp -> answered (log ++ [u]) (List.length log) u resp.
Proof.
  intros Hg. split; [|exact Hg]. rewrite lookup_app_r by reflexivity.
  now rewrite Nat.sub_diag.
Qed.

Lemma try_paths_result (base : string) (paths : list string) (n0 : nat) (homepage_url : string) :
  forall (resp : response) (log : list string),
  n0 <= List.length log ->
  (exists i u, n0 <= i /\ answered log i u resp) ->
  match try_paths base paths resp log with
  | (Some found, _, log') => from_this_call n0 homepage_url log' found
  | (None, resp', log') => exists i u, n0 <= i /\ answered log' i u resp'
  end.
Proof.
  induction paths as [|path rest IH]; intros resp log Hn0 Hresp; [exact Hresp|].
  simpl. destruct (get (List.length log) (base +:+ path)) as [resp1|] eqn:Eg.
  - destruct ((status_code resp1 =? 200) && has_keyword (lower (text resp1))) eqn:Eok.
    + apply andb_true_iff in Eok as [E200 _]. apply Nat.eqb_eq in E200.
      pose proof (answered_now log _ _ Eg) as Ha.
      split; [reflexivity|]. split.
      * now exists (List.length log), (base +:+ path), resp1.
      * right. now exists (List.length log), resp1.
    + apply IH.
      * rewrite List.length_app. simpl. lia.
      * exists (List.length log), (base +:+ path). split; [exact Hn0|].
        now apply answered_now.
  - apply IH.
    + rewrite List.length_app. simpl. lia.
    + destruct Hresp as (i & u & Hi & Ha). exists i, u. split; [exact Hi|].
      now apply answered_later.
Qed.

Lemma fallback_result (n0 : nat) (homepage_url : string) (resp : response)
    (log : list string) :
  n0 <= List.length log ->
  (exists i u, n0 <= i /\ answered log i u resp) ->
  match paths_then_fallback homepage_url resp log with
  | (Some found, log') => from_this_call n0 homepage_url log' found
  | (None, _) => False
  end.
Proof.
  intros Hn0 Hresp. unfold Tier1.paths_then_fallback.
  pose proof (try_paths_result (origin homepage_url) GUIDELINES_PATHS n0 homepage_url
                resp log Hn0 Hresp) as H.
  destruct (try_paths (origin homepage_url) GUIDELINES_PATHS resp log)
    as [[[found|] resp'] log']; [exact H|].
  destruct H as (i & u & Hi & Ha).
  split; [reflexivity|]. split; [now exists i, u, resp' | now left].
Qed.

Lemma http_result (log : list string) (homepage_url journal_name : string) :
  match scrape_journal_http log homepage_url journal_name with
  | (Some found, log') => from_this_call (List.length log) homepage_url log' found
  | (None, _) => True
  end.
Proof.
  unfold Tier1.scrape_journal_http.
  destruct (get (List.length log) homepage_url) as [resp|] eqn:Eg; [|exact I].
  destruct (status_code resp =? 403); [exact I|].
  destruct (negb (status_code resp =? 200)); [exact I|].
  assert (Hlen : List.length log <= List.length (log ++ [homepage_url])).
  { rewrite List.length_app. lia. }
  assert (Hfall : match paths_then_fallback homepage_url resp (log ++ [homepage_url]) with
                  | (Some found, log') =>
                      from_this_call (List.length log) homepage_url log' found
                  | (None, _) => True
                  end).
  { pose proof (fallback_result (List.length log) homepage_url resp (log ++ [homepage_url])
                  Hlen) as H.
    destruct (paths_then_fallback homepage_url resp (log ++ [homepage_url])) as [[found|] log'];
      [|exact I].
    apply H. exists (List.length log), homepage_url. split; [lia | now apply answered_now]. }
  destruct (find_guidelines_link parse urljoin (text resp) homepage_url) as [link|];
    [|exact Hfall].
  destruct (truthy link); [|exact Hfall].
  destruct (get (List.length (log ++ [homepage_url])) link) as [resp1|] eqn:Eg1; [|exact I].
  pose proof (answered_now (log ++ [homepage_url]) _ _ Eg1) as Ha.
  destruct (status_code resp1 =? 200) eqn:E200.
  - apply Nat.eqb_eq in E200. split; [reflexivity|]. split.
    + exists (List.length (log ++ [homepage_url])), link, resp1. now split.
    + right. exists (List.length (log ++ [homepage_url])), resp1. now split.
  - pose proof (fallback_result (List.length log) homepage_url resp1
                  ((log ++ [homepage_url]) ++ [link])) as H.
    destruct (paths_then_fallback homepage_url resp1 ((log ++ [homepage_url]) ++ [link]))
      as [[found|] log']; [|exact I].
    apply H.
    + rewrite !List.length_app. lia.
    + exists (List.length (log ++ [homepage_url])), link. split; [exact Hlen | exact Ha].
Qed.

(** What [scrape_journal_http] returns was fetched in this very call: the
    text is the extract of the markup returned, the markup is the body of a
    request the call made and got answered, and a guidelines URL other than
    the homepage URL is the URL that was answered 200 with that markup. *)
Theorem http_result_provenance (log : list string) (homepage_url journal_name : string)
    (html text_ guidelines_url : string) (log' : list string)
    (Hrun : scrape_journal_http log homepage_url journal_name
            = (Some (html, text_, guidelines_url), log')) :
  text_ = extract_text parse html
  /\ (exists i u resp,
        List.length log <= i /\ log' !! i = Some u /\ get i u = Got resp /\ text resp = html)
  /\ (guidelines_url = homepage_url
      \/ exists i resp,
           List.length log <= i /\ log' !! i = Some guidelines_url
           /\ get i guidelines_url = Got resp
           /\ status_code resp = 200 /\ text resp = html).
Proof.
  pose proof (http_result log homepage_url journal_name) as H. rewrite Hrun in H.
  destruct H as (Ht & (i & u & resp & Hi & [Hl Hg] & Hb) & Hurl).
  split; [exact Ht|]. split; [now exists i, u, resp|].
  destruct Hurl as [-> | (j & resp' & Hj & [Hl' Hg'] & H200 & Hb')]; [now left|].
  right. now exists j, resp'.
Qed.

(** *** The two files of a record *)

Lemma scrape_row_paired (r : row) (fs : files) (log : list string) :
  paired fs ->
  let '(e, fs', _) := scrape_row r fs log in
  paired fs'
  /\ (forall s, is_Some (text_dir fs !! s) -> is_Some (text_dir fs' !! s))
  /\ (forall s, is_Some (html_dir fs !! s) -> is_Some (html_dir fs' !! s))
  /\ (status e = "success" ->
      exists html, html_dir fs' !! slug e = Some html
                   /\ text_dir fs' !! slug e = Some (extract_text parse html)).
Proof.
  intros Hp. unfold Tier1.scrape_row.
  destruct (no_homepage (row_homepage_url r)); [now repeat split|].
  pose proof (http_result log (default "" (row_homepage_url r)) (title r)) as H.
  destruct (scrape_journal_http log (default "" (row_homepage_url r)) (title r))
    as [[[[html text_] gurl]|] log']; [|now repeat split].
  destruct H as (-> & _). simpl. split; [|split; [|split]].
  - intros s t. simpl.
    destruct (decide (Slug.slugify (title r) = s)) as [<-|Hne].
    + rewrite !lookup_insert_eq. intros [= <-]. now exists html.
    + rewrite !lookup_insert_ne by exact Hne. apply Hp.
  - intros s Hs. destruct (decide (Slug.slugify (title r) = s)) as [<-|Hne].
    + rewrite lookup_insert_eq. eauto.
    + now rewrite lookup_insert_ne.
  - intros s Hs. destruct (decide (Slug.slugify (title r) = s)) as [<-|Hne].
    + rewrite lookup_insert_eq. eauto.
    + now rewrite lookup_insert_ne.
  - intros _. exists html. now rewrite !lookup_insert_eq.
Qed.

(** Tier 1 keeps the two directories in step, also when slugs collide: if
    every text file was the extract of its HTML file before the run, it is so
    after it; no file is removed; and the files written for a success record
    are a markup and its extract (later rows of the same slug may have
    replaced them by their own pair). *)
Theorem html_and_text_in_step (rows : list row) (fs : files)
    (Hbefore : paired fs) :
  let '(results, fs') := scrape_journals rows fs in
  paired fs'
  /\ (forall s, is_Some (text_dir fs !! s) -> is_Some (text_dir fs' !! s))
  /\ (forall s, is_Some (html_dir fs !! s) -> is_Some (html_dir fs' !! s))
  /\ (forall e, e ∈ results -> status e = "success" ->
        exists html, html_dir fs' !! slug e = Some html
                     /\ text_dir fs' !! slug e = Some (extract_text parse html)).
Proof.
  unfold Tier1.scrape_journals.
  assert (H : forall rows fs log, paired fs ->
            let '(results, fs', _) := scrape_rows rows fs log in
            paired fs'
            /\ (forall s, is_Some (text_dir fs !! s) -> is_Some (text_dir fs' !! s))
            /\ (forall s, is_Some (html_dir fs !! s) -> is_Some (html_dir fs' !! s))
            /\ (forall e, e ∈ results -> status e = "success" ->
                  exists html, html_dir fs' !! slug e = Some html
                               /\ text_dir fs' !! slug e = Some (extract_text parse html))).
  { clear. intros rows. induction rows as [|r rest IH]; intros fs log Hp.
    - simpl. repeat split; auto. intros e He. now apply elem_of_nil in He.
    - simpl. pose proof (scrape_row_paired r fs log Hp) as H0.
      destruct (scrape_row r fs log) as [[e fs1] log1].
      destruct H0 as (Hp1 & Ht1 & Hh1 & He1).
      specialize (IH fs1 log1 Hp1).
      destruct (scrape_rows rest fs1 log1) as [[results fs2] log2].
      destruct IH as (Hp2 & Ht2 & Hh2 & He2).
      split; [exact Hp2|]. split; [auto|]. split; [auto|].
      intros e' He' Hs. apply elem_of_cons in He' as [->|He']; [|now apply He2].
      destruct (He1 Hs) as (html & Hh & Ht).
      destruct (Ht2 (slug e) (ex_intro _ _ Ht)) as [t' Ht'].
      destruct (Hp2 _ _ Ht') as (html' & Hh' & ->).
      now exists html'. }
  specialize (H rows fs [] Hbefore).
  destruct (scrape_rows rows fs []) as [[results fs'] log']. exact H.
Qed.

(** *** The summary of [main] *)

Lemma counts_add_up (results : list entry) :
  Forall tier1_record results ->
  count_status "success" results + count_status "needs_browser" results
  + count_status "no_url" results = List.length results.
Proof.
  unfold count_status. induction 1 as [|e l He _ IH]; [reflexivity|].
  destruct He as ([Hs | [Hs | Hs]] & _); simpl; rewrite Hs; simpl; lia.
Qed.


End RunFacts.

(** *** The run in the concrete worlds *)

Lemma http_result_provenance_witness :
  scrape_journal_http text_parser same_url id_origin (homepage_then_404 "Aims and scope")
    [] "https://hpr.example" "Health Psychology Review"
  = (Some ("Not Found", "Not Found", "https://hpr.example"),
     "https://hpr.example" :: List.map (fun path => "https://hpr.example" +:+ path) GUIDELINES_PATHS)
  /\ exists i u resp,
       (List.map (fun path => "https://hpr.example" +:+ path) GUIDELINES_PATHS) !! i = Some u
       /\ homepage_then_404 "Aims and scope" (S i) u = Got resp
       /\ text resp = "Not Found".
Proof.
  split; [reflexivity|].
  destruct (http_result_provenance text_parser same_url id_origin
              (homepage_then_404 "Aims and scope") [] "https://hpr.example"
              "Health Psychology Review" "Not Found" "Not Found" "https://hpr.example"
              _ eq_refl)
    as (_ & (i & u & resp & Hi & Hl & Hg & Hb) & _).
  destruct i as [|i].
  - simpl in Hl. injection Hl as <-. vm_compute in Hg. injection Hg as <-. discriminate.
  - exists i, u, resp. now split.
Defined.

Lemma html_and_text_in_step_witness :
  paired text_parser (Files ∅ ∅)
  /\ paired text_parser
       (snd (scrape_journals text_parser same_url id_origin (only_homepage "Aims and scope")
               [hpr] (Files ∅ ∅))).
Proof.
  assert (H0 : paired text_parser (Files ∅ ∅)).
  { intros s t H. simpl in H. now rewrite lookup_empty in H. }
  split; [exact H0|].
  pose proof (html_and_text_in_step text_parser same_url id_origin
                (only_homepage "Aims and scope") [hpr] (Files ∅ ∅) H0) as H.
  destruct (scrape_journals text_parser same_url id_origin (only_homepage "Aims and scope")
              [hpr] (Files ∅ ∅)) as [results fs'].
  exact (proj1 H).
Defined.

End Tier1Run.

(** ** What each later stage does to the files and to the records *)

Module StageEffects.
Import PyStr Extract Ledger Stages.

(** The keys of a ledger record. *)
Inductive field : Type :=
  | JournalName
  | Slug_
  | HomepageUrl
  | GuidelinesUrl
  | Status
  | Method
  | TextLength
  | Error
  | AdditionalLinksFetched.

(** The record [e'] has under key [f] what [e] has. *)
Definition same_at (f : field) (e e' : entry) : Prop :=
  match f with
  | JournalName => journal_name e' = journal_name e
  | Slug_ => slug e' = slug e
  | HomepageUrl => homepage_url e' = homepage_url e
  | GuidelinesUrl => guidelines_url e' = guidelines_url e
  | Status => status e' = status e
  | Method => method e' = method e
  | TextLength => text_length e' = text_length e
  | Error => error e' = error e
  | AdditionalLinksFetched => additional_links_fetched e' = additional_links_fetched e
  end.

(** The keys the "Update log" block of each stage assigns. *)
Definition writes (s : stage) : list field :=
  match s with
  | Browser => [Status; Method; TextLength; GuidelinesUrl; Error]
  | Direct => [Status; Method; TextLength; GuidelinesUrl]
  | FollowLinks => [TextLength; AdditionalLinksFetched]
  | FixElsevier => [GuidelinesUrl; TextLength; Method]
  | FixKarger | FixRemaining => [GuidelinesUrl; TextLength; Method; Error]
  end.

(** What a stage may have made of a record: keys it does not assign are as
    before, and a status that changed is now success. *)
Definition rewritten_by (s : stage) (e e' : entry) : Prop :=
  (forall f, f ∉ writes s -> same_at f e e')
  /\ (status e' = status e \/ status e' = "success").

Definition binding_rewritten (s : stage) (kv kv' : string * entry) : Prop :=
  kv'.1 = kv.1 /\ rewritten_by s kv.2 kv'.2.

(** The files [fs'] against [fs] when only the text files of [targets] were
    written: the HTML directory is as it was, the text files of all other
    slugs are as they were, and no text file is gone. *)
Definition files_kept (targets : list string) (fs fs' : files) : Prop :=
  html_dir fs' = html_dir fs
  /\ (forall s, s ∉ targets -> text_dir fs' !! s = text_dir fs !! s)
  /\ (forall s, is_Some (text_dir fs !! s) -> is_Some (text_dir fs' !! s)).

(** One pass of a loop that, for a journal, may write the text file of its
    slug and update the record under that slug. *)
Definition keyed_step (act : nat -> journal -> option (string * (entry -> entry)))
    (k : nat) (j : journal) (st : files * list (string * entry))
    : files * list (string * entry) :=
  match act k j with
  | Some (text, f) => (write_text (jslug j) text (fst st), dict_alter f (jslug j) (snd st))
  | None => st
  end.

Definition browser_act (agent_run : nat -> string -> string -> option string)
    (k : nat) (j : journal) : option (string * (entry -> entry)) :=
  match scrape_with_browser agent_run k (url j) (name j) with
  | Some (text, guidelines_url) => Some (text, record_browser text guidelines_url)
  | None => None
  end.

Definition direct_act (parse : string -> list node)
    (page_content : nat -> string -> option (string * string))
    (k : nat) (j : journal) : option (string * (entry -> entry)) :=
  match substantial (scrape_with_playwright parse page_content k (url j) (jslug j)) with
  | Some text => Some (text, record_playwright text (url j))
  | None => None
  end.

Definition elsevier_act (parse : string -> list node) (get : nat -> string -> Tier1.fetched)
    (k : nat) (j : journal) : option (string * (entry -> entry)) :=
  match substantial (fetch_elsevier_guidelines parse get k (url j)) with
  | Some text => Some (text, record_fixed text (url j))
  | None => None
  end.

(** The stored file of a slug is fit to stay: at least 500 characters and
    neither of the two failure messages. *)
Definition healthy (fs : files) (slug : string) : bool :=
  match text_dir fs !! slug with
  | None => false
  | Some content =>
      negb (String.length content <? 500)
      && negb (contains "Failed to access" content)
      && negb (contains "could not be completed" content)
  end.

(** *** Concrete ledgers and worlds *)

(** A record of a Taylor and Francis journal whose stored file is healthy. *)
Definition hpr_entry : entry :=
  Entry "Health Psychology Review" "health-psychology-review"
        (Some "https://hpr.example") (Some "https://hpr.example/for-authors") "success"
        (Some "http") 600 None None.

Definition hpr_file : files := Files ∅ {[ "health-psychology-review" := filler 600 ]}.

(** The agent returns a text of 40 characters for every journal. *)
Definition agent_short (k : nat) (url name : string) : option string := Some (filler 40).

(** One link found in every text; the page behind it has 501 characters. *)
Definition one_link (text : string) (base : option string) : list string :=
  ["https://j.example/author-guidelines"].

(** *** The slug-keyed dict, binding by binding *)

Lemma dict_alter_lookup (f : entry -> entry) (k : string) (d : list (string * entry))
    (i : nat) (s : string) (v : entry) :
  NoDup d.*1 -> d !! i = Some (s, v) ->
  dict_alter f k d !! i = Some (s, if String.eqb k s then f v else v).
Proof.
  revert i. induction d as [|[k' v'] d IH]; intros i Hnd Hi; [discriminate|].
  simpl in Hnd. apply NoDup_cons in Hnd as [Hfresh Hnd]. simpl.
  destruct i as [|i]; simpl in Hi.
  - injection Hi as -> ->. destruct (String.eqb k s); reflexivity.
  - destruct (String.eqb k k') eqn:E.
    + apply String.eqb_eq in E. subst k'. simpl. rewrite Hi.
      assert (Hne : k <> s).
      { intros ->. apply Hfresh. apply list_elem_of_fmap. exists (s, v). split; [reflexivity|].
        eapply list_elem_of_lookup_2, Hi. }
      now rewrite (eqb_false_ne _ _ Hne).
    + simpl. now apply IH.
Qed.

Lemma keyed_step_keys act (k : nat) (j : journal) (st : files * list (string * entry)) :
  (snd (keyed_step act k j st)).*1 = (snd st).*1.
Proof.
  unfold keyed_step. destruct (act k j) as [[t f]|]; [|reflexivity].
  simpl. apply dict_alter_keys.
Qed.

(** The whole loop, for journals of pairwise distinct slugs: the file of a
    journal and the record under its slug are the ones its own pass left. *)
Lemma keyed_run act (js : list journal) :
  forall (k0 : nat) (fs : files) (d : list (string * entry)),
  NoDup (jslug <$> js) -> NoDup d.*1 ->
  let st' := for_each (keyed_step act) k0 js (fs, d) in
  (forall s, s ∉ jslug <$> js -> text_dir (fst st') !! s = text_dir fs !! s)
  /\ (forall n j, js !! n = Some j ->
        text_dir (fst st') !! jslug j
        = match act (k0 + n) j with
          | Some (t, _) => Some t
          | None => text_dir fs !! jslug j
          end)
  /\ (forall i s v, d !! i = Some (s, v) -> s ∉ jslug <$> js -> snd st' !! i = Some (s, v))
  /\ (forall n j i v, js !! n = Some j -> d !! i = Some (jslug j, v) ->
        snd st' !! i
        = Some (jslug j, match act (k0 + n) j with
                         | Some (_, f) => f v
                         | None => v
                         end)).
Proof.
  induction js as [|j0 rest IH]; intros k0 fs d Hjs Hd.
  - simpl. repeat split; auto; intros n j; discriminate.
  - simpl in Hjs. apply NoDup_cons in Hjs as [Hfresh Hrest].
    cbn [for_each]. set (st1 := keyed_step act k0 j0 (fs, d)).
    assert (Hd1 : NoDup (snd st1).*1) by (unfold st1; now rewrite keyed_step_keys).
    destruct st1 as [fs1 d1] eqn:E1.
    destruct (IH (S k0) fs1 d1 Hrest Hd1) as (Hframe & Hfile & Hkeep & Hrec).
    assert (Hfs1 : forall s, s <> jslug j0 -> text_dir fs1 !! s = text_dir fs !! s).
    { intros s Hs. unfold st1, keyed_step in E1. destruct (act k0 j0) as [[t f]|];
        injection E1 as <- <-; [|reflexivity].
      simpl. now rewrite lookup_insert_ne. }
    assert (Hfs1' : text_dir fs1 !! jslug j0
                    = match act k0 j0 with
                      | Some (t, _) => Some t
                      | None => text_dir fs !! jslug j0
                      end).
    { unfold st1, keyed_step in E1. destruct (act k0 j0) as [[t f]|];
        injection E1 as <- <-; [|reflexivity].
      simpl. now rewrite lookup_insert_eq. }
    assert (Hd1' : forall i s v, d !! i = Some (s, v) ->
              d1 !! i = Some (s, if String.eqb (jslug j0) s
                                 then match act k0 j0 with
                                      | Some (_, f) => f v
                                      | None => v
                                      end
                                 else v)).
    { intros i s v Hi. unfold st1, keyed_step in E1. destruct (act k0 j0) as [[t f]|];
        injection E1 as <- <-.
      - simpl. now apply dict_alter_lookup.
      - simpl. rewrite Hi. now destruct (String.eqb (jslug j0) s). }
    split; [|split; [|split]].
    + intros s Hs. apply not_elem_of_cons in Hs as [Hne Hs].
      rewrite (Hframe s Hs). now apply Hfs1.
    + intros [|n] j Hn; simpl in Hn.
      * injection Hn as <-. rewrite Nat.add_0_r, (Hframe _ Hfresh). exact Hfs1'.
      * rewrite (Hfile n j Hn). replace (S k0 + n) with (k0 + S n) by lia.
        destruct (act (k0 + S n) j) as [[t f]|]; [reflexivity|].
        apply Hfs1. intros Heq. apply Hfresh. rewrite <- Heq.
        apply list_elem_of_fmap_2. eapply list_elem_of_lookup_2, Hn.
    + intros i s v Hi Hs. apply not_elem_of_cons in Hs as [Hne Hs].
      apply Hkeep; [|exact Hs]. rewrite (Hd1' i s v Hi).
      now rewrite (eqb_false_ne (jslug j0) s) by congruence.
    + intros [|n] j i v Hn Hi; simpl in Hn.
      * injection Hn as <-. rewrite Nat.add_0_r.
        apply Hkeep; [|exact Hfresh]. rewrite (Hd1' i _ v Hi).
        now rewrite String.eqb_refl.
      * replace (k0 + S n) with (S k0 + n) by lia. apply Hrec; [exact Hn|].
        rewrite (Hd1' i _ v Hi).
        assert (Hne : jslug j0 <> jslug j).
        { intros Heq. apply Hfresh. rewrite Heq.
          apply list_elem_of_fmap_2. eapply list_elem_of_lookup_2, Hn. }
        now rewrite (eqb_false_ne _ _ Hne).
Qed.

(** The same loop read from the ledger: what stands at each place of the
    ledger written back. *)
Lemma keyed_stage act (js : list journal) (fs : files) (scrape_log : list entry) :
  NoDup (jslug <$> js) -> NoDup (slug <$> scrape_log) ->
  let st' := for_each (keyed_step act) 0 js (fs, log_by_slug scrape_log) in
  (forall s, s ∉ jslug <$> js -> text_dir (fst st') !! s = text_dir fs !! s)
  /\ (forall n j, js !! n = Some j ->
        text_dir (fst st') !! jslug j
        = match act n j with
          | Some (t, _) => Some t
          | None => text_dir fs !! jslug j
          end)
  /\ (forall i e, scrape_log !! i = Some e -> slug e ∉ jslug <$> js ->
        values (snd st') !! i = Some e)
  /\ (forall n j i e, js !! n = Some j -> scrape_log !! i = Some e -> slug e = jslug j ->
        values (snd st') !! i
        = Some (match act n j with
                | Some (_, f) => f e
                | None => e
                end)).
Proof.
  intros Hjs Hnd. rewrite (log_by_slug_distinct _ Hnd).
  assert (Hd : NoDup ((fun e => (slug e, e)) <$> scrape_log).*1).
  { rewrite <- list_fmap_compose. exact Hnd. }
  destruct (keyed_run act js 0 fs _ Hjs Hd) as (Hframe & Hfile & Hkeep & Hrec).
  assert (Hb : forall i e, scrape_log !! i = Some e ->
            ((fun e => (slug e, e)) <$> scrape_log) !! i = Some (slug e, e)).
  { intros i e Hi. now rewrite list_lookup_fmap, Hi. }
  split; [exact Hframe|]. split; [exact Hfile|]. split.
  - intros i e Hi Hs. unfold values. rewrite list_lookup_fmap.
    now rewrite (Hkeep i (slug e) e (Hb i e Hi) Hs).
  - intros n j i e Hn Hi Hs. unfold values. rewrite list_lookup_fmap.
    pose proof (Hb i e Hi) as Hbi. rewrite Hs in Hbi.
    now rewrite (Hrec n j i e Hn Hbi).
Qed.

Lemma for_each_ext {A St : Type} (f g : nat -> A -> St -> St) (xs : list A) :
  (forall k x st, f k x st = g k x st) ->
  forall k st, for_each f k xs st = for_each g k xs st.
Proof.
  intros H. induction xs as [|x xs IH]; intros k st; simpl; [reflexivity|].
  now rewrite H, IH.
Qed.

Section StageFacts.
Variable parse : string -> list node.
Variable agent_run : nat -> string -> string -> option string.
Variable page_content : nat -> string -> option (string * string).
Variable extract_guideline_links : string -> option string -> list string.
Variable url_path : string -> string.
Variable get : nat -> string -> Tier1.fetched.

Abbreviation run :=
  (run_stage parse agent_run page_content extract_guideline_links url_path get).
Abbreviation scrape_with_browser := (scrape_with_browser agent_run).
Abbreviation scrape_with_playwright := (scrape_with_playwright parse page_content).
Abbreviation fetch_elsevier_guidelines := (fetch_elsevier_guidelines parse get).

Lemma browser_step_keyed (k : nat) (j : journal) (st : files * list (string * entry)) :
  browser_step agent_run k j st = keyed_step (browser_act agent_run) k j st.
Proof.
  unfold browser_step, keyed_step, browser_act.
  now destruct (scrape_with_browser k (url j) (name j)) as [[t g]|].
Qed.

Lemma direct_step_keyed (k : nat) (j : journal) (st : files * list (string * entry)) :
  direct_step parse page_content k j st = keyed_step (direct_act parse page_content) k j st.
Proof.
  unfold direct_step, keyed_step, direct_act.
  now destruct (substantial (scrape_with_playwright k (url j) (jslug j))).
Qed.

Lemma elsevier_step_keyed (k : nat) (j : journal) (st : files * list (string * entry)) :
  elsevier_step parse get k j st = keyed_step (elsevier_act parse get) k j st.
Proof.
  unfold elsevier_step, keyed_step, elsevier_act.
  now destruct (substantial (fetch_elsevier_guidelines k (url j))).
Qed.

(** *** The browser run, journal by journal *)

(** The browser run over journals of pairwise distinct slugs, on a ledger of
    pairwise distinct slugs: where the agent of the [n]-th journal returned
    a non-empty text, that text is the journal's text file (whether or not
    the ledger has a record of that slug) and the record of that slug is the
    old one with status success, method browser, the length of the text, the
    URL visited and no error; where the agent returned nothing, file and
    record are as before. *)
Theorem browser_stage_exact (journals : list journal) (fs : files) (scrape_log : list entry)
    (Hjournals : NoDup (jslug <$> journals))
    (Hdistinct : NoDup (slug <$> scrape_log)) :
  let fs' := fst (browser_stage agent_run journals fs scrape_log) in
  let after := snd (browser_stage agent_run journals fs scrape_log) in
  forall n j, journals !! n = Some j ->
    match scrape_with_browser n (url j) (name j) with
    | Some (text, guidelines_url) =>
        text <> EmptyString /\ guidelines_url = url j
        /\ text_dir fs' !! jslug j = Some text
        /\ forall i e, scrape_log !! i = Some e -> slug e = jslug j ->
             after !! i
             = Some (Entry (journal_name e) (slug e) (homepage_url e) (Some (url j))
                           "success" (Some "browser") (String.length text) None
                           (additional_links_fetched e))
    | None =>
        text_dir fs' !! jslug j = text_dir fs !! jslug j
        /\ forall i e, scrape_log !! i = Some e -> slug e = jslug j -> after !! i = Some e
    end.
Proof.
  intros fs' after n j Hn. unfold fs', after, browser_stage. cbn [fst snd].
  rewrite (for_each_ext _ _ journals browser_step_keyed).
  destruct (keyed_stage (browser_act agent_run) journals fs scrape_log Hjournals Hdistinct)
    as (_ & Hfile & _ & Hrec).
  set (st' := for_each _ 0 journals _) in *.
  specialize (Hfile n j Hn). specialize (Hrec n j).
  unfold browser_act in Hfile, Hrec.
  destruct (scrape_with_browser n (url j) (name j)) as [[t g]|] eqn:E.
  - unfold Stages.scrape_with_browser in E.
    destruct (agent_run n (url j) (name j)) as [t'|]; [|discriminate].
    destruct (truthy t') eqn:Et; [|discriminate]. injection E as -> <-.
    split; [intros ->; discriminate|]. split; [reflexivity|]. split; [exact Hfile|].
    intros i e Hi Hs. now rewrite (Hrec i e Hn Hi Hs).
  - split; [exact Hfile|]. intros i e Hi Hs. now rewrite (Hrec i e Hn Hi Hs).
Qed.

(** *** The Playwright run, record by record *)

Lemma to_scrape_slugs (fs : files) (scrape_log : list entry) (s : string) :
  s ∈ jslug <$> to_scrape fs scrape_log ->
  s ∈ slug <$> scrape_log /\ direct_url s <> None /\ needs_scrape fs s = true.
Proof.
  induction scrape_log as [|e rest IH]; simpl; [intros H; now apply elem_of_nil in H|].
  destruct (direct_url (slug e)) as [u|] eqn:Eu.
  - destruct (needs_scrape fs (slug e)) eqn:En.
    + simpl. intros H. apply elem_of_cons in H as [->|H].
      * split; [left|]. split; [congruence | exact En].
      * destruct (IH H) as (H1 & H2 & H3). split; [now right | now split].
    + intros H. destruct (IH H) as (H1 & H2 & H3). split; [now right | now split].
  - intros H. destruct (IH H) as (H1 & H2 & H3). split; [now right | now split].
Qed.

Lemma to_scrape_distinct (fs : files) (scrape_log : list entry) :
  NoDup (slug <$> scrape_log) -> NoDup (jslug <$> to_scrape fs scrape_log).
Proof.
  induction scrape_log as [|e rest IH]; simpl; [constructor|].
  intros Hnd. apply NoDup_cons in Hnd as [Hfresh Hnd]. specialize (IH Hnd).
  destruct (direct_url (slug e)) as [u|]; [|exact IH].
  destruct (needs_scrape fs (slug e)); [|exact IH].
  simpl. apply NoDup_cons. split; [|exact IH].
  intros Hin. apply Hfresh. now apply to_scrape_slugs in Hin.
Qed.

Lemma to_scrape_holds (fs : files) (scrape_log : list entry) (i : nat) (e : entry)
    (u : string) :
  scrape_log !! i = Some e -> direct_url (slug e) = Some u -> needs_scrape fs (slug e) = true ->
  exists n, to_scrape fs scrape_log !! n = Some (Journal (journal_name e) (slug e) u).
Proof.
  revert i. induction scrape_log as [|e0 rest IH]; intros i Hi Hu Hn; [discriminate|].
  destruct i as [|i]; simpl in Hi.
  - injection Hi as ->. simpl. rewrite Hu, Hn. now exists 0.
  - destruct (IH i Hi Hu Hn) as [n Hn'].
    simpl. destruct (direct_url (slug e0)) as [u0|]; [|now exists n].
    destruct (needs_scrape fs (slug e0)); [now exists (S n) | now exists n].
Qed.

(** The Playwright run on a ledger of pairwise distinct slugs, record by
    record.  A record whose slug is not in [DIRECT_URLS], or whose stored
    file does not call for a new scrape, keeps its file and stands
    unchanged.  Any other record is the [n]-th of [to_scrape] for some [n],
    under its own name and slug and the URL of the table; if the [n]-th
    session gave a text of more than 500 characters, that text is the file
    and the record has status success, method playwright, the length of the
    text and the URL of the table, its error key being left as it was;
    otherwise file and record are as before. *)
Theorem direct_main_exact (fs : files) (scrape_log : list entry) (i : nat) (e : entry)
    (Hdistinct : NoDup (slug <$> scrape_log))
    (Hentry : scrape_log !! i = Some e) :
  let fs' := fst (direct_main parse page_content fs scrape_log) in
  let after := snd (direct_main parse page_content fs scrape_log) in
  let untouched := after !! i = Some e /\ text_dir fs' !! slug e = text_dir fs !! slug e in
  match direct_url (slug e) with
  | None => untouched
  | Some table_url =>
      if needs_scrape fs (slug e)
      then exists n,
             to_scrape fs scrape_log !! n = Some (Journal (journal_name e) (slug e) table_url)
             /\ match scrape_with_playwright n table_url (slug e) with
                | Some text =>
                    if 500 <? String.length text
                    then text_dir fs' !! slug e = Some text
                         /\ after !! i
                            = Some (Entry (journal_name e) (slug e) (homepage_url e)
                                          (Some table_url) "success" (Some "playwright")
                                          (String.length text) (error e)
                                          (additional_links_fetched e))
                    else untouched
                | None => untouched
                end
      else untouched
  end.
Proof.
  intros fs' after untouched. unfold untouched, fs', after, direct_main. cbn [fst snd].
  rewrite (for_each_ext _ _ (to_scrape fs scrape_log) direct_step_keyed).
  destruct (keyed_stage (direct_act parse page_content) (to_scrape fs scrape_log) fs
              scrape_log (to_scrape_distinct fs scrape_log Hdistinct) Hdistinct)
    as (Hframe & Hfile & Hkeep & Hrec).
  set (st' := for_each _ 0 (to_scrape fs scrape_log) _) in *.
  assert (Hout : slug e ∉ jslug <$> to_scrape fs scrape_log ->
            values (snd st') !! i = Some e
            /\ text_dir (fst st') !! slug e = text_dir fs !! slug e).
  { intros Hs. split; [now apply Hkeep | now apply Hframe]. }
  destruct (direct_url (slug e)) as [u|] eqn:Eu.
  2:{ apply Hout. intros Hin. apply to_scrape_slugs in Hin as (_ & Hu & _). congruence. }
  destruct (needs_scrape fs (slug e)) eqn:En.
  2:{ apply Hout. intros Hin. apply to_scrape_slugs in Hin as (_ & _ & Hn). congruence. }
  destruct (to_scrape_holds fs scrape_log i e u Hentry Eu En) as [n Hn].
  exists n. split; [exact Hn|].
  specialize (Hfile n _ Hn). specialize (Hrec n _ i e Hn Hentry eq_refl).
  unfold direct_act in Hfile, Hrec. cbn [jslug url] in Hfile, Hrec.
  destruct (scrape_with_playwright n u (slug e)) as [t|]; cbn [substantial] in Hfile, Hrec.
  - destruct (500 <? String.length t) eqn:El.
    + destruct (truthy t) eqn:Et.
      * cbn [andb] in Hfile, Hrec. now split.
      * destruct t; [discriminate El | discriminate Et].
    + rewrite andb_false_r in Hfile, Hrec. now split.
  - now split.
Qed.

Lemma healthy_needs_scrape (fs : files) (s : string) :
  healthy fs s = true -> member s SAGE_GENERIC = false -> member s ELSEVIER = false ->
  needs_scrape fs s = false.
Proof.
  unfold healthy, needs_scrape. intros Hh -> ->.
  destruct (text_dir fs !! s) as [content|]; [|discriminate].
  rewrite !andb_true_iff, !negb_true_iff in Hh. destruct Hh as [[-> ->] ->]. reflexivity.
Qed.


(** *** One Playwright session *)

(** A Playwright session never hands back the text of a page that holds the
    marker of the Cloudflare widget: the text it returns is the extract of
    the page as first loaded, or as loaded after the second wait, and that
    page is free of the marker; it holds no three newlines in a row.  The
    session returns nothing exactly when loading raised, or when a challenge
    was seen and the marker was still there after the second wait.  (A page
    that still says "Just a moment" after the wait, without the marker, is
    extracted.) *)
Theorem playwright_skips_widget_pages (k : nat) (url_ slug_ : string) :
  match scrape_with_playwright k url_ slug_ with
  | Some text =>
      exists first later content,
        page_content k url_ = Some (first, later)
        /\ (content = first \/ content = later)
        /\ contains "cf-chl-widget" content = false
        /\ text = extract_text_direct parse content
        /\ contains nl3 text = false
  | None =>
      page_content k url_ = None
      \/ exists first later,
           page_content k url_ = Some (first, later)
           /\ (contains "cf-chl-widget" first || contains "Just a moment" first) = true
           /\ contains "cf-chl-widget" later = true
  end.
Proof.
  unfold Stages.scrape_with_playwright.
  destruct (page_content k url_) as [[first later]|]; [|now left].
  destruct (contains "cf-chl-widget" first) eqn:Ew; cbn [orb].
  - destruct (contains "cf-chl-widget" later) eqn:El.
    + right. exists first, later. rewrite Ew. repeat split; auto.
    + exists first, later, later. repeat split; auto. apply squeeze_no_triple.
  - destruct (contains "Just a moment" first) eqn:Ej.
    + destruct (contains "cf-chl-widget" later) eqn:El.
      * right. exists first, later. rewrite Ew, Ej. repeat split; auto.
      * exists first, later, later. repeat split; auto. apply squeeze_no_triple.
    + exists first, later, first. repeat split; auto. apply squeeze_no_triple.
Qed.

(** *** The Elsevier fix, journal by journal *)

Lemma journal_fixes_distinct : NoDup (jslug <$> JOURNAL_FIXES).
Proof. apply distinct_NoDup. reflexivity. Qed.

(** The fix script of [03d] on a ledger of pairwise distinct slugs: for each
    of its three journals, if the page was answered 200 and its extract has
    more than 500 characters, the extract is the journal's text file and the
    record of that slug gets the URL, the length and the method http-fixed,
    its status and its error being left as they were; otherwise file and
    record are as before. *)
Theorem fix_elsevier_exact (fs : files) (scrape_log : list entry)
    (Hdistinct : NoDup (slug <$> scrape_log)) :
  let fs' := fst (fix_elsevier_main parse get fs scrape_log) in
  let after := snd (fix_elsevier_main parse get fs scrape_log) in
  forall n j, JOURNAL_FIXES !! n = Some j ->
    let untouched :=
      text_dir fs' !! jslug j = text_dir fs !! jslug j
      /\ forall i e, scrape_log !! i = Some e -> slug e = jslug j -> after !! i = Some e in
    match get n (url j) with
    | Tier1.Got resp =>
        let text := extract_text parse (Tier1.text resp) in
        if (Tier1.status_code resp =? 200) && (500 <? String.length text)
        then text_dir fs' !! jslug j = Some text
             /\ forall i e, scrape_log !! i = Some e -> slug e = jslug j ->
                  after !! i
                  = Some (Entry (journal_name e) (slug e) (homepage_url e) (Some (url j))
                                (status e) (Some "http-fixed") (String.length text)
                                (error e) (additional_links_fetched e))
        else untouched
    | Tier1.HTTPError => untouched
    end.
Proof.
  intros fs' after n j Hn untouched. unfold untouched, fs', after, fix_elsevier_main.
  cbn [fst snd].
  rewrite (for_each_ext _ _ JOURNAL_FIXES elsevier_step_keyed).
  destruct (keyed_stage (elsevier_act parse get) JOURNAL_FIXES fs scrape_log
              journal_fixes_distinct Hdistinct) as (_ & Hfile & _ & Hrec).
  set (st' := for_each _ 0 JOURNAL_FIXES _) in *.
  specialize (Hfile n j Hn). specialize (Hrec n j).
  unfold elsevier_act, Stages.fetch_elsevier_guidelines in Hfile, Hrec.
  destruct (get n (url j)) as [resp|].
  - destruct (Tier1.status_code resp =? 200); cbn [andb substantial] in *.
    + destruct (500 <? String.length (extract_text parse (Tier1.text resp))) eqn:El.
      * destruct (truthy (extract_text parse (Tier1.text resp))) eqn:Et.
        -- cbn [andb] in Hfile, Hrec. split; [exact Hfile|].
           intros i e Hi Hs. now rewrite (Hrec i e Hn Hi Hs).
        -- destruct (extract_text parse (Tier1.text resp)); [discriminate El | discriminate Et].
      * rewrite andb_false_r in Hfile, Hrec. split; [exact Hfile|].
        intros i e Hi Hs. now rewrite (Hrec i e Hn Hi Hs).
    + split; [exact Hfile|]. intros i e Hi Hs. now rewrite (Hrec i e Hn Hi Hs).
  - split; [exact Hfile|]. intros i e Hi Hs. now rewrite (Hrec i e Hn Hi Hs).
Qed.

(** *** The files a stage leaves alone *)

Lemma files_kept_refl (targets : list string) (fs : files) : files_kept targets fs fs.
Proof. repeat split; auto. Qed.

Lemma files_kept_trans (targets : list string) (fs1 fs2 fs3 : files) :
  files_kept targets fs1 fs2 -> files_kept targets fs2 fs3 -> files_kept targets fs1 fs3.
Proof.
  intros (Hh & Hf & Hs) (Hh' & Hf' & Hs'). split; [congruence|]. split.
  - intros s Hout. rewrite Hf' by exact Hout. now apply Hf.
  - intros s H. now apply Hs', Hs.
Qed.

Lemma files_kept_write (targets : list string) (s text : string) (fs : files) :
  s ∈ targets -> files_kept targets fs (write_text s text fs).
Proof.
  intros Hs. split; [reflexivity|]. split.
  - intros s' Hout. simpl. rewrite lookup_insert_ne; [reflexivity|]. congruence.
  - intros s' H. simpl. destruct (decide (s = s')) as [->|Hne].
    + rewrite lookup_insert_eq. eauto.
    + now rewrite lookup_insert_ne.
Qed.

Lemma files_kept_step (targets : list string) (s text : string) (fs0 fs : files) :
  s ∈ targets -> files_kept targets fs0 fs -> files_kept targets fs0 (write_text s text fs).
Proof. intros Hs H. eapply files_kept_trans; [exact H | now apply files_kept_write]. Qed.

Lemma process_all_files (scrape_log : list entry) :
  forall (fs fs' : files) (k k' : nat) (results : list result),
  process_all parse extract_guideline_links url_path get scrape_log fs k = (results, fs', k') ->
  files_kept (slug <$> List.filter is_success scrape_log) fs fs'.
Proof.
  induction scrape_log as [|e rest IH]; intros fs fs' k k' results Hrun.
  - simpl in Hrun. injection Hrun as <- <- <-. apply files_kept_refl.
  - simpl in Hrun. cbn [List.filter]. destruct (is_success e); simpl in Hrun.
    2:{ now apply (IH _ _ _ _ _ Hrun). }
    destruct (process_journal parse extract_guideline_links url_path get
                (slug e) (guidelines_url e) fs k) as [[r0 fs1] k1] eqn:E0.
    destruct (process_all parse extract_guideline_links url_path get rest fs1 k1)
      as [[results1 fs2] k2] eqn:E1.
    injection Hrun as <- <- <-.
    specialize (IH _ _ _ _ _ E1).
    destruct (process_journal_spec _ _ _ _ _ _ _ _ _ _ _ E0) as [_ Hcase].
    assert (H1 : files_kept (slug <$> e :: List.filter is_success rest) fs fs1).
    { destruct Hcase as [[_ ->] | (_ & t & extra & _ & -> & _)]; [apply files_kept_refl|].
      apply files_kept_write. left. }
    eapply files_kept_trans; [exact H1|].
    destruct IH as (Hh & Hf & Hs). split; [exact Hh|]. split; [|exact Hs].
    intros s Hout. apply Hf. intros Hin. apply Hout. now right.
Qed.

(** No stage that runs on an existing ledger touches the HTML directory,
    removes a text file, or changes the text file of a slug it does not
    visit. *)
Theorem stage_files_frame (s : stage) (fs : files) (scrape_log : list entry) :
  let fs' := fst (run s fs scrape_log) in
  html_dir fs' = html_dir fs
  /\ (forall k, k ∉ visited s fs scrape_log -> text_dir fs' !! k = text_dir fs !! k)
  /\ (forall k, is_Some (text_dir fs !! k) -> is_Some (text_dir fs' !! k)).
Proof.
  change (files_kept (visited s fs scrape_log) fs (fst (run s fs scrape_log))).
  destruct s; unfold run_stage, visited.
  - unfold browser_main, browser_stage. cbn [fst].
    apply (for_each_invariant_in
             (fun st => files_kept (jslug <$> JOURNALS_NEEDING_BROWSER) fs (fst st)));
      [|apply files_kept_refl].
    intros k j st Hj Hst. unfold browser_step.
    destruct (scrape_with_browser k (url j) (name j)) as [[t g]|]; [|exact Hst].
    cbn [fst]. apply files_kept_step; [now apply list_elem_of_fmap_2 | exact Hst].
  - unfold direct_main. cbn [fst].
    apply (for_each_invariant_in
             (fun st => files_kept (jslug <$> to_scrape fs scrape_log) fs (fst st)));
      [|apply files_kept_refl].
    intros k j st Hj Hst. unfold direct_step.
    destruct (substantial _) as [t|]; [|exact Hst].
    cbn [fst]. apply files_kept_step; [now apply list_elem_of_fmap_2 | exact Hst].
  - unfold follow_main.
    destruct (process_all parse extract_guideline_links url_path get scrape_log fs 0)
      as [[results fs'] k'] eqn:E. cbn [fst].
    now apply (process_all_files _ _ _ _ _ _ E).
  - unfold fix_elsevier_main. cbn [fst].
    apply (for_each_invariant_in
             (fun st => files_kept (jslug <$> JOURNAL_FIXES) fs (fst st)));
      [|apply files_kept_refl].
    intros k j st Hj Hst. unfold elsevier_step.
    destruct (substantial _) as [t|]; [|exact Hst].
    cbn [fst]. apply files_kept_step; [now apply list_elem_of_fmap_2 | exact Hst].
  - unfold fix_karger_main.
    destruct (agent_run 0 (url KARGER) (name KARGER)) as [t|]; [|apply files_kept_refl].
    destruct (truthy t); [|apply files_kept_refl].
    cbn [fst]. apply files_kept_write. left.
  - unfold fix_remaining_main.
    apply (for_each_invariant_in
             (fun st => files_kept (jslug <$> JOURNALS_TO_FIX) fs (fst st)));
      [|apply files_kept_refl].
    intros k j st Hj Hst. unfold scrape_journal.
    destruct (agent_run k (url j) (name j)) as [t|]; [|exact Hst].
    destruct (truthy t && meaningful t); [|exact Hst].
    cbn [fst snd]. apply files_kept_step; [now apply list_elem_of_fmap_2 | exact Hst].
Qed.

(** *** The keys a stage assigns *)

Lemma rewritten_refl (s : stage) (e : entry) : rewritten_by s e e.
Proof. split; [intros f _; now destruct f | now left]. Qed.

Lemma rewritten_trans (s : stage) (e1 e2 e3 : entry) :
  rewritten_by s e1 e2 -> rewritten_by s e2 e3 -> rewritten_by s e1 e3.
Proof.
  intros [H12 S12] [H23 S23]. split.
  - intros f Hf. specialize (H12 f Hf). specialize (H23 f Hf).
    destruct f; simpl in *; congruence.
  - destruct S23 as [E|E]; [|now right]. rewrite E. exact S12.
Qed.

Ltac not_written :=
  intros f Hf; destruct f; try reflexivity; exfalso; apply Hf; repeat constructor.

Lemma rewritten_browser (text g : string) (e : entry) :
  rewritten_by Browser e (record_browser text g e).
Proof. split; [not_written | now right]. Qed.

Lemma rewritten_playwright (text u : string) (e : entry) :
  rewritten_by Direct e (record_playwright text u e).
Proof. split; [not_written | now right]. Qed.

Lemma rewritten_fixed (text u : string) (e : entry) :
  rewritten_by FixElsevier e (record_fixed text u e).
Proof. split; [not_written | now left]. Qed.

Lemma rewritten_browser_use (s : stage) (text u : string) (e : entry) :
  s = FixKarger \/ s = FixRemaining -> rewritten_by s e (record_browser_use text u e).
Proof. intros [-> | ->]; (split; [not_written | now left]). Qed.

Lemma rewritten_follow (results : list result) (e : entry) :
  rewritten_by FollowLinks e (update_entry results e).
Proof.
  unfold update_entry. destruct (slug_to_result results (slug e)) as [r|];
    [|apply rewritten_refl].
  destruct (String.eqb (r_status r) "updated"); [|apply rewritten_refl].
  split; [not_written | now left].
Qed.

Lemma binding_rewritten_alter (s : stage) (f : entry -> entry) (k : string)
    (d0 d : list (string * entry)) :
  (forall e, rewritten_by s e (f e)) ->
  Forall2 (binding_rewritten s) d0 d -> Forall2 (binding_rewritten s) d0 (dict_alter f k d).
Proof.
  intros Hf H0. eapply Forall2_compose; [| exact H0 | apply dict_alter_pointwise].
  intros x y z [Hk Hxy] [Hk' Hyz]. split; [congruence|].
  destruct Hyz as [-> | [_ ->]]; [exact Hxy|].
  eapply rewritten_trans; [exact Hxy | apply Hf].
Qed.

Lemma binding_rewritten_refl (s : stage) (d : list (string * entry)) :
  Forall2 (binding_rewritten s) d d.
Proof.
  apply Forall2_same_length_lookup_2; [reflexivity|].
  intros i x y Hx Hy. assert (x = y) as -> by congruence.
  split; [reflexivity | apply rewritten_refl].
Qed.

Lemma rewritten_entries (s : stage) (scrape_log : list entry) (d : list (string * entry)) :
  NoDup (slug <$> scrape_log) ->
  Forall2 (binding_rewritten s) (log_by_slug scrape_log) d ->
  Forall2 (rewritten_by s) scrape_log (values d).
Proof.
  intros Hnd H. rewrite (log_by_slug_distinct _ Hnd) in H.
  unfold values. rewrite Forall2_fmap_r. rewrite Forall2_fmap_l in H.
  eapply Forall2_impl; [exact H|]. intros e kv [_ Hr]. exact Hr.
Qed.

Lemma rewritten_update_first (s : stage) (f : entry -> entry) (k : string)
    (log0 scrape_log : list entry) :
  (forall e, rewritten_by s e (f e)) ->
  Forall2 (rewritten_by s) log0 scrape_log ->
  Forall2 (rewritten_by s) log0 (update_first f k scrape_log).
Proof.
  intros Hf H0. eapply Forall2_compose; [| exact H0 | apply update_first_pointwise].
  intros x y z Hxy [-> | [_ ->]]; [exact Hxy|].
  eapply rewritten_trans; [exact Hxy | apply Hf].
Qed.

Lemma rewritten_all_refl (s : stage) (scrape_log : list entry) :
  Forall2 (rewritten_by s) scrape_log scrape_log.
Proof.
  apply Forall2_same_length_lookup_2; [reflexivity|].
  intros i x y Hx Hy. assert (x = y) as -> by congruence. apply rewritten_refl.
Qed.

(** Every stage assigns only the keys of its own "Update log" block: on a
    ledger of pairwise distinct slugs, each record written back has under
    every other key what it had before, and its status is the old one or
    success.  So the name, the slug and the homepage URL of a record never
    change; only the browser run and the Playwright run ever change a
    status; the Playwright run and the Elsevier fix leave an old error text
    in place; and the link-follow stage changes nothing but the text length
    and the count of links fetched. *)
Theorem stage_assigns_own_keys (s : stage) (fs : files) (scrape_log : list entry)
    (Hdistinct : NoDup (slug <$> scrape_log)) :
  Forall2 (fun e e' =>
             (forall f, f ∉ writes s -> same_at f e e')
             /\ (status e' = status e \/ status e' = "success"))
          scrape_log (snd (run s fs scrape_log)).
Proof.
  change (Forall2 (rewritten_by s) scrape_log (snd (run s fs scrape_log))).
  destruct s; unfold run_stage.
  - unfold browser_main, browser_stage. cbn [snd].
    apply rewritten_entries; [exact Hdistinct|].
    apply (for_each_invariant
             (fun st => Forall2 (binding_rewritten Browser) (log_by_slug scrape_log) (snd st)));
      [|apply binding_rewritten_refl].
    intros k j st Hst. unfold browser_step.
    destruct (scrape_with_browser k (url j) (name j)) as [[t g]|]; [|exact Hst].
    cbn [snd]. apply binding_rewritten_alter; [apply rewritten_browser | exact Hst].
  - unfold direct_main. cbn [snd].
    apply rewritten_entries; [exact Hdistinct|].
    apply (for_each_invariant
             (fun st => Forall2 (binding_rewritten Direct) (log_by_slug scrape_log) (snd st)));
      [|apply binding_rewritten_refl].
    intros k j st Hst. unfold direct_step.
    destruct (substantial _) as [t|]; [|exact Hst].
    cbn [snd]. apply binding_rewritten_alter; [apply rewritten_playwright | exact Hst].
  - unfold follow_main.
    destruct (process_all parse extract_guideline_links url_path get scrape_log fs 0)
      as [[results fs'] k']. cbn [snd].
    apply Forall2_fmap_diag. intros e _. apply rewritten_follow.
  - unfold fix_elsevier_main. cbn [snd].
    apply rewritten_entries; [exact Hdistinct|].
    apply (for_each_invariant
             (fun st => Forall2 (binding_rewritten FixElsevier) (log_by_slug scrape_log)
                                (snd st)));
      [|apply binding_rewritten_refl].
    intros k j st Hst. unfold elsevier_step.
    destruct (substantial _) as [t|]; [|exact Hst].
    cbn [snd]. apply binding_rewritten_alter; [apply rewritten_fixed | exact Hst].
  - unfold fix_karger_main.
    destruct (agent_run 0 (url KARGER) (name KARGER)) as [t|]; [|apply rewritten_all_refl].
    destruct (truthy t); [|apply rewritten_all_refl]. cbn [snd].
    apply rewritten_update_first; [|apply rewritten_all_refl].
    intros e. apply rewritten_browser_use. now left.
  - unfold fix_remaining_main.
    apply (for_each_invariant
             (fun st => Forall2 (rewritten_by FixRemaining) scrape_log (snd st)));
      [|apply rewritten_all_refl].
    intros k j st Hst. unfold scrape_journal.
    destruct (agent_run k (url j) (name j)) as [t|]; [|exact Hst].
    destruct (truthy t && meaningful t); [|exact Hst]. cbn [fst snd].
    apply rewritten_update_first; [|exact Hst].
    intros e. apply rewritten_browser_use. now right.
Qed.

(** *** One journal of the link-follow stage *)

Lemma fetch_links_spec (links : list string) :
  forall k new_texts k',
  fetch_links parse get k links = (new_texts, k') ->
  k' = k + List.length links
  /\ List.length new_texts <= List.length links
  /\ Forall (fun x => 500 < String.length x) new_texts.
Proof.
  induction links as [|link rest IH]; intros k new_texts k' H.
  - simpl in H. injection H as <- <-. split; [simpl; lia|]. split; [reflexivity | constructor].
  - simpl in H. destruct (fetch_links parse get (S k) rest) as [more k1] eqn:E.
    destruct (IH _ _ _ E) as (Hk & Hlen & Hall). injection H as <- <-.
    split; [simpl; lia|].
    destruct (fetch_url parse get k link) as [t|]; [|simpl; split; [lia | exact Hall]].
    destruct (truthy t && (500 <? String.length t)) eqn:Et;
      [|simpl; split; [lia | exact Hall]].
    simpl. split; [lia|]. constructor; [|exact Hall].
    apply andb_true_iff in Et as [_ Et]. apply Nat.ltb_lt in Et.
    unfold additional. rewrite !length_append. lia.
Qed.

Lemma join_long (sep : string) (l : list string) :
  l <> [] -> Forall (fun x => 500 < String.length x) l ->
  500 * List.length l < String.length (join sep l).
Proof.
  intros Hne Hall. induction Hall as [|x l Hx Hl IH]; [contradiction|].
  destruct l as [|y l]; [simpl; lia|].
  change (join sep (x :: y :: l)) with (x +:+ sep +:+ join sep (y :: l)).
  rewrite !length_append. specialize (IH ltac:(discriminate)). simpl List.length in *. lia.
Qed.


End StageFacts.

(** *** The stages on the concrete ledgers *)

Lemma journals_needing_browser_distinct : NoDup (jslug <$> JOURNALS_NEEDING_BROWSER).
Proof. apply distinct_NoDup. reflexivity. Qed.

Lemma browser_stage_exact_witness :
  NoDup (jslug <$> JOURNALS_NEEDING_BROWSER)
  /\ NoDup (slug <$> two_records)
  /\ JOURNALS_NEEDING_BROWSER !! 7
     = Some (Journal "Psychological Bulletin" "psychological-bulletin"
                     "https://www.apa.org/pubs/journals/bul/?tab=4")
  /\ text_dir (fst (browser_main agent_short cpr_file two_records)) !! "psychological-bulletin"
     = Some (filler 40)
  /\ text_dir (fst (browser_main agent_short cpr_file two_records)) !! "personnel-psychology"
     = Some (filler 40).
Proof.
  split; [exact journals_needing_browser_distinct|].
  split; [exact two_records_distinct|]. split; [reflexivity|].
  pose proof (browser_stage_exact agent_short JOURNALS_NEEDING_BROWSER cpr_file two_records
                journals_needing_browser_distinct two_records_distinct) as H.
  split.
  - exact (proj1 (proj2 (proj2 (H 7 _ eq_refl)))).
  - exact (proj1 (proj2 (proj2 (H 3 _ eq_refl)))).
Defined.

Lemma direct_main_exact_witness :
  NoDup (slug <$> two_records)
  /\ two_records !! 0 = Some cpr
  /\ snd (direct_main Tier1.text_parser page_600 cpr_file two_records) !! 0
     = Some (Entry "Clinical Psychology Review" "clinical-psychology-review"
                   (Some "https://cpr.example")
                   (Some "https://www.elsevier.com/journals/clinical-psychology-review/0272-7358/guide-for-authors")
                   "success" (Some "playwright") 600 None None).
Proof.
  split; [exact two_records_distinct|]. split; [reflexivity|].
  pose proof (direct_main_exact Tier1.text_parser page_600 cpr_file two_records 0 cpr
                two_records_distinct eq_refl) as H.
  cbv zeta in H. change (direct_url (slug cpr)) with
    (Some "https://www.elsevier.com/journals/clinical-psychology-review/0272-7358/guide-for-authors")
    in H.
  cbv iota beta in H. change (needs_scrape cpr_file (slug cpr)) with true in H.
  cbv iota in H. destruct H as (n & _ & H).
  assert (E : forall n, scrape_with_playwright Tier1.text_parser page_600 n
                "https://www.elsevier.com/journals/clinical-psychology-review/0272-7358/guide-for-authors"
                (slug cpr) = Some (filler 600)) by (intros; reflexivity).
  rewrite E in H. change (500 <? String.length (filler 600)) with true in H.
  cbv iota in H. exact (proj2 H).
Defined.


Lemma fix_elsevier_exact_witness :
  NoDup (slug <$> two_records)
  /\ text_dir (fst (fix_elsevier_main Tier1.text_parser (Tier1.always 200 (filler 501))
                      cpr_file two_records)) !! "leadership-quarterly"
     = Some (filler 501).
Proof.
  split; [exact two_records_distinct|].
  pose proof (fix_elsevier_exact Tier1.text_parser (Tier1.always 200 (filler 501))
                cpr_file two_records two_records_distinct 1 _ eq_refl) as H.
  exact (proj1 H).
Defined.

(** One journal of the link-follow stage in a world where the one link found
    leads to a page of 501 characters: one request, one page appended. *)
Example process_journal_updates :
  let '(r, fs', k') :=
    process_journal Tier1.text_parser one_link Tier1.id_origin
      (Tier1.always 200 (filler 501))
      "clinical-psychology-review" (Some "https://cpr.example/guide") cpr_file 0 in
  r_status r = "updated" /\ links_fetched r = Some 1 /\ k' = 1
  /\ 900 + 501 < new_text_length r
  /\ (String.length <$> text_dir fs' !! "clinical-psychology-review")
     = Some (new_text_length r).
Proof. vm_compute. repeat split. lia. Qed.

Lemma stage_assigns_own_keys_witness :
  NoDup (slug <$> two_records)
  /\ (homepage_url <$> snd (browser_main agent_short cpr_file two_records))
     = (homepage_url <$> two_records)
  /\ (status <$> snd (fix_karger_main agent_short cpr_file two_records))
     = (status <$> two_records).
Proof.
  split; [exact two_records_distinct|].
  pose proof (stage_assigns_own_keys Tier1.text_parser agent_short page_600 no_links
                Tier1.id_origin (Tier1.always 404 "Not Found") Browser cpr_file two_records
                two_records_distinct) as Hb.
  pose proof (stage_assigns_own_keys Tier1.text_parser agent_short page_600 no_links
                Tier1.id_origin (Tier1.always 404 "Not Found") FixKarger cpr_file two_records
                two_records_distinct) as Hk.
  split.
  - clear Hk. cbn [run_stage] in Hb.
    induction Hb as [|e e' l l' [He _] _ IH]; [reflexivity|].
    cbn [fmap list_fmap]. f_equal; [|exact IH].
    apply (He HomepageUrl). intros Hin. repeat (apply elem_of_cons in Hin as [Hin|Hin];
      [discriminate|]). now apply elem_of_nil in Hin.
  - clear Hb. cbn [run_stage] in Hk.
    induction Hk as [|e e' l l' [He _] _ IH]; [reflexivity|].
    cbn [fmap list_fmap]. f_equal; [|exact IH].
    apply (He Status). intros Hin. repeat (apply elem_of_cons in Hin as [Hin|Hin];
      [discriminate|]). now apply elem_of_nil in Hin.
Defined.

End StageEffects.

(** ** The analysis run ([main] of [04_analyze_guidelines.py]) *)

Module Analyze.
Import PyStr Ledger Quality.

(** One row of [pilot_feasibility_results.csv], by the keys [main] sets
    itself: the row of an analysed journal (the keys of the model's answer are
    held by the [analysis]; its key journal_name, which replaces the name
    taken from the ledger, is not among the fields kept), or the row written
    when the analysis raised. *)
Inductive out_row : Type :=
  | Analysed (guidelines_url : option string) (text_length : nat) (a : analysis)
             (quote_validation_score : Q) (review_flags : option string)
  | Raised (journal_name : string).

(** The record has a text file. *)
Definition has_text (fs : files) (e : entry) : bool :=
  match text_dir fs !! slug e with
  | Some _ => true
  | None => false
  end.

Section WithModel.
Variable rnd : Q -> Q.
Variable partial_ratio : string -> string -> Q.
(** The model call number [k] of the run; [None] when it raises. *)
Variable client : nat -> string -> string -> option analysis.

(** The body of the loop of [main] for one record, [k] calls having been
    made: no row when the text file is missing, else the row and one call
    more. *)
Definition analyze_one (scrape_info : entry) (fs : files) (k : nat) : option out_row * nat :=
  match text_dir fs !! slug scrape_info with
  | None => (None, k)
  | Some text =>
      (Some match analyze_journal rnd partial_ratio (client k)
                    (journal_name scrape_info) text with
            | Some (a, quote_validation) =>
                Analysed (guidelines_url scrape_info) (String.length text) a
                         quote_validation (Quality.review_flags rnd a quote_validation)
            | None => Raised (journal_name scrape_info)
            end,
       S k)
  end.

Fixpoint analyze_all (to_analyze : list entry) (fs : files) (k : nat) : list out_row * nat :=
  match to_analyze with
  | [] => ([], k)
  | scrape_info :: rest =>
      let '(row, k) := analyze_one scrape_info fs k in
      let '(rows, k) := analyze_all rest fs k in
      (match row with Some r => r :: rows | None => rows end, k)
  end.

(** [main]: the rows written to [OUTPUT_FILE], [None] when the run ends
    before writing (no scraping log, or no success record in it). *)
Definition main (log_file : option (list entry)) (fs : files) : option (list out_row) :=
  match log_file with
  | None => None
  | Some scrape_results =>
      match List.filter is_success scrape_results with
      | [] => None
      | to_analyze => Some (fst (analyze_all to_analyze fs 0))
      end
  end.

(** The row [main] wrote for the record [e]. *)
Definition row_of (fs : files) (e : entry) (row : out_row) : Prop :=
  match row with
  | Analysed g n a q fl =>
      g = guidelines_url e
      /\ (exists text, text_dir fs !! slug e = Some text /\ n = String.length text)
      /\ fl = Quality.review_flags rnd a q
  | Raised name => name = journal_name e
  end.

End WithModel.

(** A client that answers the first call and raises on every later one. *)
Definition first_call_only (a : analysis) (k : nat) (journal_name text : string)
    : option analysis :=
  if k =? 0 then Some a else None.

(** The text file of the first record of [two_records], holding the
    guidelines of the quality gate's example. *)
Definition cpr_guidelines : files :=
  Files ∅ {[ "clinical-psychology-review" := guidelines_text ]}.

Section MainFacts.
Variable rnd : Q -> Q.
Variable partial_ratio : string -> string -> Q.
Variable client : nat -> string -> string -> option analysis.

Abbreviation analyze_one := (analyze_one rnd partial_ratio client).
Abbreviation analyze_all := (analyze_all rnd partial_ratio client).
Abbreviation main := (main rnd partial_ratio client).
Abbreviation row_of := (row_of rnd).

Lemma analyze_one_row (e : entry) (fs : files) (k : nat) :
  match analyze_one e fs k with
  | (Some row, k') => has_text fs e = true /\ row_of fs e row /\ k' = S k
  | (None, k') => has_text fs e = false /\ k' = k
  end.
Proof.
  unfold Analyze.analyze_one, has_text.
  destruct (text_dir fs !! slug e) as [text|] eqn:E; [|now split].
  split; [reflexivity|]. split; [|reflexivity].
  destruct (analyze_journal rnd partial_ratio (client k) (journal_name e) text)
    as [[a q]|]; simpl; [|reflexivity].
  split; [reflexivity|]. split; [now exists text | reflexivity].
Qed.

Lemma analyze_all_rows (to_analyze : list entry) (fs : files) :
  forall k,
  Forall2 (row_of fs) (List.filter (has_text fs) to_analyze) (fst (analyze_all to_analyze fs k))
  /\ snd (analyze_all to_analyze fs k)
     = k + List.length (List.filter (has_text fs) to_analyze).
Proof.
  induction to_analyze as [|e rest IH]; intros k; [simpl; split; [constructor | lia]|].
  cbn [Analyze.analyze_all List.filter].
  pose proof (analyze_one_row e fs k) as H1.
  destruct (analyze_one e fs k) as [[row|] k1].
  - destruct H1 as (-> & Hrow & ->). destruct (IH (S k)) as [Hrows Hk].
    destruct (analyze_all rest fs (S k)) as [rows k2]. simpl in *.
    split; [now constructor | lia].
  - destruct H1 as (-> & ->). destruct (IH k) as [Hrows Hk].
    destruct (analyze_all rest fs k) as [rows k2]. simpl in *. now split.
Qed.

Lemma consistent_has_text (fs : files) (scrape_log : list entry) :
  consistent fs scrape_log ->
  List.filter (has_text fs) (List.filter is_success scrape_log)
  = List.filter is_success scrape_log.
Proof.
  intros Hc. induction scrape_log as [|e rest IH]; [reflexivity|].
  assert (Hrest : consistent fs rest).
  { intros e' He'. apply Hc. now right. }
  cbn [List.filter]. destruct (is_success e) eqn:Es; [|now apply IH].
  cbn [List.filter]. unfold has_text at 1.
  destruct (Hc e) as (t & -> & _); [left | now apply String.eqb_eq|].
  f_equal. now apply IH.
Qed.


End MainFacts.

(** The ledger of two records against a text file that is not the one the
    ledger measured: one row, for the one success record, with the length of
    the file read and no flag. *)
Example analysis_rows_example :
  match main round_down substring_ratio (first_call_only welcome)
             (Some Stages.two_records) cpr_guidelines with
  | Some [Analysed g n a q fl] =>
      g = Some "https://cpr.example/guide" /\ n = 72 /\ a = welcome /\ (q == 1)%Q /\ fl = None
  | _ => False
  end.
Proof. vm_compute. repeat split. Qed.

End Analyze.

(** ** Homepage discovery ([02_discover_urls.py]) *)

Module Discover.
Import PyStr Slug SlugShape Tier1.

(** *** Strings *)

Definition is_blank (c : ascii) : bool := code c =? 32.
Definition is_comma (c : ascii) : bool := code c =? 44.

(** [s.replace(ch, "")] for the one-character strings of class [p]. *)
Definition remove (p : ascii -> bool) (s : string) : string :=
  keep (fun c => negb (p c)) s.

(** [s[n:]] *)
Fixpoint drop (n : nat) (s : string) : string :=
  match n, s with
  | S n', String _ r => drop n' r
  | _, _ => s
  end.

(** [s.split(",")]: the parts between the commas, at least one. *)
Fixpoint split_commas (s : string) : list string :=
  match s with
  | EmptyString => [EmptyString]
  | String c r =>
      if is_comma c then EmptyString :: split_commas r
      else match split_commas r with
           | part :: parts => String c part :: parts
           | [] => [String c EmptyString]
           end
  end.

(** *** [get_issn_variants] *)

(** [issn_part.strip().replace(" ", "")] *)
Definition clean (issn_part : string) : string := remove is_blank (strip is_space issn_part).

(** [f"{issn_clean[:4]}-{issn_clean[4:]}"] *)
Definition hyphenated (issn_clean : string) : string :=
  take 4 issn_clean +:+ "-" +:+ drop 4 issn_clean.

(** ["-" not in issn_clean and len(issn_clean) == 8] *)
Definition eight_unhyphenated (issn_clean : string) : bool :=
  negb (contains "-" issn_clean) && (String.length issn_clean =? 8).

(** What one pass of the loop appends to [variants]. *)
Definition part_variants (issn_part : string) : list string :=
  let issn_clean := clean issn_part in
  if negb (truthy issn_clean) then []
  else issn_clean ::
       (if eight_unhyphenated issn_clean then [hyphenated issn_clean]
        else if contains "-" issn_clean then [remove is_hyphen issn_clean]
        else []).

(** *** The responses of the two services *)

(** What [resp.json()] returns: a parsed JSON value.  A number is taken by
    its value; the fields of an object have pairwise distinct keys, like the
    [dict] they stand for.  [JNull] is Python's [None]. *)
#[local] Unset Elimination Schemes.
Inductive json : Type :=
  | JNull
  | JBool (b : bool)
  | JNum (q : Q)
  | JStr (s : string)
  | JArr (items : list json)
  | JObj (fields : list (string * json)).
#[local] Set Elimination Schemes.

(** [bool(v)] *)
Definition truthy_json (v : json) : bool :=
  match v with
  | JNull => false
  | JBool b => b
  | JNum q => negb (Qeq_bool q 0)
  | JStr s => truthy s
  | JArr items => match items with [] => false | _ => true end
  | JObj fields => match fields with [] => false | _ => true end
  end.

Definition field (key : string) (fields : list (string * json)) : option json :=
  match List.find (fun kv => String.eqb key (fst kv)) fields with
  | Some kv => Some (snd kv)
  | None => None
  end.

(** [v.get(key, default)]: [None] stands for the [AttributeError] raised
    when [v] is not a [dict]. *)
Definition dict_get (key : string) (default_ : json) (v : json) : option json :=
  match v with
  | JObj fields => Some (default default_ (field key fields))
  | _ => None
  end.

Definition OPENALEX_BASE : string := "https://api.openalex.org/sources".
Definition CROSSREF_BASE : string := "https://api.crossref.org/journals".

(** One row of the journal list, by the two columns the script reads, and
    the row of the result: the columns read (all columns are carried over as
    they are) and the two new ones. *)
Record journal_row : Type := JournalRow { title : string; issn : string }.

Record url_row : Type := UrlRow {
  u_title : string;
  u_issn : string;
  homepage_url : json;
  url_source : option string
}.

Section WithWorld.
(** [list(set(variants))]: the distinct variants, in the order in which the
    interpreter iterates over the set. *)
Variable set_order : list string -> list string.
(** [resp.json()] of a response body; [None] when the body is not JSON and
    the call raises. *)
Variable parse_json : string -> option json.
(** The network: the outcome of the [n]-th request of the run, for its URL. *)
Variable get : nat -> string -> fetched.

Definition get_issn_variants (issn : string) : list string :=
  set_order (List.flat_map part_variants (split_commas issn)).

(** The loop of [query_openalex].  A result [None] stands for an exception
    that leaves the function; [Some JNull] for [return None]. *)
Fixpoint openalex_loop (issn_variants : list string) (log : list string)
    : option json * list string :=
  match issn_variants with
  | [] => (Some JNull, log)
  | issn_try :: rest =>
      let url := OPENALEX_BASE +:+ "/issn:" +:+ issn_try in
      match get (List.length log) url with
      | Got resp =>
          if status_code resp =? 200
          then (parse_json (text resp), log ++ [url])
          else openalex_loop rest (log ++ [url])
      | HTTPError => openalex_loop rest (log ++ [url])
      end
  end.

Definition query_openalex (issn : string) (log : list string) : option json * list string :=
  openalex_loop (get_issn_variants issn) log.

(** The ISSN [query_crossref] puts into the URL. *)
Definition crossref_form (issn_try : string) : string :=
  if eight_unhyphenated issn_try then hyphenated issn_try else issn_try.

Fixpoint crossref_loop (issn_variants : list string) (log : list string)
    : option json * list string :=
  match issn_variants with
  | [] => (Some JNull, log)
  | issn_try :: rest =>
      let url := CROSSREF_BASE +:+ "/" +:+ crossref_form issn_try in
      match get (List.length log) url with
      | Got resp =>
          if status_code resp =? 200
          then (match parse_json (text resp) with
                | Some v => dict_get "message" (JObj []) v
                | None => None
                end,
                log ++ [url])
          else crossref_loop rest (log ++ [url])
      | HTTPError => crossref_loop rest (log ++ [url])
      end
  end.

Definition query_crossref (issn : string) (log : list string) : option json * list string :=
  crossref_loop (get_issn_variants issn) log.

(** The body of the loop of [discover_urls] for one row; [None] when an
    exception leaves it. *)
Definition discover_row (r : journal_row) (log : list string) : option url_row * list string :=
  let homepage_url := JNull in
  let source : option string := None in
  match query_openalex (issn r) log with
  | (None, log) => (None, log)
  | (Some oa_data, log) =>
      match (if truthy_json oa_data
             then match dict_get "homepage_url" JNull oa_data with
                  | Some homepage_url =>
                      Some (homepage_url,
                            if truthy_json homepage_url then Some "openalex" else source)
                  | None => None
                  end
             else Some (homepage_url, source)) with
      | None => (None, log)
      | Some (homepage_url, source) =>
          if truthy_json homepage_url
          then (Some (UrlRow (title r) (issn r) homepage_url source), log)
          else
            match query_crossref (issn r) log with
            | (None, log) => (None, log)
            | (Some cr_data, log) =>
                if truthy_json cr_data
                then match dict_get "URL" JNull cr_data with
                     | Some homepage_url =>
                         (Some (UrlRow (title r) (issn r) homepage_url
                                  (if truthy_json homepage_url then Some "crossref"
                                   else source)),
                          log)
                     | None => (None, log)
                     end
                else (Some (UrlRow (title r) (issn r) homepage_url source), log)
            end
      end
  end.

(** [discover_urls(df)]: the rows of the result, [None] when an exception
    ended the run, and the requests made. *)
Fixpoint discover_urls (df : list journal_row) (log : list string)
    : option (list url_row) * list string :=
  match df with
  | [] => (Some [], log)
  | r :: rest =>
      match discover_row r log with
      | (None, log) => (None, log)
      | (Some row, log) =>
          match discover_urls rest log with
          | (None, log) => (None, log)
          | (Some rows, log) => (Some (row :: rows), log)
          end
      end
  end.

End WithWorld.

(** *** Notions used in the statements *)

(** An ISSN character as [get_issn_variants] leaves it alone: no white
    space, no hyphen, no comma. *)
Definition plain (c : ascii) : bool :=
  negb (is_space c) && negb (is_hyphen c) && negb (is_comma c).

(** The row has a source exactly when it has a homepage URL. *)
Definition sourced (o : url_row) : Prop :=
  ((url_source o = Some "openalex" \/ url_source o = Some "crossref")
   /\ truthy_json (homepage_url o) = true)
  \/ (url_source o = None /\ truthy_json (homepage_url o) = false).

(** What the two services answer, when they answer 200: a JSON object, whose
    message, if it has one that is not empty, is a JSON object too. *)
Definition answers_objects (parse_json : string -> option json)
    (get : nat -> string -> fetched) : Prop :=
  forall n u resp, get n u = Got resp -> status_code resp = 200 ->
    exists fields,
      parse_json (text resp) = Some (JObj fields)
      /\ forall m, field "message" fields = Some m -> truthy_json m = true ->
           exists inner, m = JObj inner.

(** *** A concrete world *)

(** OpenAlex knows no journal; CrossRef knows every journal under one URL. *)
Definition crossref_only (n : nat) (u : string) : fetched :=
  if startswith CROSSREF_BASE u
  then Got (Response 200 "crossref")
  else Got (Response 404 "").

Definition canned_json (body : string) : option json :=
  if String.eqb body "crossref"
  then Some (JObj [("message", JObj [("URL", JStr "https://j.example")])])
  else None.

(** *** Facts about the string operations *)

Lemma contains_hyphen (s : string) :
  contains "-" s = negb (all_chars (fun c => negb (is_hyphen c)) s).
Proof.
  induction s as [|c r IH]; [reflexivity|].
  change (contains "-" (String c r)) with (startswith "-" (String c r) || contains "-" r).
  cbn [startswith all_chars]. rewrite hyphen_eqb, andb_true_r, IH.
  now destruct (is_hyphen c).
Qed.

Lemma all_chars_append (p : ascii -> bool) (a b : string) :
  all_chars p (a +:+ b) = all_chars p a && all_chars p b.
Proof.
  induction a as [|c a IH]; [reflexivity|].
  change (String c a +:+ b) with (String c (a +:+ b)). simpl. now rewrite IH, andb_assoc.
Qed.

Lemma all_chars_drop (p : ascii -> bool) (n : nat) (s : string) :
  all_chars p s = true -> all_chars p (drop n s) = true.
Proof.
  revert s. induction n as [|n IH]; intros [|c r]; simpl; try easy.
  rewrite andb_true_iff. intros [_ Hr]. now apply IH.
Qed.

Lemma take_drop (n : nat) (s : string) : take n s +:+ drop n s = s.
Proof.
  revert s. induction n as [|n IH]; intros [|c r]; try reflexivity.
  simpl. change (String c (take n r) +:+ drop n r) with (String c (take n r +:+ drop n r)).
  now rewrite IH.
Qed.

Lemma keep_append (p : ascii -> bool) (a b : string) :
  keep p (a +:+ b) = keep p a +:+ keep p b.
Proof.
  induction a as [|c a IH]; [reflexivity|].
  change (String c a +:+ b) with (String c (a +:+ b)). simpl.
  destruct (p c); [|exact IH].
  change (String c (keep p a) +:+ keep p b) with (String c (keep p a +:+ keep p b)).
  now rewrite IH.
Qed.

Lemma all_chars_kept_more (p q : ascii -> bool) (s : string) :
  all_chars p s = true -> all_chars p (keep q s) = true.
Proof.
  induction s as [|c r IH]; simpl; [reflexivity|].
  rewrite andb_true_iff. intros [Hc Hr]. destruct (q c); simpl; [rewrite Hc|]; now apply IH.
Qed.

Lemma all_chars_and (p q : ascii -> bool) (s : string) :
  all_chars (fun c => p c && q c) s = all_chars p s && all_chars q s.
Proof.
  induction s as [|c r IH]; simpl; [reflexivity|]. rewrite IH.
  destruct (p c), (q c), (all_chars p r), (all_chars q r); reflexivity.
Qed.

Lemma split_commas_parts (s : string) :
  split_commas s <> []
  /\ Forall (fun part => all_chars (fun c => negb (is_comma c)) part = true) (split_commas s).
Proof.
  induction s as [|c r [Hne Hall]]; [split; [discriminate | repeat constructor]|].
  simpl. destruct (is_comma c) eqn:Hc.
  - split; [discriminate|]. now constructor.
  - destruct (split_commas r) as [|part parts]; [contradiction|].
    split; [discriminate|]. inversion Hall as [|? ? Hp Hps]; subst.
    constructor; [|exact Hps]. simpl. now rewrite Hc, Hp.
Qed.

Lemma split_commas_one (s : string) :
  all_chars (fun c => negb (is_comma c)) s = true -> split_commas s = [s].
Proof.
  induction s as [|c r IH]; simpl; [reflexivity|].
  rewrite andb_true_iff, negb_true_iff. intros [-> Hr]. now rewrite (IH Hr).
Qed.

Lemma hyphenated_length (c : string) :
  String.length c = 8 -> String.length (hyphenated c) = 9.
Proof.
  intros H. unfold hyphenated. rewrite !Stages.length_append.
  pose proof (f_equal String.length (take_drop 4 c)) as E.
  rewrite Stages.length_append, H in E. cbn [String.length]. lia.
Qed.

Lemma hyphenated_back (c : string) :
  contains "-" c = false -> remove is_hyphen (hyphenated c) = c.
Proof.
  rewrite contains_hyphen, negb_false_iff. intros H.
  unfold remove, hyphenated. rewrite !keep_append.
  rewrite (keep_fixed _ (take 4 c)) by now apply all_chars_take.
  rewrite (keep_fixed _ (drop 4 c)) by now apply all_chars_drop.
  change (keep (fun c0 => negb (is_hyphen c0)) "-" +:+ drop 4 c) with (drop 4 c).
  apply take_drop.
Qed.

Lemma hyphenated_has_hyphen (c : string) :
  4 <= String.length c -> contains "-" (hyphenated c) = true.
Proof.
  intros H. rewrite contains_hyphen, negb_true_iff. unfold hyphenated.
  rewrite !all_chars_append. simpl. now rewrite andb_false_r.
Qed.

Lemma clean_chars (part : string) :
  all_chars (fun c => negb (is_comma c)) part = true ->
  all_chars (fun c => negb (is_blank c) && negb (is_comma c)) (clean part) = true.
Proof.
  intros H. unfold clean, remove, strip. rewrite all_chars_and.
  rewrite all_chars_kept. simpl.
  now apply all_chars_kept_more, all_chars_rstrip, all_chars_lstrip.
Qed.

Lemma part_variants_chars (part v : string) :
  all_chars (fun c => negb (is_comma c)) part = true ->
  v ∈ part_variants part ->
  all_chars (fun c => negb (is_blank c) && negb (is_comma c)) v = true.
Proof.
  intros Hp. pose proof (clean_chars part Hp) as Hc. unfold part_variants.
  destruct (truthy (clean part)); simpl; [|intros H; now apply elem_of_nil in H].
  intros H. apply elem_of_cons in H as [->|H]; [exact Hc|].
  destruct (eight_unhyphenated (clean part)).
  - apply list_elem_of_singleton in H. subst v. unfold hyphenated.
    rewrite !all_chars_append. rewrite all_chars_take, all_chars_drop by exact Hc. reflexivity.
  - destruct (contains "-" (clean part)); [|now apply elem_of_nil in H].
    apply list_elem_of_singleton in H. subst v. now apply all_chars_kept_more.
Qed.

Lemma part_variants_empty (part : string) :
  part_variants part = [] <-> clean part = EmptyString.
Proof.
  unfold part_variants. destruct (clean part); simpl; [easy|]. split; discriminate.
Qed.

Lemma blank_is_space (c : ascii) : is_blank c = true -> is_space c = true.
Proof. each_char c. Qed.

Lemma no_head (p : ascii -> bool) (s : string) :
  all_chars (fun c => negb (p c)) s = true -> head_is p s = false.
Proof.
  destruct s as [|c r]; simpl; [reflexivity|].
  rewrite andb_true_iff, negb_true_iff. now intros [-> _].
Qed.

Lemma no_last (p : ascii -> bool) (s : string) :
  all_chars (fun c => negb (p c)) s = true -> last_is p s = false.
Proof.
  induction s as [|c r IH]; [reflexivity|].
  simpl all_chars. rewrite andb_true_iff, negb_true_iff. intros [Hc Hr].
  destruct r as [|c' r']; [exact Hc | now apply IH].
Qed.

(** A string without white space is its own cleaned form. *)
Lemma clean_fixed (s : string) :
  all_chars (fun c => negb (is_space c)) s = true -> clean s = s.
Proof.
  intros Hs. unfold clean, remove, strip.
  rewrite (lstrip_fixed _ _ (no_head _ _ Hs)), (rstrip_fixed _ _ (no_last _ _ Hs)).
  apply keep_fixed. eapply all_chars_impl; [|exact Hs].
  intros c Hc. apply negb_true_iff in Hc. apply negb_true_iff.
  destruct (is_blank c) eqn:Eb; [|reflexivity].
  rewrite (blank_is_space c Eb) in Hc. discriminate.
Qed.

Lemma plain_parts (s : string) :
  all_chars plain s = true ->
  all_chars (fun c => negb (is_space c)) s = true
  /\ all_chars (fun c => negb (is_hyphen c)) s = true
  /\ all_chars (fun c => negb (is_comma c)) s = true.
Proof.
  unfold plain. rewrite !all_chars_and, !andb_true_iff. now intros [[H1 H2] H3].
Qed.

Section VariantFacts.
Variable set_order : list string -> list string.
(** A set holds each of its elements once. *)
Hypothesis set_order_distinct : forall l, NoDup (set_order l).
Hypothesis set_order_elements : forall l x, x ∈ set_order l <-> x ∈ l.

Abbreviation get_issn_variants := (get_issn_variants set_order).

Lemma variant_of_part (issn v : string) :
  v ∈ get_issn_variants issn <->
  exists part, part ∈ split_commas issn /\ v ∈ part_variants part.
Proof.
  unfold Discover.get_issn_variants. rewrite set_order_elements.
  rewrite list_elem_of_In, List.in_flat_map. split.
  - intros (part & Hp & Hv). exists part. now rewrite !list_elem_of_In.
  - intros (part & Hp & Hv). exists part. now rewrite <- !list_elem_of_In.
Qed.

(** The variants of an ISSN cell are pairwise distinct and free of blanks
    and commas.  Each part between commas that is not blank gives its
    cleaned form, and with it its other spelling: an unhyphenated form of
    eight characters gives the hyphenated one (nine characters, from which
    removing the hyphen leads back), and a hyphenated form the one without
    hyphens.  There is no variant exactly when every part is blank, and there
    are never more than two variants for each part. *)
Theorem issn_variants (issn : string) :
  NoDup (get_issn_variants issn)
  /\ (forall v, v ∈ get_issn_variants issn ->
        all_chars (fun c => negb (is_blank c) && negb (is_comma c)) v = true)
  /\ (forall part, part ∈ split_commas issn -> clean part <> EmptyString ->
        clean part ∈ get_issn_variants issn
        /\ (eight_unhyphenated (clean part) = true ->
            hyphenated (clean part) ∈ get_issn_variants issn
            /\ String.length (hyphenated (clean part)) = 9
            /\ remove is_hyphen (hyphenated (clean part)) = clean part)
        /\ (contains "-" (clean part) = true ->
            remove is_hyphen (clean part) ∈ get_issn_variants issn))
  /\ (get_issn_variants issn = []
      <-> forall part, part ∈ split_commas issn -> clean part = EmptyString)
  /\ List.length (get_issn_variants issn) <= 2 * List.length (split_commas issn).
Proof.
  split; [apply set_order_distinct|]. split.
  { intros v Hv. apply variant_of_part in Hv as (part & Hp & Hv).
    destruct (split_commas_parts issn) as [_ Hall]. rewrite Forall_forall in Hall.
    exact (part_variants_chars part v (Hall part Hp) Hv). }
  split.
  { intros part Hp Hne.
    assert (Hin : forall v, v ∈ part_variants part -> v ∈ get_issn_variants issn).
    { intros v Hv. apply variant_of_part. now exists part. }
    assert (Hpv : part_variants part
                  = clean part ::
                    (if eight_unhyphenated (clean part) then [hyphenated (clean part)]
                     else if contains "-" (clean part) then [remove is_hyphen (clean part)]
                     else [])).
    { unfold part_variants. destruct (clean part); [contradiction | reflexivity]. }
    rewrite Hpv in Hin. clear Hpv.
    split; [apply Hin; left|]. split.
    - intros H8. rewrite H8 in Hin. split; [apply Hin; right; left|].
      unfold eight_unhyphenated in H8. apply andb_true_iff in H8 as [Hh Hl].
      apply negb_true_iff in Hh. apply Nat.eqb_eq in Hl.
      split; [now apply hyphenated_length | now apply hyphenated_back].
    - intros Hh. unfold eight_unhyphenated in Hin. rewrite Hh in Hin. cbn [negb andb] in Hin.
      apply Hin. right. left. }
  split.
  { split.
    - intros H0 part Hp. apply part_variants_empty.
      destruct (part_variants part) as [|v vs] eqn:Ev; [reflexivity|]. exfalso.
      assert (Hv : v ∈ get_issn_variants issn).
      { apply variant_of_part. exists part. split; [exact Hp|]. rewrite Ev. left. }
      rewrite H0 in Hv. now apply elem_of_nil in Hv.
    - intros Hall. destruct (get_issn_variants issn) as [|v vs] eqn:Ev; [reflexivity|].
      exfalso. assert (Hv : v ∈ get_issn_variants issn) by (rewrite Ev; left).
      apply variant_of_part in Hv as (part & Hp & Hv).
      apply Hall, part_variants_empty in Hp. rewrite Hp in Hv. now apply elem_of_nil in Hv. }
  unfold Discover.get_issn_variants.
  transitivity (List.length (List.flat_map part_variants (split_commas issn))).
  - apply submseteq_length, NoDup_submseteq; [apply set_order_distinct|].
    intros x. apply set_order_elements.
  - generalize (split_commas issn). intros parts.
    induction parts as [|part parts IH]; simpl; [lia|].
    rewrite List.length_app.
    assert (List.length (part_variants part) <= 2); [|lia].
    unfold part_variants. destruct (negb (truthy (clean part))); simpl; [lia|].
    destruct (eight_unhyphenated (clean part)); simpl; [lia|].
    destruct (contains "-" (clean part)); simpl; lia.
Qed.

(** The two spellings of an ISSN of eight plain characters (no white space,
    hyphen or comma) have the same variants: the unhyphenated and the
    hyphenated form, and nothing else. *)
Theorem issn_spellings (c : string)
    (Hplain : all_chars plain c = true) (Height : String.length c = 8) :
  forall v,
    (v ∈ get_issn_variants c <-> v = c \/ v = hyphenated c)
    /\ (v ∈ get_issn_variants (hyphenated c) <-> v = c \/ v = hyphenated c).
Proof.
  destruct (plain_parts c Hplain) as (Hspace & Hhyphen & Hcomma).
  assert (Hhyph : contains "-" c = false).
  { now rewrite contains_hyphen, negb_false_iff. }
  assert (Hne : c <> EmptyString) by (intros ->; discriminate).
  assert (Hpc : part_variants c = [c; hyphenated c]).
  { unfold part_variants. rewrite (clean_fixed c Hspace).
    destruct c; [contradiction|]. cbn [truthy negb].
    unfold eight_unhyphenated. now rewrite Hhyph, Height. }
  assert (Hcomma' : all_chars (fun ch => negb (is_comma ch)) (hyphenated c) = true).
  { unfold hyphenated. rewrite !all_chars_append.
    rewrite all_chars_take, all_chars_drop by exact Hcomma. reflexivity. }
  assert (Hclean' : clean (hyphenated c) = hyphenated c).
  { apply clean_fixed. unfold hyphenated. rewrite !all_chars_append.
    rewrite all_chars_take, all_chars_drop by exact Hspace. reflexivity. }
  assert (Hph : part_variants (hyphenated c) = [hyphenated c; c]).
  { unfold part_variants. rewrite Hclean'.
    assert (Hh : contains "-" (hyphenated c) = true) by (apply hyphenated_has_hyphen; lia).
    unfold eight_unhyphenated. rewrite Hh. cbn [negb andb].
    rewrite (hyphenated_back c Hhyph).
    destruct (hyphenated c) eqn:E; [|reflexivity].
    apply (f_equal String.length) in E. rewrite (hyphenated_length c Height) in E.
    discriminate. }
  intros v. split.
  - rewrite variant_of_part, (split_commas_one c Hcomma). split.
    + intros (part & Hp & Hv). apply list_elem_of_singleton in Hp. subst part.
      rewrite Hpc in Hv. apply elem_of_cons in Hv as [->|Hv]; [now left|].
      apply list_elem_of_singleton in Hv. now right.
    + intros H. exists c. split; [left|]. rewrite Hpc.
      destruct H as [-> | ->]; [left | right; left].
  - rewrite variant_of_part, (split_commas_one _ Hcomma'). split.
    + intros (part & Hp & Hv). apply list_elem_of_singleton in Hp. subst part.
      rewrite Hph in Hv. apply elem_of_cons in Hv as [->|Hv]; [now right|].
      apply list_elem_of_singleton in Hv. now left.
    + intros H. exists (hyphenated c). split; [left|]. rewrite Hph.
      destruct H as [-> | ->]; [right; left | left].
Qed.

End VariantFacts.

(** *** The two queries and the rows *)

Lemma startswith_append (p x : string) : startswith p (p +:+ x) = true.
Proof.
  induction p as [|c p IH]; [now destruct x|].
  change (String c p +:+ x) with (String c (p +:+ x)). simpl.
  now rewrite Ascii.eqb_refl, IH.
Qed.

Section RunFacts.
Variable set_order : list string -> list string.
Variable parse_json : string -> option json.
Variable get : nat -> string -> fetched.

Abbreviation get_issn_variants := (get_issn_variants set_order).
Abbreviation openalex_loop := (openalex_loop parse_json get).
Abbreviation crossref_loop := (crossref_loop parse_json get).
Abbreviation query_openalex := (query_openalex set_order parse_json get).
Abbreviation query_crossref := (query_crossref set_order parse_json get).
Abbreviation discover_row := (discover_row set_order parse_json get).
Abbreviation discover_urls := (discover_urls set_order parse_json get).

Lemma openalex_requests (issn_variants : list string) (log : list string) :
  exists reqs,
    snd (openalex_loop issn_variants log) = log ++ reqs
    /\ List.length reqs <= List.length issn_variants
    /\ Forall (fun u => startswith OPENALEX_BASE u = true) reqs.
Proof.
  revert log. induction issn_variants as [|v rest IH]; intros log.
  - exists []. simpl. rewrite app_nil_r. repeat split; [lia | constructor].
  - set (u := OPENALEX_BASE +:+ "/issn:" +:+ v).
    assert (Hu : startswith OPENALEX_BASE u = true) by apply startswith_append.
    assert (Hrest : exists reqs,
              snd (openalex_loop rest (log ++ [u])) = log ++ reqs
              /\ List.length reqs <= List.length (v :: rest)
              /\ Forall (fun u => startswith OPENALEX_BASE u = true) reqs).
    { destruct (IH (log ++ [u])) as (reqs & E & Hlen & Hall).
      exists (u :: reqs). rewrite E, <- app_assoc. simpl.
      split; [reflexivity|]. split; [lia | now constructor]. }
    cbn [Discover.openalex_loop]. fold u.
    destruct (get (List.length log) u) as [resp|]; [|exact Hrest].
    destruct (status_code resp =? 200); [|exact Hrest].
    exists [u]. simpl. split; [reflexivity|]. split; [lia | now repeat constructor].
Qed.

Lemma crossref_requests (issn_variants : list string) (log : list string) :
  exists reqs,
    snd (crossref_loop issn_variants log) = log ++ reqs
    /\ List.length reqs <= List.length issn_variants
    /\ Forall (fun u => startswith CROSSREF_BASE u = true) reqs.
Proof.
  revert log. induction issn_variants as [|v rest IH]; intros log.
  - exists []. simpl. rewrite app_nil_r. repeat split; [lia | constructor].
  - set (u := CROSSREF_BASE +:+ "/" +:+ crossref_form v).
    assert (Hu : startswith CROSSREF_BASE u = true) by apply startswith_append.
    assert (Hrest : exists reqs,
              snd (crossref_loop rest (log ++ [u])) = log ++ reqs
              /\ List.length reqs <= List.length (v :: rest)
              /\ Forall (fun u => startswith CROSSREF_BASE u = true) reqs).
    { destruct (IH (log ++ [u])) as (reqs & E & Hlen & Hall).
      exists (u :: reqs). rewrite E, <- app_assoc. simpl.
      split; [reflexivity|]. split; [lia | now constructor]. }
    cbn [Discover.crossref_loop]. fold u.
    destruct (get (List.length log) u) as [resp|]; [|exact Hrest].
    destruct (status_code resp =? 200); [|exact Hrest].
    exists [u]. simpl. split; [reflexivity|]. split; [lia | now repeat constructor].
Qed.

Lemma sourced_by (name : string) (h : json) :
  name = "openalex" \/ name = "crossref" ->
  sourced (UrlRow "" "" h (if truthy_json h then Some name else None)).
Proof.
  intros Hn. unfold sourced. simpl. destruct (truthy_json h); [left | right; now split].
  split; [|reflexivity]. destruct Hn as [-> | ->]; [now left | now right].
Qed.

Lemma discover_row_sourced (r : journal_row) (log : list string) :
  match discover_row r log with
  | (Some o, log') =>
      u_title o = title r /\ u_issn o = issn r
      /\ sourced o
      /\ exists reqs,
           log' = log ++ reqs
           /\ List.length reqs <= 2 * List.length (get_issn_variants (issn r))
           /\ (url_source o = Some "openalex" ->
               List.length reqs <= List.length (get_issn_variants (issn r))
               /\ Forall (fun u => startswith OPENALEX_BASE u = true) reqs)
  | (None, _) => True
  end.
Proof.
  unfold Discover.discover_row, Discover.query_openalex, Discover.query_crossref.
  destruct (openalex_requests (get_issn_variants (issn r)) log) as (reqs1 & E1 & Hl1 & Ha1).
  destruct (openalex_loop (get_issn_variants (issn r)) log) as [[oa_data|] log1]; [|exact I].
  simpl in E1. subst log1.
  assert (Hcross : forall h0 : json, truthy_json h0 = false ->
            match
              (let (o, log0) := crossref_loop (get_issn_variants (issn r)) (log ++ reqs1) in
               match o with
               | Some cr_data =>
                   if truthy_json cr_data
                   then match dict_get "URL" JNull cr_data with
                        | Some homepage_url =>
                            (Some (UrlRow (title r) (issn r) homepage_url
                                     (if truthy_json homepage_url then Some "crossref"
                                      else None)), log0)
                        | None => (None, log0)
                        end
                   else (Some (UrlRow (title r) (issn r) h0 None), log0)
               | None => (None, log0)
               end)
            with
            | (Some o, log') =>
                u_title o = title r /\ u_issn o = issn r
                /\ sourced o
                /\ exists reqs,
                     log' = log ++ reqs
                     /\ List.length reqs <= 2 * List.length (get_issn_variants (issn r))
                     /\ (url_source o = Some "openalex" ->
                         List.length reqs <= List.length (get_issn_variants (issn r))
                         /\ Forall (fun u => startswith OPENALEX_BASE u = true) reqs)
            | (None, _) => True
            end).
  { intros h0 Hh0.
    destruct (crossref_requests (get_issn_variants (issn r)) (log ++ reqs1))
      as (reqs2 & E2 & Hl2 & _).
    destruct (crossref_loop (get_issn_variants (issn r)) (log ++ reqs1))
      as [[cr_data|] log2]; [|exact I].
    simpl in E2. subst log2.
    assert (Hreqs : exists reqs,
              (log ++ reqs1) ++ reqs2 = log ++ reqs
              /\ List.length reqs <= 2 * List.length (get_issn_variants (issn r))).
    { exists (reqs1 ++ reqs2). rewrite app_assoc, List.length_app. split; [reflexivity | lia]. }
    destruct Hreqs as (reqs & Er & Hlr).
    destruct (truthy_json cr_data).
    - destruct (dict_get "URL" JNull cr_data) as [h|]; [|exact I].
      split; [reflexivity|]. split; [reflexivity|]. split.
      + pose proof (sourced_by "crossref" h (or_intror eq_refl)) as Hs.
        unfold sourced in *. simpl in *. exact Hs.
      + exists reqs. split; [exact Er|]. split; [exact Hlr|].
        simpl. destruct (truthy_json h); discriminate.
    - split; [reflexivity|]. split; [reflexivity|]. split.
      + right. simpl. now split.
      + exists reqs. split; [exact Er|]. split; [exact Hlr|]. simpl. discriminate. }
  destruct (truthy_json oa_data).
  - destruct (dict_get "homepage_url" JNull oa_data) as [h|]; [|exact I].
    destruct (truthy_json h) eqn:Eh; [|now apply Hcross].
    split; [reflexivity|]. split; [reflexivity|]. split.
    + left. simpl. split; [now left | exact Eh].
    + exists reqs1. split; [reflexivity|]. split; [lia|]. intros _. now split.
  - cbn [truthy_json]. now apply Hcross.
Qed.

(** One row of the discovery.  If the row is written at all, it carries the
    title and the ISSN of the journal, and it names a source exactly when it
    has a homepage URL: openalex or crossref with a URL that is not empty, no
    source otherwise.  At most one request for each variant goes to each
    service; and when the source is openalex every request of the row went
    to OpenAlex: CrossRef is not asked once OpenAlex has given a URL.  A row
    whose ISSN cell has no variant is written without any request. *)
Theorem discovery_row (r : journal_row) (log : list string) :
  match discover_row r log with
  | (Some o, log') =>
      u_title o = title r /\ u_issn o = issn r
      /\ sourced o
      /\ exists reqs,
           log' = log ++ reqs
           /\ List.length reqs <= 2 * List.length (get_issn_variants (issn r))
           /\ (url_source o = Some "openalex" ->
               List.length reqs <= List.length (get_issn_variants (issn r))
               /\ Forall (fun u => startswith OPENALEX_BASE u = true) reqs)
  | (None, _) => True
  end
  /\ (get_issn_variants (issn r) = [] ->
      discover_row r log = (Some (UrlRow (title r) (issn r) JNull None), log)).
Proof.
  split; [apply discover_row_sourced|].
  intros H0. unfold Discover.discover_row, Discover.query_openalex, Discover.query_crossref.
  rewrite H0. reflexivity.
Qed.

Lemma discover_row_answered (r : journal_row) (log : list string) :
  answers_objects parse_json get ->
  exists o log', discover_row r log = (Some o, log').
Proof.
  intros Hobj.
  assert (Hoa : forall variants log0, exists v log1,
            openalex_loop variants log0 = (Some v, log1)
            /\ (truthy_json v = true -> exists fields, v = JObj fields)).
  { induction variants as [|x rest IH]; intros log0.
    - exists JNull, log0. split; [reflexivity | discriminate].
    - cbn [Discover.openalex_loop].
      destruct (get (List.length log0) (OPENALEX_BASE +:+ "/issn:" +:+ x)) as [resp|] eqn:Eg;
        [|apply IH].
      destruct (status_code resp =? 200) eqn:E200; [|apply IH].
      apply Nat.eqb_eq in E200. destruct (Hobj _ _ _ Eg E200) as (fields & -> & _).
      exists (JObj fields), (log0 ++ [OPENALEX_BASE +:+ "/issn:" +:+ x]).
      split; [reflexivity|]. intros _. now exists fields. }
  assert (Hcr : forall variants log0, exists m log1,
            crossref_loop variants log0 = (Some m, log1)
            /\ (truthy_json m = true -> exists inner, m = JObj inner)).
  { induction variants as [|x rest IH]; intros log0.
    - exists JNull, log0. split; [reflexivity | discriminate].
    - cbn [Discover.crossref_loop].
      destruct (get (List.length log0) (CROSSREF_BASE +:+ "/" +:+ crossref_form x))
        as [resp|] eqn:Eg; [|apply IH].
      destruct (status_code resp =? 200) eqn:E200; [|apply IH].
      apply Nat.eqb_eq in E200. destruct (Hobj _ _ _ Eg E200) as (fields & -> & Hm).
      cbn [dict_get].
      exists (default (JObj []) (field "message" fields)),
             (log0 ++ [CROSSREF_BASE +:+ "/" +:+ crossref_form x]).
      split; [reflexivity|].
      destruct (field "message" fields) as [m|]; simpl; [now apply Hm | discriminate]. }
  unfold Discover.discover_row, Discover.query_openalex, Discover.query_crossref.
  destruct (Hoa (get_issn_variants (issn r)) log) as (v & log1 & -> & Hv).
  assert (Hcross : forall h0, exists o log',
            (let (o, log0) := crossref_loop (get_issn_variants (issn r)) log1 in
             match o with
             | Some cr_data =>
                 if truthy_json cr_data
                 then match dict_get "URL" JNull cr_data with
                      | Some homepage_url =>
                          (Some (UrlRow (title r) (issn r) homepage_url
                                   (if truthy_json homepage_url then Some "crossref"
                                    else None)), log0)
                      | None => (None, log0)
                      end
                 else (Some (UrlRow (title r) (issn r) h0 None), log0)
             | None => (None, log0)
             end) = (Some o, log')).
  { intros h0. destruct (Hcr (get_issn_variants (issn r)) log1) as (m & log2 & -> & Hm).
    destruct (truthy_json m); [|eauto].
    destruct (Hm eq_refl) as [inner ->]. cbn [dict_get]. eauto. }
  destruct (truthy_json v).
  - destruct (Hv eq_refl) as [fields ->]. cbn [dict_get].
    destruct (truthy_json (default JNull (field "homepage_url" fields))); [eauto|].
    apply Hcross.
  - cbn [truthy_json]. apply Hcross.
Qed.


End RunFacts.

(** *** The discovery in the concrete world *)

Lemma remove_dups_elements (l : list string) (x : string) : x ∈ remove_dups l <-> x ∈ l.
Proof. apply elem_of_remove_dups. Qed.

Lemma issn_variants_witness :
  get_issn_variants remove_dups " 0033-2909 , 19391455,, " 
  = ["0033-2909"; "00332909"; "19391455"; "1939-1455"]
  /\ NoDup (get_issn_variants remove_dups " 0033-2909 , 19391455,, ")
  /\ List.length (get_issn_variants remove_dups " 0033-2909 , 19391455,, ") <= 2 * 4.
Proof.
  split; [reflexivity|].
  pose proof (issn_variants remove_dups NoDup_remove_dups remove_dups_elements
                " 0033-2909 , 19391455,, ") as (Hnd & _ & _ & _ & Hlen).
  split; [exact Hnd | exact Hlen].
Defined.

Lemma issn_spellings_witness :
  all_chars plain "0033290X" = true /\ String.length "0033290X" = 8
  /\ "0033290X" ∈ get_issn_variants remove_dups "0033-290X".
Proof.
  split; [reflexivity|]. split; [reflexivity|].
  apply (issn_spellings remove_dups remove_dups_elements
           "0033290X" eq_refl eq_refl "0033290X").
  now left.
Defined.

Lemma crossref_only_answers : answers_objects canned_json crossref_only.
Proof.
  intros n u resp. unfold crossref_only.
  destruct (startswith CROSSREF_BASE u).
  - intros [= <-] _. eexists. split; [reflexivity|].
    intros m [= <-] _. now eexists.
  - intros [= <-]. discriminate.
Qed.

(** A journal OpenAlex does not know and CrossRef does: OpenAlex is asked
    for both spellings, CrossRef for the first, and the row names CrossRef. *)
Example discovery_example :
  discover_urls remove_dups canned_json crossref_only [JournalRow "Mind" "0026-4423"] []
  = (Some [UrlRow "Mind" "0026-4423" (JStr "https://j.example") (Some "crossref")],
     ["https://api.openalex.org/sources/issn:0026-4423";
      "https://api.openalex.org/sources/issn:00264423";
      "https://api.crossref.org/journals/0026-4423"]).
Proof. reflexivity. Qed.

End Discover.

(** ** The links found in a text ([extract_guideline_links]) *)

Module GuidelineLinks.
Import PyStr SlugShape Stages.

(** The number of patterns in [GUIDELINE_LINK_PATTERNS]; each has one
    group. *)
Definition N_PATTERNS : nat := 4.

(** The characters of ['.,;:']. *)
Definition is_punct (c : ascii) : bool :=
  (code c =? 46) || (code c =? 44) || (code c =? 59) || (code c =? 58).

(** [if url not in links: links.append(url)] *)
Definition add_link (links : list string) (url : string) : list string :=
  if member url links then links else links ++ [url].

Section WithRegex.
(** [re.findall(GUIDELINE_LINK_PATTERNS[n], text, re.IGNORECASE)]: what the
    group of the [n]-th pattern matched, match by match. *)
Variable findall : nat -> string -> list string.
(** [urllib.parse.urljoin] *)
Variable urljoin : string -> string -> string.

(** The body of the inner loop up to the test for a repeat. *)
Definition clean_url (base_url : option string) (match_ : string) : string :=
  let url := strip is_space match_ in
  let url := rstrip is_punct url in
  if truthy_url base_url && negb (startswith "http" url)
  then urljoin (default "" base_url) url
  else url.

Definition extract_guideline_links (text : string) (base_url : option string) : list string :=
  List.fold_left add_link
    (List.map (clean_url base_url)
       (List.flat_map (fun n => findall n text) (List.seq 0 N_PATTERNS)))
    [].

End WithRegex.

(** A matcher whose first and last pattern both find one URL, once with a
    full stop behind it. *)
Definition two_matches (n : nat) (text : string) : list string :=
  match n with
  | 0 => ["https://j.example/author-guidelines."]
  | 3 => ["https://j.example/author-guidelines"; "https://j.example/for-authors"]
  | _ => []
  end.

Lemma member_elem (x : string) (l : list string) : member x l = true <-> x ∈ l.
Proof.
  unfold member. rewrite List.existsb_exists, list_elem_of_In. split.
  - intros (y & Hy & E). apply String.eqb_eq in E. now subst.
  - intros H. exists x. split; [exact H | apply String.eqb_refl].
Qed.

Lemma add_links (urls : list string) :
  forall links, NoDup links ->
  NoDup (List.fold_left add_link urls links)
  /\ (forall u, u ∈ List.fold_left add_link urls links <-> u ∈ links \/ u ∈ urls)
  /\ exists more, List.fold_left add_link urls links = links ++ more.
Proof.
  induction urls as [|x urls IH]; intros links Hnd.
  - simpl. split; [exact Hnd|]. split.
    + intros u. split; [now left | intros [H|H]; [exact H | now apply elem_of_nil in H]].
    + exists []. now rewrite app_nil_r.
  - simpl. unfold add_link at 2 4 6. destruct (member x links) eqn:E.
    + apply member_elem in E. destruct (IH links Hnd) as (H1 & H2 & H3).
      split; [exact H1|]. split; [|exact H3].
      intros u. rewrite H2, elem_of_cons. split; [intros [H|H]; auto|].
      intros [H | [-> | H]]; auto.
    + assert (Hx : x ∉ links) by (intros H; apply member_elem in H; congruence).
      assert (Hnd' : NoDup (links ++ [x])).
      { apply NoDup_app. split; [exact Hnd|]. split; [|apply NoDup_singleton].
        intros y Hy Hy'. apply list_elem_of_singleton in Hy'. now subst. }
      destruct (IH (links ++ [x]) Hnd') as (H1 & H2 & more & H3).
      split; [exact H1|]. split.
      * intros u. rewrite H2, elem_of_app, list_elem_of_singleton, elem_of_cons. tauto.
      * exists (x :: more). rewrite H3, <- app_assoc. reflexivity.
Qed.

(** The links [extract_guideline_links] returns are pairwise distinct; they
    are exactly the cleaned forms of what the four patterns matched; and a
    link that was not joined to the base URL ends in none of the characters
    full stop, comma, semicolon and colon.  Without a base URL no link is
    joined. *)
Theorem guideline_links_are_distinct (findall : nat -> string -> list string)
    (urljoin : string -> string -> string) (text : string) (base_url : option string) :
  let links := extract_guideline_links findall urljoin text base_url in
  NoDup links
  /\ (forall url, url ∈ links <->
        exists n match_, n < N_PATTERNS /\ match_ ∈ findall n text
                         /\ url = clean_url urljoin base_url match_)
  /\ (forall match_,
        let url := rstrip is_punct (strip is_space match_) in
        last_is is_punct url = false
        /\ (clean_url urljoin base_url match_ = url
            \/ (clean_url urljoin base_url match_ = urljoin (default "" base_url) url
                /\ truthy_url base_url = true /\ startswith "http" url = false)))
  /\ (truthy_url base_url = false ->
      forall url, url ∈ links -> last_is is_punct url = false).
Proof.
  intros links. unfold links, extract_guideline_links.
  destruct (add_links
              (List.map (clean_url urljoin base_url)
                 (List.flat_map (fun n => findall n text) (List.seq 0 N_PATTERNS)))
              [] (NoDup_nil_2)) as (Hnd & Hin & _).
  assert (Hmem : forall url,
            url ∈ List.fold_left add_link
                    (List.map (clean_url urljoin base_url)
                       (List.flat_map (fun n => findall n text) (List.seq 0 N_PATTERNS))) []
            <-> exists n match_, n < N_PATTERNS /\ match_ ∈ findall n text
                                 /\ url = clean_url urljoin base_url match_).
  { intros url. rewrite Hin. split.
    - intros [H|H]; [now apply elem_of_nil in H|].
      apply list_elem_of_In, List.in_map_iff in H as (m & <- & Hm).
      apply List.in_flat_map in Hm as (n & Hn & Hm).
      apply List.in_seq in Hn. exists n, m. split; [lia|]. split; [|reflexivity].
      now apply list_elem_of_In.
    - intros (n & m & Hn & Hm & ->). right.
      apply list_elem_of_In, List.in_map, List.in_flat_map. exists n. split.
      + apply List.in_seq. lia.
      + now apply list_elem_of_In. }
  assert (Hclean : forall match_,
            last_is is_punct (rstrip is_punct (strip is_space match_)) = false
            /\ (clean_url urljoin base_url match_ = rstrip is_punct (strip is_space match_)
                \/ (clean_url urljoin base_url match_
                    = urljoin (default "" base_url) (rstrip is_punct (strip is_space match_))
                    /\ truthy_url base_url = true
                    /\ startswith "http" (rstrip is_punct (strip is_space match_)) = false))).
  { intros m. split; [apply rstrip_last|]. unfold clean_url.
    destruct (truthy_url base_url); [|now left].
    destruct (startswith "http" _); [now left | right; now repeat split]. }
  split; [exact Hnd|]. split; [exact Hmem|]. split; [exact Hclean|].
  intros Hbase url Hurl. apply Hmem in Hurl as (n & m & _ & _ & ->).
  destruct (Hclean m) as [Hlast [-> | (_ & Hb & _)]]; [exact Hlast | congruence].
Qed.

Example guideline_links_example :
  extract_guideline_links two_matches Tier1.same_url "..." None
  = ["https://j.example/author-guidelines"; "https://j.example/for-authors"].
Proof. reflexivity. Qed.

End GuidelineLinks.
